(** * Progressive deployment orchestrator and feature flags

    A shallow embedding of [containers/deployment/deployment-automation.py]:
    the [DeploymentAutomation] class with its plan registry, the four
    strategy executors, the canary metrics validation, the rollback path and
    the feature-flag engine.

    Conventions of the embedding.
    - Python [int] is [Z]; Python [float] is an exact rational [Q] (the
      float parsed out of a metrics reply also has [NaN] and the infinities).
    - A [dict] keyed by strings is a [gmap string _].
    - The code is effectful: a run threads the plan object and the list of
      the effects it has performed (newest first).  Every call that leaves
      the class (kubectl, git, Prometheus, Slack, [asyncio.sleep]) and every
      helper method that the class calls but does not define is answered by
      the [World], which either returns a value or raises.
    - [while] needs fuel; running out of it is the outcome [OutOfFuel]. *)

From Stdlib Require Import ZArith QArith Lia.
From stdpp Require Import gmap strings list pretty.

Set Default Proof Using "Type".
Local Open Scope string_scope.
Local Open Scope list_scope.
Local Open Scope Z_scope.

(** ** Enumerations *)

Inductive DeploymentStrategy := ROLLING_UPDATE | BLUE_GREEN | CANARY | IMMEDIATE.
Inductive DeploymentStatus :=
  PENDING | IN_PROGRESS | VALIDATING | COMPLETED | FAILED | ROLLED_BACK.
Inductive EnvironmentType := DEVELOPMENT | STAGING | PRODUCTION.

(** [Enum(value)]: the member whose value is [v], or [None] where Python
    raises [ValueError]. *)
Definition DeploymentStrategy_of (v : string) : option DeploymentStrategy :=
  if String.eqb v "rolling_update" then Some ROLLING_UPDATE
  else if String.eqb v "blue_green" then Some BLUE_GREEN
  else if String.eqb v "canary" then Some CANARY
  else if String.eqb v "immediate" then Some IMMEDIATE
  else None.

Definition EnvironmentType_of (v : string) : option EnvironmentType :=
  if String.eqb v "development" then Some DEVELOPMENT
  else if String.eqb v "staging" then Some STAGING
  else if String.eqb v "production" then Some PRODUCTION
  else None.

Definition status_eqb (a b : DeploymentStatus) : bool :=
  match a, b with
  | PENDING, PENDING | IN_PROGRESS, IN_PROGRESS | VALIDATING, VALIDATING
  | COMPLETED, COMPLETED | FAILED, FAILED | ROLLED_BACK, ROLLED_BACK => true
  | _, _ => false
  end.

Definition terminal (s : DeploymentStatus) : Prop :=
  s = COMPLETED \/ s = FAILED \/ s = ROLLED_BACK.

(** ** Data classes *)

Record DeploymentPlan := {
  plan_id : string;
  name : string;
  strategy : DeploymentStrategy;
  source_image : string;
  target_environment : EnvironmentType;
  services : list string;
  rollback_on_failure : bool;
  validation_checks : list string;
  timeout_seconds : Z;
  created_by : string;
  created_at : Z;
  status : DeploymentStatus;
  progress_percentage : Q;
  error_message : option string
}.

Module Flag.
Record FeatureFlag := {
  name : string;
  enabled : bool;
  rollout_percentage : Z;
  target_segments : list string;
  environments : list string;
  conditions : list (string * string)
}.
End Flag.
Abbreviation FeatureFlag := Flag.FeatureFlag.

(** The three in-place assignments the executors make on a plan. *)
Definition with_status (s : DeploymentStatus) (p : DeploymentPlan) : DeploymentPlan :=
  {| plan_id := plan_id p; name := name p; strategy := strategy p;
     source_image := source_image p; target_environment := target_environment p;
     services := services p; rollback_on_failure := rollback_on_failure p;
     validation_checks := validation_checks p; timeout_seconds := timeout_seconds p;
     created_by := created_by p; created_at := created_at p;
     status := s; progress_percentage := progress_percentage p;
     error_message := error_message p |}.

Definition with_progress (q : Q) (p : DeploymentPlan) : DeploymentPlan :=
  {| plan_id := plan_id p; name := name p; strategy := strategy p;
     source_image := source_image p; target_environment := target_environment p;
     services := services p; rollback_on_failure := rollback_on_failure p;
     validation_checks := validation_checks p; timeout_seconds := timeout_seconds p;
     created_by := created_by p; created_at := created_at p;
     status := status p; progress_percentage := q;
     error_message := error_message p |}.

Definition with_error_message (m : option string) (p : DeploymentPlan) : DeploymentPlan :=
  {| plan_id := plan_id p; name := name p; strategy := strategy p;
     source_image := source_image p; target_environment := target_environment p;
     services := services p; rollback_on_failure := rollback_on_failure p;
     validation_checks := validation_checks p; timeout_seconds := timeout_seconds p;
     created_by := created_by p; created_at := created_at p;
     status := status p; progress_percentage := progress_percentage p;
     error_message := m |}.

(** ** Configuration ([_load_config], the parts the modelled code reads) *)

Record CanaryConfig := {
  initial_traffic_percentage : Z;
  traffic_increment : Z;
  wait_time_between_steps : Z;
  analysis_duration : Z
}.

Record BlueGreenConfig := { validation_duration : Z; auto_promotion : bool }.

Record RollbackTriggers := {
  error_rate_threshold : Q;
  response_time_threshold : Q;
  availability_threshold : Q
}.

Record Config := {
  canary : CanaryConfig;
  blue_green : BlueGreenConfig;
  rollback_triggers : RollbackTriggers;
  prometheus_url : string;
  slack_webhook : string
}.

Definition default_config : Config :=
  {| canary := {| initial_traffic_percentage := 10; traffic_increment := 20;
                  wait_time_between_steps := 300; analysis_duration := 300 |};
     blue_green := {| validation_duration := 600; auto_promotion := false |};
     rollback_triggers := {| error_rate_threshold := 5; response_time_threshold := 3;
                             availability_threshold := 99 |};
     prometheus_url := "http://prometheus:9090";
     slack_webhook := "${SLACK_WEBHOOK_URL}" |}.

(** ** Python values, exceptions, effects *)

Inductive exn :=
| ValueError (msg : string)
| KeyError (key : string)
| TypeError (msg : string)
| AttributeError (msg : string)
| OtherError (msg : string).

(** [str(e)] *)
Definition str (e : exn) : string :=
  match e with
  | ValueError m | TypeError m | AttributeError m | OtherError m => m
  | KeyError k => "'" +:+ k +:+ "'"
  end.

Inductive pyfloat := Finite (q : Q) | NaN | Infinity (negative : bool).

(** [x > threshold] on floats: false on [NaN]. *)
Definition float_gt (x : pyfloat) (threshold : Q) : bool :=
  match x with
  | Finite q => negb (Qle_bool q threshold)
  | NaN => false
  | Infinity negative => negb negative
  end.

(** The decoded body of a Prometheus reply: [data["status"]] and, per
    element of [data["data"]["result"]], the outcome of
    [float(r["value"][1])] ([None] where that expression raises). *)
Record prom_json := {
  prom_status : string;
  prom_result : list (option pyfloat)
}.

Inductive pyval :=
| PNone
| PBool (b : bool)
| PInt (z : Z)
| PStr (s : string)
| PCoroutine (qualname : string)
| PJson (d : prom_json).

Definition truthy (v : pyval) : bool :=
  match v with
  | PNone => false
  | PBool b => b
  | PInt z => negb (Z.eqb z 0)
  | PStr s => negb (String.eqb s "")
  | PCoroutine _ | PJson _ => true
  end.

Inductive metric := error_rate_query | response_time_query.

(** What leaves the class.  [apply_kubernetes_manifest] stands for the body
    of [_apply_kubernetes_manifest] (temp file, [kubectl apply], unlink);
    [prepare_gitops_repo] for the git pull or clone; the helpers from
    [generate_traffic_routing_manifest] to [rollback_standard_deployment]
    are the methods the class calls without defining them. *)
Inductive call :=
| prepare_gitops_repo
| asyncio_sleep (seconds : Z)
| apply_kubernetes_manifest (manifest : pyval)
| prometheus_query (q : metric)
| slack_post
| generate_traffic_routing_manifest (service : string) (percentage : Z)
| generate_stable_manifest (service : string)
| remove_canary_deployment (service : string)
| deploy_green_environment
| validate_green_environment
| switch_traffic_to_green
| cleanup_blue_environment
| update_service_rolling (service : string)
| validate_rolling_deployment
| update_service_immediate (service : string)
| validate_immediate_deployment
| rollback_blue_green_deployment
| rollback_standard_deployment.

Inductive reply := Return (v : pyval) | Raise (e : exn).

(** The [logger] records of the modelled methods. *)
Inductive log_record :=
| Deployment_plan_not_found
| Starting_deployment
| Deployment_completed_successfully
| Deployment_failed
| Deployment_error (e : exn)
| GitOps_repository_prepared
| Failed_to_prepare_GitOps_repository (e : exn)
| Starting_canary_deployment
| Canary_metrics_validation_failed
| Canary_traffic_increased_to (percentage : Z)
| Canary_deployment_completed
| Canary_deployment_failed (e : exn)
| Canary_deployed_for_service (service : string)
| Traffic_routed_to_canary (percentage : Z)
| Canary_error_rate_too_high (v : pyfloat)
| Canary_response_time_too_high (v : pyfloat)
| Metrics_validation_failed (e : exn)
| Canary_promoted_to_stable
| Starting_blue_green_deployment
| Green_environment_validation_failed
| Waiting_for_manual_promotion_approval
| Blue_green_deployment_completed
| Blue_green_deployment_failed (e : exn)
| Starting_rolling_deployment
| Rolling_deployment_validation_failed
| Rolling_deployment_completed
| Rolling_deployment_failed (e : exn)
| Starting_immediate_deployment
| Immediate_deployment_validation_failed
| Immediate_deployment_completed
| Immediate_deployment_failed (e : exn)
| Starting_rollback
| Rollback_completed
| Rollback_failed (e : exn)
| Rollback_notification_sent
| Failed_to_send_notification (status_code : pyval)
| Notification_error (e : exn).

Inductive event :=
| Call (c : call) (r : reply)
| Store (p : DeploymentPlan)
| Log (l : log_record).

(** The state of one run: the plan object and what has happened so far,
    newest first. *)
Record machine := { plan : DeploymentPlan; trace : list event }.

Definition World := machine -> call -> reply.

Inductive outcome (A : Type) :=
| Ok (a : A)
| Raised (e : exn)
| OutOfFuel.
Arguments Ok {A} a.
Arguments Raised {A} e.
Arguments OutOfFuel {A}.

Definition M (A : Type) : Type := World -> machine -> outcome A * machine.

Definition ret {A} (a : A) : M A := fun _ st => (Ok a, st).

Definition bind {A B} (m : M A) (k : A -> M B) : M B :=
  fun w st =>
    match m w st with
    | (Ok a, st') => k a w st'
    | (Raised e, st') => (Raised e, st')
    | (OutOfFuel, st') => (OutOfFuel, st')
    end.

Definition raise {A} (e : exn) : M A := fun _ st => (Raised e, st).

Definition out_of_fuel {A} : M A := fun _ st => (OutOfFuel, st).

(** [try: m except Exception as e: h e] *)
Definition try_except {A} (m : M A) (h : exn -> M A) : M A :=
  fun w st =>
    match m w st with
    | (Raised e, st') => h e w st'
    | r => r
    end.

Declare Scope py_scope.
Delimit Scope py_scope with py.
Notation "'let*' x ':=' m 'in' k" := (bind m (fun x => k))
  (at level 10, x name, m at level 100, k at level 200) : py_scope.
Notation "m ;; k" := (bind m (fun _ => k))
  (at level 100, k at level 200, right associativity) : py_scope.
Local Open Scope py_scope.

Definition emit (e : event) : M unit :=
  fun _ st => (Ok tt, {| plan := plan st; trace := e :: trace st |}).

Definition log (l : log_record) : M unit := emit (Log l).

Definition get_plan : M DeploymentPlan := fun _ st => (Ok (plan st), st).

(** An assignment to a field of the plan: the object changes and the
    snapshot after the assignment is recorded. *)
Definition assign (f : DeploymentPlan -> DeploymentPlan) : M unit :=
  fun _ st =>
    let p := f (plan st) in (Ok tt, {| plan := p; trace := Store p :: trace st |}).

Definition set_status (s : DeploymentStatus) : M unit := assign (with_status s).
Definition set_progress (q : Q) : M unit := assign (with_progress q).
Definition set_error_message (m : string) : M unit := assign (with_error_message (Some m)).

(** A call answered by the world. *)
Definition extern (c : call) : M pyval :=
  fun w st =>
    let r := w st c in
    let st' := {| plan := plan st; trace := Call c r :: trace st |} in
    match r with
    | Return v => (Ok v, st')
    | Raise e => (Raised e, st')
    end.

(** [for x in xs: body x] *)
Fixpoint for_each {A} (xs : list A) (body : A -> M unit) : M unit :=
  match xs with
  | [] => ret tt
  | x :: xs' => body x ;; for_each xs' body
  end.

(** ** The instance state of [DeploymentAutomation] *)

Record DeploymentAutomation := {
  config : Config;
  active_deployments : gmap string DeploymentPlan;
  deployment_history : list DeploymentPlan;
  feature_flags : gmap string FeatureFlag
}.

(** ** Helpers of the canary strategy *)

(** The body is I/O only: it writes [manifest] to a temporary file, runs
    [kubectl apply] on it and re-raises a failure.  What [open], [f.write]
    and [kubectl] do with the value they receive is the world's answer. *)
Definition _apply_kubernetes_manifest (manifest : pyval) : M unit :=
  extern (apply_kubernetes_manifest manifest) ;; ret tt.

(** [_generate_canary_manifest] is an [async def] and is called here
    without [await]: the value handed on is its coroutine object. *)
Definition _deploy_canary_version : M unit :=
  let* p := get_plan in
  for_each (services p) (fun service =>
    let canary_manifest := PCoroutine "_generate_canary_manifest" in
    _apply_kubernetes_manifest canary_manifest ;;
    log (Canary_deployed_for_service service)).

Definition _route_traffic_to_canary (percentage : Z) : M unit :=
  let* p := get_plan in
  for_each (services p) (fun service =>
    let* traffic_manifest := extern (generate_traffic_routing_manifest service percentage) in
    _apply_kubernetes_manifest traffic_manifest) ;;
  log (Traffic_routed_to_canary percentage).

(** [await response.json()] must have produced a mapping. *)
Definition json_of (v : pyval) : M prom_json :=
  match v with
  | PJson d => ret d
  | _ => raise (TypeError "response body is not a JSON object")
  end.

(** [float(data["data"]["result"][0]["value"][1])] *)
Definition first_value (data : prom_json) : M pyfloat :=
  match prom_result data with
  | Some x :: _ => ret x
  | None :: _ => raise (ValueError "could not convert string to float")
  | [] => raise (OtherError "list index out of range")
  end.

(** [data["status"] == "success" and data["data"]["result"]] *)
Definition has_samples (data : prom_json) : bool :=
  String.eqb (prom_status data) "success" &&
  match prom_result data with [] => false | _ :: _ => true end.

Definition _validate_canary_metrics (cfg : Config) : M bool :=
  try_except
    (let* v := extern (prometheus_query error_rate_query) in
     let* data := json_of v in
     let* too_high :=
       (if has_samples data then
          let* error_rate := first_value data in
          let threshold := error_rate_threshold (rollback_triggers cfg) in
          if float_gt error_rate threshold
          then log (Canary_error_rate_too_high error_rate) ;; ret true
          else ret false
        else ret false) in
     if too_high : bool then ret false
     else
       let* v := extern (prometheus_query response_time_query) in
       let* data := json_of v in
       let* too_high :=
         (if has_samples data then
            let* response_time := first_value data in
            let threshold := response_time_threshold (rollback_triggers cfg) in
            if float_gt response_time threshold
            then log (Canary_response_time_too_high response_time) ;; ret true
            else ret false
          else ret false) in
       if too_high : bool then ret false else ret true)
    (fun e => log (Metrics_validation_failed e) ;; ret false).

Definition _promote_canary_to_stable : M unit :=
  let* p := get_plan in
  for_each (services p) (fun service =>
    let* stable_manifest := extern (generate_stable_manifest service) in
    _apply_kubernetes_manifest stable_manifest ;;
    extern (remove_canary_deployment service) ;; ret tt) ;;
  log Canary_promoted_to_stable.

Definition _rollback_canary_deployment : M unit :=
  _route_traffic_to_canary 0 ;;
  let* p := get_plan in
  for_each (services p) (fun service =>
    extern (remove_canary_deployment service) ;; ret tt).

(** ** The strategy executors *)

(** How the [while] loop of the canary executor ends: its condition became
    false (with the final value of [traffic_percentage]), or its body
    executed [return b]. *)
Inductive ramp_end := fell_through (traffic_percentage : Z) | returned (b : bool).

Fixpoint canary_ramp (cfg : Config) (fuel : nat)
    (traffic_percentage increment wait_time : Z) : M ramp_end :=
  if traffic_percentage <? 100 then
    match fuel with
    | O => out_of_fuel
    | S fuel' =>
      extern (asyncio_sleep wait_time) ;;
      let* healthy := _validate_canary_metrics cfg in
      if negb healthy then
        log Canary_metrics_validation_failed ;; ret (returned false)
      else
        let traffic_percentage := Z.min 100 (traffic_percentage + increment) in
        _route_traffic_to_canary traffic_percentage ;;
        set_progress (20 + inject_Z traffic_percentage * 0.7) ;;
        log (Canary_traffic_increased_to traffic_percentage) ;;
        canary_ramp cfg fuel' traffic_percentage increment wait_time
    end
  else ret (fell_through traffic_percentage).

Definition _execute_canary_deployment (cfg : Config) (fuel : nat) : M bool :=
  log Starting_canary_deployment ;;
  let canary_config := canary cfg in
  try_except
    (set_progress 10 ;;
     _deploy_canary_version ;;
     set_progress 20 ;;
     let initial_traffic := initial_traffic_percentage canary_config in
     _route_traffic_to_canary initial_traffic ;;
     let traffic_percentage := initial_traffic in
     let increment := traffic_increment canary_config in
     let wait_time := wait_time_between_steps canary_config in
     let* e := canary_ramp cfg fuel traffic_percentage increment wait_time in
     match e with
     | returned b => ret b
     | fell_through _ =>
       set_progress 95 ;;
       _promote_canary_to_stable ;;
       set_progress 100 ;;
       log Canary_deployment_completed ;;
       ret true
     end)
    (fun e =>
       log (Canary_deployment_failed e) ;;
       _rollback_canary_deployment ;;
       ret false).

Definition _execute_blue_green_deployment (cfg : Config) : M bool :=
  log Starting_blue_green_deployment ;;
  let bg_config := blue_green cfg in
  try_except
    (set_progress 20 ;;
     extern deploy_green_environment ;;
     set_progress 50 ;;
     extern (asyncio_sleep (validation_duration bg_config)) ;;
     let* valid := extern validate_green_environment in
     if negb (truthy valid) then
       log Green_environment_validation_failed ;; ret false
     else
       set_progress 80 ;;
       (if auto_promotion bg_config then
          extern switch_traffic_to_green ;; ret tt
        else
          log Waiting_for_manual_promotion_approval ;;
          extern (asyncio_sleep 60) ;;
          extern switch_traffic_to_green ;; ret tt) ;;
       set_progress 95 ;;
       extern cleanup_blue_environment ;;
       set_progress 100 ;;
       log Blue_green_deployment_completed ;;
       ret true)
    (fun e => log (Blue_green_deployment_failed e) ;; ret false).

(** [plan.progress_percentage += 60 / len(plan.services)] *)
Definition add_progress_share : M unit :=
  let* p := get_plan in
  set_progress (progress_percentage p + 60 / inject_Z (Z.of_nat (length (services p)))).

Definition _execute_rolling_deployment (cfg : Config) : M bool :=
  log Starting_rolling_deployment ;;
  try_except
    (set_progress 20 ;;
     let* p := get_plan in
     for_each (services p) (fun service =>
       extern (update_service_rolling service) ;;
       add_progress_share) ;;
     set_progress 90 ;;
     let* valid := extern validate_rolling_deployment in
     if negb (truthy valid) then
       log Rolling_deployment_validation_failed ;; ret false
     else
       set_progress 100 ;;
       log Rolling_deployment_completed ;;
       ret true)
    (fun e => log (Rolling_deployment_failed e) ;; ret false).

Definition _execute_immediate_deployment : M bool :=
  log Starting_immediate_deployment ;;
  try_except
    (set_progress 20 ;;
     let* p := get_plan in
     for_each (services p) (fun service =>
       extern (update_service_immediate service) ;;
       add_progress_share) ;;
     set_progress 90 ;;
     let* valid := extern validate_immediate_deployment in
     if negb (truthy valid) then
       log Immediate_deployment_validation_failed ;; ret false
     else
       set_progress 100 ;;
       log Immediate_deployment_completed ;;
       ret true)
    (fun e => log (Immediate_deployment_failed e) ;; ret false).

(** ** Rollback *)

Definition _send_rollback_notification (cfg : Config) : M unit :=
  if negb (String.eqb (slack_webhook cfg) "") then
    try_except
      (let* response_status := extern slack_post in
       match response_status with
       | PInt 200 => log Rollback_notification_sent
       | _ => log (Failed_to_send_notification response_status)
       end)
      (fun e => log (Notification_error e))
  else ret tt.

Definition _execute_rollback (cfg : Config) : M unit :=
  log Starting_rollback ;;
  set_status ROLLED_BACK ;;
  try_except
    (let* p := get_plan in
     match strategy p with
     | CANARY => _rollback_canary_deployment
     | BLUE_GREEN => extern rollback_blue_green_deployment ;; ret tt
     | _ => extern rollback_standard_deployment ;; ret tt
     end ;;
     _send_rollback_notification cfg ;;
     log Rollback_completed)
    (fun e => log (Rollback_failed e)).

(** ** Plan execution *)

Definition _prepare_gitops_repo : M unit :=
  try_except
    (extern prepare_gitops_repo ;; log GitOps_repository_prepared)
    (fun e => log (Failed_to_prepare_GitOps_repository e) ;; raise e).

(** The [try] ... [except] part of [execute_deployment]. *)
Definition execute_body (cfg : Config) (fuel : nat) : M unit :=
  try_except
    (_prepare_gitops_repo ;;
     let* p := get_plan in
     let* success :=
       match strategy p with
       | CANARY => _execute_canary_deployment cfg fuel
       | BLUE_GREEN => _execute_blue_green_deployment cfg
       | ROLLING_UPDATE => _execute_rolling_deployment cfg
       | IMMEDIATE => _execute_immediate_deployment
       end in
     if success : bool then
       set_status COMPLETED ;;
       set_progress 100 ;;
       log Deployment_completed_successfully
     else
       set_status FAILED ;;
       log Deployment_failed ;;
       let* p := get_plan in
       if rollback_on_failure p then _execute_rollback cfg else ret tt)
    (fun e =>
       set_status FAILED ;;
       set_error_message (str e) ;;
       log (Deployment_error e) ;;
       let* p := get_plan in
       if rollback_on_failure p then _execute_rollback cfg else ret tt).

(** The result of [execute_deployment]: the returned value, the instance
    afterwards and the effects of the run, newest first. *)
Record execution := {
  returns : outcome bool;
  after : DeploymentAutomation;
  effects : list event
}.

Definition execute_deployment (self : DeploymentAutomation) (plan_id : string)
    (w : World) (fuel : nat) : execution :=
  match active_deployments self !! plan_id with
  | None =>
    {| returns := Ok false; after := self; effects := [Log Deployment_plan_not_found] |}
  | Some plan0 =>
    let run :=
      (log Starting_deployment ;;
       set_status IN_PROGRESS ;;
       execute_body (config self) fuel) in
    let '(r, st) := run w {| plan := plan0; trace := [] |} in
    match r with
    | OutOfFuel => {| returns := OutOfFuel; after := self; effects := trace st |}
    | _ =>
      (* finally: move to history *)
      let self' :=
        {| config := config self;
           active_deployments := delete plan_id (active_deployments self);
           deployment_history := deployment_history self ++ [plan st];
           feature_flags := feature_flags self |} in
      {| returns :=
           match r with
           | Raised e => Raised e
           | _ => Ok (status_eqb (status (plan st)) COMPLETED)
           end;
         after := self';
         effects := trace st |}
    end
  end.

(** ** Plan creation *)

(** The keyword arguments of [create_deployment_plan]; [None] is an absent
    key. *)
Record plan_kwargs := {
  kw_name : option string;
  kw_strategy : option string;
  kw_source_image : option string;
  kw_target_environment : option string;
  kw_services : option (list string);
  kw_rollback_on_failure : option bool;
  kw_validation_checks : option (list string);
  kw_timeout_seconds : option Z;
  kw_created_by : option string
}.

(** [now] is the clock: [int(time.time())] and [datetime.utcnow()]. *)
Definition create_deployment_plan (self : DeploymentAutomation) (now : Z)
    (kwargs : plan_kwargs) : outcome string * DeploymentAutomation :=
  let plan_id := "deploy_" +:+ pretty now +:+ "_" +:+ default "rolling" (kw_strategy kwargs) in
  let strategy_value := default "rolling_update" (kw_strategy kwargs) in
  match DeploymentStrategy_of strategy_value with
  | None =>
    (Raised (ValueError ("'" +:+ strategy_value +:+ "' is not a valid DeploymentStrategy")), self)
  | Some strategy =>
    match kw_source_image kwargs with
    | None => (Raised (KeyError "source_image"), self)
    | Some source_image =>
      match kw_target_environment kwargs with
      | None => (Raised (KeyError "target_environment"), self)
      | Some environment_value =>
        match EnvironmentType_of environment_value with
        | None =>
          (Raised (ValueError ("'" +:+ environment_value +:+ "' is not a valid EnvironmentType")),
           self)
        | Some target_environment =>
          let plan :=
            {| plan_id := plan_id;
               name := default ("Deployment " +:+ plan_id) (kw_name kwargs);
               strategy := strategy;
               source_image := source_image;
               target_environment := target_environment;
               services := default [] (kw_services kwargs);
               rollback_on_failure := default true (kw_rollback_on_failure kwargs);
               validation_checks := default [] (kw_validation_checks kwargs);
               timeout_seconds := default 1800 (kw_timeout_seconds kwargs);
               created_by := default "system" (kw_created_by kwargs);
               created_at := now;
               status := PENDING;
               progress_percentage := 0;
               error_message := None |} in
          (Ok plan_id,
           {| config := config self;
              active_deployments := <[plan_id := plan]> (active_deployments self);
              deployment_history := deployment_history self;
              feature_flags := feature_flags self |})
        end
      end
    end
  end.

(** ** Feature flags *)

(** [_load_feature_flags] *)
Definition loaded_feature_flags : gmap string FeatureFlag :=
  <["enhanced_video_processing" :=
      {| Flag.name := "enhanced_video_processing"; Flag.enabled := false;
         Flag.rollout_percentage := 0; Flag.target_segments := ["beta_users"];
         Flag.environments := ["staging"]; Flag.conditions := [] |}]>
  (<["ai_inference_v2" :=
      {| Flag.name := "ai_inference_v2"; Flag.enabled := true;
         Flag.rollout_percentage := 25; Flag.target_segments := ["premium_users"];
         Flag.environments := ["staging"; "production"];
         Flag.conditions := [("user_tier", "premium")] |}]>
  (<["real_time_collaboration" :=
      {| Flag.name := "real_time_collaboration"; Flag.enabled := true;
         Flag.rollout_percentage := 100; Flag.target_segments := ["all"];
         Flag.environments := ["production"]; Flag.conditions := [] |}]> ∅)).

(** [x in l] on a list of strings *)
Definition contains (l : list string) (x : string) : bool := existsb (String.eqb x) l.

(** An optional string argument as [if arg:] reads it: [None] and the
    empty string are both false. *)
Definition given (arg : option string) : option string :=
  match arg with
  | Some s => if String.eqb s "" then None else Some s
  | None => None
  end.

(** [hash] is the interpreter's [hash] on [str] (fixed for the life of the
    process); [randint] is the value [random.randint(0, 99)] returns if this
    call draws one. *)
Definition is_feature_enabled (self : DeploymentAutomation) (hash : string -> Z)
    (randint : Z) (feature_name : string)
    (user_id user_segment environment : option string) : bool :=
  match feature_flags self !! feature_name with
  | None => false
  | Some flag =>
    if match given environment with
       | Some e => negb (contains (Flag.environments flag) e)
       | None => false
       end
    then false
    else if match given user_segment with
            | Some s => negb (contains (Flag.target_segments flag) s)
                        && negb (contains (Flag.target_segments flag) "all")
            | None => false
            end
    then false
    else if Flag.rollout_percentage flag <? 100 then
      match given user_id with
      | Some u =>
        let user_hash := hash u mod 100 in
        user_hash <? Flag.rollout_percentage flag
      | None => randint <? Flag.rollout_percentage flag
      end
    else Flag.enabled flag
  end.

(** The keyword arguments of [update_feature_flag].  Keys other than the
    four the method looks for are accepted and never read; [kw_flag_name]
    and [kw_conditions] are two of them. *)
Record flag_kwargs := {
  kw_enabled : option bool;
  kw_rollout_percentage : option Z;
  kw_target_segments : option (list string);
  kw_environments : option (list string);
  kw_flag_name : option string;
  kw_conditions : option (list (string * string))
}.

Definition update_feature_flag (self : DeploymentAutomation) (feature_name : string)
    (kwargs : flag_kwargs) : outcome unit * DeploymentAutomation :=
  match feature_flags self !! feature_name with
  | None => (Ok tt, self)
  | Some flag =>
    let flag :=
      {| Flag.name := Flag.name flag;
         Flag.enabled := default (Flag.enabled flag) (kw_enabled kwargs);
         Flag.rollout_percentage :=
           default (Flag.rollout_percentage flag) (kw_rollout_percentage kwargs);
         Flag.target_segments :=
           default (Flag.target_segments flag) (kw_target_segments kwargs);
         Flag.environments := default (Flag.environments flag) (kw_environments kwargs);
         Flag.conditions := Flag.conditions flag |} in
    (Ok tt,
     {| config := config self;
        active_deployments := active_deployments self;
        deployment_history := deployment_history self;
        feature_flags := <[feature_name := flag]> (feature_flags self) |})
  end.


(** ** Status queries *)

(** [get_deployment_status]: the active plan under [plan_id], else the
    first archived plan with that id, else [None]. *)
Definition get_deployment_status (self : DeploymentAutomation) (plan_id0 : string)
    : option DeploymentPlan :=
  match active_deployments self !! plan_id0 with
  | Some plan => Some plan
  | None =>
    List.find (fun historical_plan => String.eqb (plan_id historical_plan) plan_id0)
      (deployment_history self)
  end.

(** ** Configuration merge *)

(** A document as [yaml.safe_load] returns it: a scalar, a list, or a
    mapping kept as the list of its items in insertion order (with
    string keys, as in the configuration of this class). *)
Inductive scalar :=
| SNull
| SBool (b : bool)
| SInt (z : Z)
| SFloat (x : pyfloat)
| SStr (s : string).

#[warnings="-register-all"]
Inductive yaml :=
| YScalar (v : scalar)
| YList (items : list yaml)
| YDict (items : list (string * yaml)).

(** [d.get(key)] *)
Fixpoint dict_get (key : string) (d : list (string * yaml)) : option yaml :=
  match d with
  | [] => None
  | (k, v) :: d' => if String.eqb k key then Some v else dict_get key d'
  end.

(** [d[key] = value]: in place for a key that is present, at the end for
    a new key. *)
Fixpoint dict_set (key : string) (value : yaml) (d : list (string * yaml))
    : list (string * yaml) :=
  match d with
  | [] => [(key, value)]
  | (k, v) :: d' =>
    if String.eqb k key then (k, value) :: d' else (k, v) :: dict_set key value d'
  end.

(** What [base_dict[key]] is after one round of the loop of
    [_deep_update] on the item [(key, value)], [old] being [base_dict.get(key)]:
    two dictionaries are merged, anything else is replaced by [value]. *)
Fixpoint merged (old : option yaml) (value : yaml) {struct value} : yaml :=
  match old, value with
  | Some (YDict base_dict), YDict update_dict =>
    YDict
      ((fix loop (items : list (string * yaml)) (base_dict : list (string * yaml)) :=
          match items with
          | [] => base_dict
          | (key, value) :: items' =>
            loop items' (dict_set key (merged (dict_get key base_dict) value) base_dict)
          end) update_dict base_dict)
  | _, _ => value
  end.

(** [_deep_update(base_dict, update_dict)], returning [base_dict] as the
    loop leaves it. *)
Fixpoint _deep_update (base_dict update_dict : list (string * yaml))
    : list (string * yaml) :=
  match update_dict with
  | [] => base_dict
  | (key, value) :: items' =>
    _deep_update (dict_set key (merged (dict_get key base_dict) value) base_dict) items'
  end.

(** [if loaded_config:] *)
Definition yaml_truthy (y : yaml) : bool :=
  match y with
  | YScalar SNull => false
  | YScalar (SBool b) => b
  | YScalar (SInt z) => negb (Z.eqb z 0)
  | YScalar (SFloat (Finite q)) => negb (Qeq_bool q 0)
  | YScalar (SFloat _) => true
  | YScalar (SStr s) => negb (String.eqb s "")
  | YList items => match items with [] => false | _ :: _ => true end
  | YDict items => match items with [] => false | _ :: _ => true end
  end.

Definition section (items : list (string * scalar)) : yaml :=
  YDict (map (fun '(k, v) => (k, YScalar v)) items).

(** The dictionary [_load_config] starts from. *)
Definition default_config_dict : list (string * yaml) :=
  [("workspace", section [("directory", SStr "/tmp/deployment-workspace")]);
   ("gitops",
    section [("repository", SStr "https://github.com/pitchey/pitchey-gitops.git");
             ("branch", SStr "main");
             ("applications_path", SStr "applications");
             ("ssh_key_path", SStr "/etc/deployment/ssh-key")]);
   ("argocd",
    section [("server", SStr "argocd-server:80");
             ("token", SStr "${ARGOCD_TOKEN}");
             ("application_prefix", SStr "pitchey")]);
   ("kubernetes",
    section [("namespace", SStr "pitchey-production");
             ("kubeconfig_path", SStr "/etc/deployment/kubeconfig")]);
   ("monitoring",
    section [("prometheus_url", SStr "http://prometheus:9090");
             ("grafana_url", SStr "http://grafana:3000")]);
   ("notifications",
    YDict [("slack_webhook", YScalar (SStr "${SLACK_WEBHOOK_URL}"));
           ("email_recipients", YList [YScalar (SStr "devops@pitchey.com")])]);
   ("rollback",
    YDict [("auto_rollback_enabled", YScalar (SBool true));
           ("rollback_triggers",
            section [("error_rate_threshold", SFloat (Finite 5));
                     ("response_time_threshold", SFloat (Finite 3));
                     ("availability_threshold", SFloat (Finite 99))]);
           ("monitoring_duration", YScalar (SInt 300))]);
   ("deployment_strategies",
    YDict [("canary",
            section [("initial_traffic_percentage", SInt 10);
                     ("traffic_increment", SInt 20);
                     ("wait_time_between_steps", SInt 300);
                     ("analysis_duration", SInt 300)]);
           ("blue_green",
            section [("validation_duration", SInt 600);
                     ("auto_promotion", SBool false)]);
           ("rolling_update",
            section [("max_unavailable", SInt 1); ("max_surge", SInt 1)])])].

(** [_load_config]; [config_file] is [None] if [self.config_path] does
    not exist and else the document [yaml.safe_load] returned.  A
    document that is true and not a mapping has no [items]. *)
Definition _load_config (config_file : option yaml) : outcome (list (string * yaml)) :=
  match config_file with
  | None => Ok default_config_dict
  | Some loaded_config =>
    if yaml_truthy loaded_config then
      match loaded_config with
      | YDict update_dict => Ok (_deep_update default_config_dict update_dict)
      | _ => Raised (AttributeError "object has no attribute 'items'")
      end
    else Ok default_config_dict
  end.

(** [config[k1][k2]...] without the exceptions: [None] where a key is
    missing or the value reached is not a mapping. *)
Fixpoint get_path (path : list string) (y : yaml) : option yaml :=
  match path with
  | [] => Some y
  | key :: path' =>
    match y with
    | YDict d =>
      match dict_get key d with
      | Some y' => get_path path' y'
      | None => None
      end
    | _ => None
    end
  end.

(** ** The entry point *)

(** [DeploymentAutomation()] with the configuration [cfg] that
    [_load_config] produced. *)
Definition new_instance (cfg : Config) : DeploymentAutomation :=
  {| config := cfg; active_deployments := ∅; deployment_history := [];
     feature_flags := loaded_feature_flags |}.

(** ** Concrete inputs used by the examples *)

(** A stand-in for the interpreter's string hash. *)
Definition length_hash (s : string) : Z := 7 * Z.of_nat (String.length s).

Definition no_flag_kwargs : flag_kwargs :=
  {| kw_enabled := None; kw_rollout_percentage := None; kw_target_segments := None;
     kw_environments := None; kw_flag_name := None; kw_conditions := None |}.

(** [update_feature_flag(name, rollout_percentage=p)] *)
Definition set_rollout (self : DeploymentAutomation) (feature_name : string) (p : Z)
    : DeploymentAutomation :=
  snd (update_feature_flag self feature_name
         {| kw_enabled := None; kw_rollout_percentage := Some p;
            kw_target_segments := None; kw_environments := None;
            kw_flag_name := None; kw_conditions := None |}).

Definition fresh_instance : DeploymentAutomation :=
  {| config := default_config; active_deployments := ∅; deployment_history := [];
     feature_flags := loaded_feature_flags |}.

(** ** Statements that are compared with the code

    Each of these says what a sentence of the specification asks for, in
    the vocabulary of the model. *)

(** Raising the rollout percentage of a flag, up to and including 100,
    never disables an identified user who was enabled. *)
Definition monotonic_rollout_up_to_100 : Prop :=
  forall self hash randint feature_name u user_segment environment p p',
    given (Some u) = Some u ->
    p < p' <= 100 ->
    is_feature_enabled (set_rollout self feature_name p) hash randint
      feature_name (Some u) user_segment environment = true ->
    is_feature_enabled (set_rollout self feature_name p') hash randint
      feature_name (Some u) user_segment environment = true.

(** Two calls with the same arguments and a user id that is not [None]
    agree, whatever [random.randint(0, 99)] would return in each. *)
Definition deterministic_for_non_null_user : Prop :=
  forall self hash feature_name u user_segment environment randint1 randint2,
    0 <= randint1 <= 99 ->
    0 <= randint2 <= 99 ->
    is_feature_enabled self hash randint1 feature_name (Some u) user_segment environment =
    is_feature_enabled self hash randint2 feature_name (Some u) user_segment environment.

Definition same_settings (a b : FeatureFlag) : Prop :=
  Flag.enabled a = Flag.enabled b /\
  Flag.rollout_percentage a = Flag.rollout_percentage b /\
  Flag.target_segments a = Flag.target_segments b /\
  Flag.environments a = Flag.environments b.

(** The bucket of a user depends on the flag that is evaluated: some two
    flags that differ in nothing but their name decide differently for
    some identified user. *)
Definition bucket_depends_on_flag_name : Prop :=
  exists hash self randint name1 name2 flag1 flag2 u user_segment environment,
    feature_flags self !! name1 = Some flag1 /\
    feature_flags self !! name2 = Some flag2 /\
    same_settings flag1 flag2 /\
    given (Some u) = Some u /\
    is_feature_enabled self hash randint name1 (Some u) user_segment environment <>
    is_feature_enabled self hash randint name2 (Some u) user_segment environment.

(** [create_deployment_plan] rejects unknown enum values and an empty
    service list, leaving the registry alone, and otherwise registers a
    PENDING plan. *)
Definition create_plan_validates : Prop :=
  forall self now kwargs,
    let '(r, self') := create_deployment_plan self now kwargs in
    if decide (DeploymentStrategy_of (default "rolling_update" (kw_strategy kwargs)) = None
               \/ (kw_target_environment kwargs ≫= EnvironmentType_of) = None
               \/ default [] (kw_services kwargs) = [])
    then (exists e, r = Raised e) /\ self' = self
    else exists plan_id plan,
        r = Ok plan_id /\
        active_deployments self' !! plan_id = Some plan /\ status plan = PENDING.

Definition canary_kwargs (services : option (list string)) : plan_kwargs :=
  {| kw_name := Some "Video Processor v2.1"; kw_strategy := Some "canary";
     kw_source_image := Some "pitchey/video-processor:v2.1.0";
     kw_target_environment := Some "production"; kw_services := services;
     kw_rollback_on_failure := Some true; kw_validation_checks := None;
     kw_timeout_seconds := None; kw_created_by := None |}.

(** A reply that carries no health signal: the call raised, the body is
    not the expected JSON, or the query has no data points. *)
Definition no_signal (r : reply) : Prop :=
  match r with
  | Raise _ => True
  | Return (PJson d) => has_samples d = false
  | Return _ => True
  end.

(** Validation fails whenever one of its queries comes back without a
    health signal. *)
Definition fail_closed : Prop :=
  forall cfg w st new q r,
    trace (snd (_validate_canary_metrics cfg w st)) = new ++ trace st ->
    In (Call (prometheus_query q) r) new ->
    no_signal r ->
    fst (_validate_canary_metrics cfg w st) = Ok false.

(** A metrics provider that answers every query with no data points. *)
Definition silent_world : World :=
  fun _ _ => Return (PJson {| prom_status := "success"; prom_result := [] |}).

Definition pending_plan (strat : DeploymentStrategy) (svcs : list string)
    (rollback : bool) : DeploymentPlan :=
  {| plan_id := "deploy_1700000000_demo"; name := "Video Processor v2.1";
     strategy := strat; source_image := "pitchey/video-processor:v2.1.0";
     target_environment := PRODUCTION; services := svcs;
     rollback_on_failure := rollback; validation_checks := [];
     timeout_seconds := 1800; created_by := "system"; created_at := 1700000000;
     status := PENDING; progress_percentage := 0; error_message := None |}.

Definition start (p : DeploymentPlan) : machine := {| plan := p; trace := [] |}.

(** ** Reasoning about runs *)

(** [sound Inv I m]: started on a plan that satisfies [Inv], the run of
    [m] keeps [Inv], only adds effects to the trace, and every effect it
    adds satisfies [I]. *)
Definition sound {A} (Inv : DeploymentPlan -> Prop) (I : event -> Prop) (m : M A) : Prop :=
  forall w st,
    Inv (plan st) ->
    Inv (plan (snd (m w st))) /\
    exists new, trace (snd (m w st)) = new ++ trace st /\ Forall I new.

(** Two plans that differ at most in [progress_percentage]. *)
Definition same_but_progress (p q : DeploymentPlan) : Prop :=
  with_progress 0 p = with_progress 0 q.

(** Effects of an executor on the plan [p0]: assignments touch only its
    progress. *)
Definition progress_only (p0 : DeploymentPlan) (e : event) : Prop :=
  match e with
  | Store p => same_but_progress p0 p
  | _ => True
  end.

(** Effects of the I/O helpers: no assignment, and none of the three log
    records that mark the steps of the canary ramp. *)
Definition quiet (e : event) : Prop :=
  match e with
  | Store _ => False
  | Log Canary_metrics_validation_failed => False
  | Log (Canary_traffic_increased_to _) => False
  | Log (Traffic_routed_to_canary _) => False
  | _ => True
  end.

(** Effects of a rollback: no assignment, no ramp step, and no traffic
    weight requested or applied other than 0. *)
Definition withdraws (e : event) : Prop :=
  match e with
  | Store _ => False
  | Log Canary_metrics_validation_failed => False
  | Log (Canary_traffic_increased_to _) => False
  | Log (Traffic_routed_to_canary percentage) => percentage = 0
  | Call (generate_traffic_routing_manifest _ percentage) _ => percentage = 0
  | _ => True
  end.

(** The effects of the ramp loop entered with traffic [t], newest first,
    cycle by cycle: the loop is over; a cycle stopped before raising the
    traffic (validation failed, or something raised); or a cycle raised
    the traffic to [min(100, t + inc)], set the progress and went on. *)
Inductive ramp_events (inc : Z) : Z -> outcome ramp_end -> list event -> Prop :=
| ramp_done t :
    100 <= t -> ramp_events inc t (Ok (fell_through t)) []
| ramp_unhealthy t io :
    t < 100 -> Forall quiet io ->
    ramp_events inc t (Ok (returned false)) (Log Canary_metrics_validation_failed :: io)
| ramp_aborted t io r :
    t < 100 -> Forall quiet io -> (forall x, r <> Ok x) ->
    ramp_events inc t r io
| ramp_cycle t io p r rest :
    t < 100 -> Forall quiet io ->
    progress_percentage p = (20 + inject_Z (Z.min 100 (t + inc)) * 0.7)%Q ->
    ramp_events inc (Z.min 100 (t + inc)) r rest ->
    ramp_events inc t r
      (rest ++ Log (Canary_traffic_increased_to (Z.min 100 (t + inc)))
            :: Store p
            :: Log (Traffic_routed_to_canary (Z.min 100 (t + inc))) :: io).

(** [terminates m]: the run of [m] never runs out of fuel (it contains
    no [while]). *)
Definition terminates {A} (m : M A) : Prop :=
  forall w st, fst (m w st) <> OutOfFuel.

(** What the effects [io] of the rollback of the canary plan [p] hold
    when none of its cluster calls raised: the traffic weight 0 was
    generated and applied for every service and logged, and the canary
    deployment of every service was removed. *)
Definition canary_withdrawn (p : DeploymentPlan) (io : list event) : Prop :=
  strategy p = CANARY ->
  (forall c e, c <> slack_post -> ~ In (Call c (Raise e)) io) ->
  In (Log (Traffic_routed_to_canary 0)) io /\
  forall s, In s (services p) ->
    (exists m v,
        In (Call (generate_traffic_routing_manifest s 0) (Return m)) io /\
        In (Call (apply_kubernetes_manifest m) (Return v)) io) /\
    (exists v, In (Call (remove_canary_deployment s) (Return v)) io).

(** The last effects of [execute_deployment], newest first, after its
    executor has come back with [r] on the plan [p] (a raised exception
    counts from [_prepare_gitops_repo] on), and the plan they leave. *)
Inductive concluded (p : DeploymentPlan) :
    outcome bool -> list event -> DeploymentPlan -> Prop :=
| concluded_completed :
    concluded p (Ok true)
      [Log Deployment_completed_successfully;
       Store (with_progress 100 (with_status COMPLETED p));
       Store (with_status COMPLETED p)]
      (with_progress 100 (with_status COMPLETED p))
| concluded_failed :
    rollback_on_failure p = false ->
    concluded p (Ok false)
      [Log Deployment_failed; Store (with_status FAILED p)]
      (with_status FAILED p)
| concluded_rolled_back io :
    rollback_on_failure p = true ->
    Forall withdraws io ->
    canary_withdrawn p io ->
    concluded p (Ok false)
      (io ++ [Store (with_status ROLLED_BACK (with_status FAILED p));
              Log Starting_rollback;
              Log Deployment_failed;
              Store (with_status FAILED p)])
      (with_status ROLLED_BACK (with_status FAILED p))
| concluded_error e :
    rollback_on_failure p = false ->
    concluded p (Raised e)
      [Log (Deployment_error e);
       Store (with_error_message (Some (str e)) (with_status FAILED p));
       Store (with_status FAILED p)]
      (with_error_message (Some (str e)) (with_status FAILED p))
| concluded_error_rolled_back e io :
    rollback_on_failure p = true ->
    Forall withdraws io ->
    canary_withdrawn p io ->
    concluded p (Raised e)
      (io ++ [Store (with_status ROLLED_BACK
                       (with_error_message (Some (str e)) (with_status FAILED p)));
              Log Starting_rollback;
              Log (Deployment_error e);
              Store (with_error_message (Some (str e)) (with_status FAILED p));
              Store (with_status FAILED p)])
      (with_status ROLLED_BACK (with_error_message (Some (str e)) (with_status FAILED p))).

(** Effects outside the ramp loop: neither a failed validation nor a
    traffic increase. *)
Definition calm (e : event) : Prop :=
  match e with
  | Log Canary_metrics_validation_failed => False
  | Log (Canary_traffic_increased_to _) => False
  | _ => True
  end.

(** [ends_at_100 m]: whenever [m] returns True, the progress of the plan
    is 100. *)
Definition ends_at_100 (m : M bool) : Prop :=
  forall w st, fst (m w st) = Ok true -> progress_percentage (plan (snd (m w st))) = 100%Q.

(** The snapshots of the plan that a trace records, newest first. *)
Definition stores (tr : list event) : list DeploymentPlan :=
  omap (fun e => match e with Store p => Some p | _ => None end) tr.

(** What a later snapshot [q] of a plan may differ in from an earlier
    snapshot [p]: nothing once [p] is COMPLETED or ROLLED_BACK; the error
    message and the step from FAILED to ROLLED_BACK once [p] is FAILED. *)
Definition settles (p q : DeploymentPlan) : Prop :=
  (status p = COMPLETED \/ status p = ROLLED_BACK -> q = p) /\
  (status p = FAILED ->
   with_status FAILED (with_error_message None q) = with_error_message None p /\
   (status q = FAILED \/ status q = ROLLED_BACK /\ rollback_on_failure p = true)).

Fixpoint settled (snapshots : list DeploymentPlan) : Prop :=
  match snapshots with
  | [] => True
  | q :: older => Forall (fun p => settles p q) older /\ settled older
  end.

(** Once a plan has reached COMPLETED, FAILED or ROLLED_BACK, no later
    assignment changes it. *)
Definition terminal_state_invariant : Prop :=
  forall self plan_id w fuel later p earlier q,
    effects (execute_deployment self plan_id w fuel) = later ++ Store p :: earlier ->
    terminal (status p) ->
    In (Store q) later ->
    q = p.

(** The world of the class as it is written: a helper that the class
    does not define raises [AttributeError] when it is looked up, and
    [f.write] raises [TypeError] on a manifest that is not a string;
    everything else answers, the metrics with an error rate of 1% and a
    P95 latency of 1s. *)
Definition as_written : World :=
  fun _ c =>
    match c with
    | prepare_gitops_repo | asyncio_sleep _ => Return PNone
    | apply_kubernetes_manifest (PStr _) => Return PNone
    | apply_kubernetes_manifest _ => Raise (TypeError "write() argument must be str")
    | prometheus_query _ =>
      Return (PJson {| prom_status := "success"; prom_result := [Some (Finite 1)] |})
    | slack_post => Return (PInt 200)
    | _ => Raise (AttributeError "'DeploymentAutomation' object has no attribute")
    end.

Definition instance_with (p : DeploymentPlan) : DeploymentAutomation :=
  {| config := default_config;
     active_deployments := <[plan_id p := p]> ∅;
     deployment_history := [];
     feature_flags := loaded_feature_flags |}.

(** The values that the ramp loop assigns to [traffic_percentage], read
    off its log records (newest first, like the trace). *)
Definition increases (tr : list event) : list Z :=
  omap (fun e => match e with
                 | Log (Canary_traffic_increased_to t) => Some t
                 | _ => None
                 end) tr.

(** [steps] are successive values of [traffic_percentage] from [t] on:
    each one is assigned while the loop condition holds and is
    [min(100, previous + inc)]. *)
Fixpoint ramp_chain (inc t : Z) (steps : list Z) : Prop :=
  match steps with
  | [] => True
  | x :: xs => t < 100 /\ x = Z.min 100 (t + inc) /\ ramp_chain inc x xs
  end.

(** The same for a loop that ran until its condition became false. *)
Fixpoint ramp_chain_complete (inc t : Z) (steps : list Z) : Prop :=
  match steps with
  | [] => 100 <= t
  | x :: xs => t < 100 /\ x = Z.min 100 (t + inc) /\ ramp_chain_complete inc x xs
  end.

Fixpoint non_decreasing (t : Z) (steps : list Z) : Prop :=
  match steps with
  | [] => True
  | x :: xs => t <= x /\ non_decreasing x xs
  end.

(** A world in which the GitOps repository can be fetched and every
    sleep returns. *)
Definition ready (w : World) : Prop :=
  (forall st, exists v, w st prepare_gitops_repo = Return v) /\
  (forall st seconds, exists v, w st (asyncio_sleep seconds) = Return v).

(** A world in which every metrics validation passes. *)
Definition validations_pass (cfg : Config) (w : World) : Prop :=
  forall st, fst (_validate_canary_metrics cfg w st) = Ok true.

(** [succeeds w m]: in the world [w] the run of [m] returns. *)
Definition succeeds {A} (w : World) (m : M A) : Prop :=
  forall st, exists a, fst (m w st) = Ok a.

(** A cluster, a repository and a metrics provider that answer every
    call; the error rate is 1% and the P95 latency 1s. *)
Definition healthy_world : World :=
  fun _ c =>
    match c with
    | prometheus_query _ =>
      Return (PJson {| prom_status := "success"; prom_result := [Some (Finite 1)] |})
    | slack_post => Return (PInt 200)
    | generate_traffic_routing_manifest _ _ | generate_stable_manifest _ =>
      Return (PStr "manifest")
    | _ => Return PNone
    end.

(** How many error-rate queries a trace holds. *)
Definition is_error_rate_query (e : event) : bool :=
  match e with
  | Call (prometheus_query error_rate_query) _ => true
  | _ => false
  end.

Definition error_rate_queries (tr : list event) : nat :=
  length (List.filter is_error_rate_query tr).

(** As [healthy_world], but the second error-rate query reports 8%. *)
Definition unhealthy_on_cycle_2 : World :=
  fun st c =>
    match c with
    | prometheus_query error_rate_query =>
      if Nat.eqb (error_rate_queries (trace st)) 1
      then Return (PJson {| prom_status := "success"; prom_result := [Some (Finite 8)] |})
      else Return (PJson {| prom_status := "success"; prom_result := [Some (Finite 1)] |})
    | _ => healthy_world st c
    end.

(** A canary plan without services and a canary plan for two services,
    each registered in an instance with the default configuration. *)
Definition bare_canary : DeploymentPlan := pending_plan CANARY [] true.

Definition two_service_canary : DeploymentPlan :=
  pending_plan CANARY ["video-processor"; "ai-inference"] true.

(** ** Further vocabulary *)

(** Two plans that differ at most in status, progress and error message:
    the fields [execute_deployment] assigns. *)
Definition same_request (p q : DeploymentPlan) : Prop :=
  with_status PENDING (with_progress 0 (with_error_message None p)) =
  with_status PENDING (with_progress 0 (with_error_message None q)).

(** The result of a call of [execute_deployment] that finds no plan. *)
Definition not_found (self : DeploymentAutomation) : execution :=
  {| returns := Ok false; after := self; effects := [Log Deployment_plan_not_found] |}.

(** The keys of the two registries are the names their entries carry. *)
Definition well_keyed (self : DeploymentAutomation) : Prop :=
  (forall k p, active_deployments self !! k = Some p -> plan_id p = k) /\
  (forall k f, feature_flags self !! k = Some f -> Flag.name f = k).

(** The first archived plan with the id [pid]. *)
Definition archived (pid : string) (history : list DeploymentPlan) : option DeploymentPlan :=
  List.find (fun historical_plan => String.eqb (plan_id historical_plan) pid) history.

(** [update_feature_flag(name, enabled=b)] *)
Definition set_enabled (self : DeploymentAutomation) (feature_name : string) (b : bool)
    : DeploymentAutomation :=
  snd (update_feature_flag self feature_name
         {| kw_enabled := Some b; kw_rollout_percentage := None;
            kw_target_segments := None; kw_environments := None;
            kw_flag_name := None; kw_conditions := None |}).

(** The keys of a Python dictionary are distinct; a document is well
    formed if this holds of each of its mappings. *)
Fixpoint distinct (keys : list string) : bool :=
  match keys with
  | [] => true
  | k :: keys' => negb (contains keys' k) && distinct keys'
  end.

Fixpoint well_formed (y : yaml) : bool :=
  match y with
  | YScalar _ => true
  | YList items => forallb well_formed items
  | YDict items => distinct (map fst items) && forallb (fun '(_, value) => well_formed value) items
  end.

(** The document that sets [value] at [path] and nothing else:
    [{k1: {k2: ... value}}]. *)
Fixpoint nested (path : list string) (value : yaml) : yaml :=
  match path with
  | [] => value
  | key :: path' => YDict [(key, nested path' value)]
  end.

(** Two paths part ways: at some position both have a key and the keys
    differ. *)
Fixpoint diverges (p q : list string) : bool :=
  match p, q with
  | k :: p', k' :: q' => if String.eqb k k' then diverges p' q' else true
  | _, _ => false
  end.

(** ** Executors that follow a script *)

(** The calls of a trace with their replies, oldest first. *)
Definition interactions (tr : list event) : list (call * reply) :=
  rev (omap (fun e => match e with Call c r => Some (c, r) | _ => None end) tr).

(** What makes an executor stop: a call that raised, or the validation
    call [gate] returning something false. *)
Definition stops (gate : call) (i : call * reply) : Prop :=
  match i with
  | (_, Raise _) => True
  | (c, Return v) => c = gate /\ truthy v = false
  end.

(** [runs_script script gate b new]: the calls of [new] are the calls of
    [script], in its order, up to and including the first one that
    stops the executor; the result [b] is True exactly if none did, and
    then the whole script has been run. *)
Definition runs_script (script : list call) (gate : call) (b : bool) (new : list event)
    : Prop :=
  let made := interactions new in
  if b then map fst made = script /\ Forall (fun i => ~ stops gate i) made
  else exists before last,
      made = before ++ [last] /\ stops gate last /\
      Forall (fun i => ~ stops gate i) before /\
      map fst made `prefix_of` script.

Definition blue_green_script (cfg : Config) : list call :=
  [deploy_green_environment;
   asyncio_sleep (validation_duration (blue_green cfg));
   validate_green_environment]
  ++ (if auto_promotion (blue_green cfg) then [] else [asyncio_sleep 60])
  ++ [switch_traffic_to_green; cleanup_blue_environment].

Definition rolling_script (p : DeploymentPlan) : list call :=
  map update_service_rolling (services p) ++ [validate_rolling_deployment].

Definition immediate_script (p : DeploymentPlan) : list call :=
  map update_service_immediate (services p) ++ [validate_immediate_deployment].

(** The shape the rolling and the immediate executor share. *)
Definition service_by_service (starting : log_record) (update : string -> call)
    (validate : call) (validation_failed completed : log_record)
    (failed : exn -> log_record) : M bool :=
  (log starting ;;
   try_except
     (set_progress 20 ;;
      let* p := get_plan in
      for_each (services p) (fun service =>
        extern (update service) ;;
        add_progress_share) ;;
      set_progress 90 ;;
      let* valid := extern validate in
      if negb (truthy valid) then
        log validation_failed ;; ret false
      else
        set_progress 100 ;;
        log completed ;;
        ret true)
     (fun e => log (failed e) ;; ret false))%py.

(** The progress values that [k] rounds of [progress_percentage += share]
    assign from [start] on, newest first. *)
Fixpoint progress_ladder (start share : Q) (k : nat) : list Q :=
  match k with
  | O => []
  | S k' => (start + inject_Z (Z.of_nat (S k')) * share)%Q :: progress_ladder start share k'
  end.

(** The progress values a service-by-service executor assigns when [k]
    of its services have been updated, newest first: 20, one step of
    [60 / len(services)] for each of them, and, once all are updated,
    90 and, on success, 100. *)
Definition progress_steps (p : DeploymentPlan) (k : nat) (b : bool) : list Q :=
  (if b then [100%Q] else [])
  ++ (if Nat.eqb k (length (services p)) then [90%Q] else [])
  ++ progress_ladder 20 (60 / inject_Z (Z.of_nat (length (services p)))) k
  ++ [20%Q].

(** Progress values, newest first, that start at 20 or more and never go
    back on the way up to [top]. *)
Fixpoint climbs_to (top : Q) (values : list Q) : Prop :=
  match values with
  | [] => (20 <= top)%Q
  | x :: older => (x <= top)%Q /\ climbs_to x older
  end.

(** ** Rollback *)

(** Effects of the strategy-specific part of a rollback: calls to the
    cluster and the log records of the canary helpers. *)
Definition cluster_effect (e : event) : Prop :=
  match e with
  | Store _ => False
  | Call slack_post _ => False
  | Call _ _ => True
  | Log (Traffic_routed_to_canary _) => True
  | Log _ => False
  end.

(** What [_send_rollback_notification] logs after the reply [r] of the
    webhook. *)
Definition notification_log (r : reply) : log_record :=
  match r with
  | Return (PInt 200) => Rollback_notification_sent
  | Return response_status => Failed_to_send_notification response_status
  | Raise e => Notification_error e
  end.

(** The effects of [_send_rollback_notification], newest first, [r]
    being the reply of the webhook if it is called. *)
Definition notice_of (cfg : Config) (r : reply) : list event :=
  if String.eqb (slack_webhook cfg) "" then []
  else [Log (notification_log r); Call slack_post r].

(** [relays m]: [m] leaves the plan alone, has cluster effects only,
    and raises exactly what one of its calls raised. *)
Definition relays {A} (m : M A) : Prop :=
  forall w st,
    plan (snd (m w st)) = plan st /\
    exists io,
      trace (snd (m w st)) = io ++ trace st /\
      Forall cluster_effect io /\
      match fst (m w st) with
      | Ok _ => forall c e, ~ In (Call c (Raise e)) io
      | Raised e => exists c, In (Call c (Raise e)) io
      | OutOfFuel => False
      end.

(** The calls a rollback may make. *)
Definition rollback_call (c : call) : Prop :=
  match c with
  | generate_traffic_routing_manifest _ percentage => percentage = 0
  | apply_kubernetes_manifest _ | remove_canary_deployment _
  | rollback_blue_green_deployment | rollback_standard_deployment | slack_post => True
  | _ => False
  end.

Definition rollback_event (e : event) : Prop :=
  match e with
  | Call c _ => rollback_call c
  | _ => True
  end.

(** As [healthy_world], but the GitOps repository cannot be fetched. *)
Definition no_repository : World :=
  fun st c =>
    match c with
    | prepare_gitops_repo => Raise (OtherError "git pull failed")
    | _ => healthy_world st c
    end.

(** ** Metrics *)

(** A reply of the metrics provider passes a check against [threshold]
    if it is a JSON body that either has no samples to look at or whose
    first sample is a number that is not above the threshold. *)
Definition passes (threshold : Q) (r : reply) : bool :=
  match r with
  | Return (PJson d) =>
    if has_samples d then
      match prom_result d with
      | Some x :: _ => negb (float_gt x threshold)
      | _ => false
      end
    else true
  | _ => false
  end.

(** A configuration that differs from [cfg] in the two thresholds. *)
Definition with_thresholds (error_rate response_time : Q) (cfg : Config) : Config :=
  {| canary := canary cfg; blue_green := blue_green cfg;
     rollback_triggers :=
       {| error_rate_threshold := error_rate;
          response_time_threshold := response_time;
          availability_threshold := availability_threshold (rollback_triggers cfg) |};
     prometheus_url := prometheus_url cfg;
     slack_webhook := slack_webhook cfg |}.

(** ** The canary strategy as written *)

(** [f.write(manifest)] raises on a manifest that is not a string. *)
Definition write_requires_str (w : World) : Prop :=
  forall st manifest,
    (forall s, manifest <> PStr s) ->
    exists e, w st (apply_kubernetes_manifest manifest) = Raise e.

(** Effects of a run in which no canary was deployed, no traffic was
    sent to one and none was promoted. *)
Definition never_deployed (e : event) : Prop :=
  match e with
  | Log (Canary_deployed_for_service _) => False
  | Log (Traffic_routed_to_canary percentage) => percentage = 0
  | Log (Canary_traffic_increased_to _) => False
  | Log Canary_promoted_to_stable => False
  | Log Canary_deployment_completed => False
  | Log Deployment_completed_successfully => False
  | Call (generate_traffic_routing_manifest _ percentage) _ => percentage = 0
  | Call (generate_stable_manifest _) _ => False
  | _ => True
  end.

(** ** Promotion *)

(** In a trace (newest first), every removal of a canary comes right
    after the stable manifest of the same service was generated and
    applied, both calls having returned. *)
Fixpoint removal_follows_apply (tr : list event) : Prop :=
  match tr with
  | [] => True
  | Call (remove_canary_deployment service) _ :: older =>
    (exists manifest v rest,
        older = Call (apply_kubernetes_manifest manifest) (Return v)
                :: Call (generate_stable_manifest service) (Return manifest) :: rest) /\
    removal_follows_apply older
  | _ :: older => removal_follows_apply older
  end.

(** The services whose canary a trace has removed, the call having
    returned; newest first. *)
Definition removed (tr : list event) : list string :=
  omap (fun e => match e with
                 | Call (remove_canary_deployment service) (Return _) => Some service
                 | _ => None
                 end) tr.

(** ** Withdrawal *)

(** A trace in which the canary takes no traffic any more: for every
    service the routing manifest with weight 0 was generated and
    applied, and the routing was logged. *)
Definition withdrawn (svcs : list string) (tr : list event) : Prop :=
  In (Log (Traffic_routed_to_canary 0)) tr /\
  forall s, In s svcs ->
    exists manifest v,
      In (Call (generate_traffic_routing_manifest s 0) (Return manifest)) tr /\
      In (Call (apply_kubernetes_manifest manifest) (Return v)) tr.

(** In a trace (newest first), a canary is removed only once the canary
    takes no traffic any more. *)
Fixpoint removal_after_withdrawal (svcs : list string) (tr : list event) : Prop :=
  match tr with
  | [] => True
  | Call (remove_canary_deployment _) _ :: older =>
    withdrawn svcs older /\ removal_after_withdrawal svcs older
  | _ :: older => removal_after_withdrawal svcs older
  end.

Definition no_removal (e : event) : Prop :=
  match e with
  | Call (remove_canary_deployment _) _ => False
  | _ => True
  end.

(** A cluster that answers every call as [healthy_world] does, with the
    [f.write] of the class: a manifest that is not a string raises
    [TypeError].  Every validation passes in it. *)
Definition write_checking_world : World :=
  fun st c =>
    match c with
    | apply_kubernetes_manifest (PStr _) => Return PNone
    | apply_kubernetes_manifest _ => Raise (TypeError "write() argument must be str")
    | _ => healthy_world st c
    end.

(** * Effects of a run *)

Section soundness.
Context {Inv : DeploymentPlan -> Prop} {I : event -> Prop}.

Lemma sound_ret {A} (a : A) : sound Inv I (ret a).
Proof. intros w st H. split; [done|]. by exists []. Qed.

Lemma sound_raise {A} (e : exn) : sound Inv I (@raise A e).
Proof. intros w st H. split; [done|]. by exists []. Qed.

Lemma sound_out_of_fuel {A} : sound Inv I (@out_of_fuel A).
Proof. intros w st H. split; [done|]. by exists []. Qed.

Lemma sound_get_plan : sound Inv I get_plan.
Proof. intros w st H. split; [done|]. by exists []. Qed.

Lemma sound_bind {A B} (m : M A) (k : A -> M B) :
  sound Inv I m -> (forall a, sound Inv I (k a)) -> sound Inv I (bind m k).
Proof.
  intros Hm Hk w st H. unfold bind.
  destruct (Hm w st H) as (Hinv & new & Htr & Hnew).
  destruct (m w st) as [[a|e|] st1]; simpl in *; [|by eauto..].
  destruct (Hk a w st1 Hinv) as (Hinv' & new' & Htr' & Hnew').
  split; [done|]. exists (new' ++ new).
  rewrite Htr', Htr, app_assoc. split; [done|]. by apply Forall_app_2.
Qed.

Lemma sound_try {A} (m : M A) (h : exn -> M A) :
  sound Inv I m -> (forall e, sound Inv I (h e)) -> sound Inv I (try_except m h).
Proof.
  intros Hm Hh w st H. unfold try_except.
  destruct (Hm w st H) as (Hinv & new & Htr & Hnew).
  destruct (m w st) as [[a|e|] st1]; simpl in *; [by eauto| |by eauto].
  destruct (Hh e w st1 Hinv) as (Hinv' & new' & Htr' & Hnew').
  split; [done|]. exists (new' ++ new).
  rewrite Htr', Htr, app_assoc. split; [done|]. by apply Forall_app_2.
Qed.

Lemma sound_log (l : log_record) : I (Log l) -> sound Inv I (log l).
Proof. intros Hl w st H. split; [done|]. exists [Log l]. by repeat constructor. Qed.

Lemma sound_extern (c : call) : (forall r, I (Call c r)) -> sound Inv I (extern c).
Proof.
  intros Hc w st H. unfold extern.
  destruct (w st c) eqn:Hr; simpl; (split; [done|]);
    eexists [_]; (split; [reflexivity|]); repeat constructor; apply Hc.
Qed.

Lemma sound_assign (f : DeploymentPlan -> DeploymentPlan) :
  (forall p, Inv p -> Inv (f p) /\ I (Store (f p))) -> sound Inv I (assign f).
Proof.
  intros Hf w st H. destruct (Hf _ H) as [H1 H2]. split; [done|].
  exists [Store (f (plan st))]. by repeat constructor.
Qed.

Lemma sound_for_each {A} (xs : list A) (body : A -> M unit) :
  (forall x, sound Inv I (body x)) -> sound Inv I (for_each xs body).
Proof.
  intros Hb. induction xs as [|x xs IH]; simpl.
  - apply sound_ret.
  - apply sound_bind; [apply Hb|]. intros _. apply IH.
Qed.
End soundness.

(** One step of a soundness proof by the structure of the program. *)
Ltac sound_step :=
  first
    [ apply sound_ret | apply sound_raise | apply sound_out_of_fuel | apply sound_get_plan
    | apply sound_bind; [|intros ?]
    | apply sound_try; [|intros ?]
    | apply sound_for_each; intros ?
    | apply sound_log
    | apply sound_extern; intros ?
    | apply sound_assign; intros ? ?
    | assumption
    | match goal with
      | |- sound _ _ (if ?b then _ else _) => destruct b
      | |- sound _ _ (match ?x with _ => _ end) => destruct x
      end ].

Ltac unfold_methods :=
  unfold _execute_rollback, _send_rollback_notification, _rollback_canary_deployment,
    _promote_canary_to_stable, _validate_canary_metrics, _route_traffic_to_canary,
    _deploy_canary_version, _apply_kubernetes_manifest, _prepare_gitops_repo,
    _execute_blue_green_deployment, _execute_rolling_deployment,
    _execute_immediate_deployment, add_progress_share,
    json_of, first_value, set_progress, set_status, set_error_message.

Ltac sound_auto leaf := unfold_methods; repeat sound_step; leaf.

(** The I/O helpers are quiet and leave the plan alone. *)
Ltac quiet_leaf := try (cbn; tauto); try (intros; subst; cbn; tauto).

Lemma quiet_prepare p0 : sound (eq p0) quiet _prepare_gitops_repo.
Proof. sound_auto quiet_leaf. Qed.

Lemma quiet_deploy p0 : sound (eq p0) quiet _deploy_canary_version.
Proof. sound_auto quiet_leaf. Qed.

Lemma quiet_validate cfg p0 : sound (eq p0) quiet (_validate_canary_metrics cfg).
Proof. sound_auto quiet_leaf. Qed.

Lemma quiet_promote p0 : sound (eq p0) quiet _promote_canary_to_stable.
Proof. sound_auto quiet_leaf. Qed.

Lemma quiet_route_loop p0 percentage (svcs : list string) :
  sound (eq p0) quiet
    (for_each svcs (fun service =>
       let* traffic_manifest := extern (generate_traffic_routing_manifest service percentage) in
       _apply_kubernetes_manifest traffic_manifest)).
Proof. sound_auto quiet_leaf. Qed.


Lemma sound_run {A} Inv I (m : M A) w st r st' :
  sound Inv I m -> m w st = (r, st') -> Inv (plan st) ->
  Inv (plan st') /\ exists new, trace st' = new ++ trace st /\ Forall I new.
Proof. intros Hm Hrun H. specialize (Hm w st H). by rewrite Hrun in Hm. Qed.

#[local] Arguments bind : simpl never.
#[local] Arguments try_except : simpl never.
#[local] Arguments for_each : simpl never.
#[local] Arguments extern : simpl never.

(** Unfold the sequencing at the head of a run [H : prog w st = (r, st')]
    and run the steps that touch only the state. *)
Ltac step H :=
  unfold bind at 1 in H;
  cbn [ret raise out_of_fuel get_plan log emit assign set_progress set_status
       set_error_message plan trace] in H.
Lemma route_shape percentage w st r st' :
  _route_traffic_to_canary percentage w st = (r, st') ->
  plan st' = plan st /\
  exists io, Forall quiet io /\
    ((r = Ok tt /\ trace st' = Log (Traffic_routed_to_canary percentage) :: io ++ trace st)
     \/ ((forall x, r <> Ok x) /\ trace st' = io ++ trace st)).
Proof.
  unfold _route_traffic_to_canary. intros H. step H. step H.
  destruct (for_each _ _ w st) as [[[]|e|] st1] eqn:Hloop.
  all: destruct (sound_run _ _ _ _ _ _ _
                   (quiet_route_loop (plan st) percentage (services (plan st))) Hloop eq_refl)
        as (Hp & io & Htr & Hio).
  all: cbn in H; injection H as <- <-; cbn; split; [done|]; exists io; split; [done|].
  - left. by rewrite Htr.
  - right. split; [intros x; discriminate|done].
  - right. split; [intros x; discriminate|done].
Qed.
Lemma quiet_extern p0 c :
  (forall r, quiet (Call c r)) -> sound (eq p0) quiet (extern c).
Proof. intros H. by apply sound_extern. Qed.

Lemma same_but_progress_refl p : same_but_progress p p.
Proof. reflexivity. Qed.

Lemma same_but_progress_set p q x :
  same_but_progress p q -> same_but_progress p (with_progress x q).
Proof. unfold same_but_progress. intros ->. reflexivity. Qed.

Lemma ramp_run cfg fuel :
  forall t inc wt w st r st',
    canary_ramp cfg fuel t inc wt w st = (r, st') ->
    same_but_progress (plan st) (plan st') /\
    exists evs, trace st' = evs ++ trace st /\ ramp_events inc t r evs.
Proof.
  induction fuel as [|fuel IH]; intros t inc wt w st r st' H; cbn [canary_ramp] in H;
    destruct (Z.ltb_spec t 100) as [Hlt|Hge].
  - injection H as <- <-. split; [done|]. exists []. split; [done|].
    by apply ramp_aborted.
  - injection H as <- <-. split; [done|]. exists []. split; [done|]. by apply ramp_done.
  - step H.
    destruct (extern _ w st) as [[v|e|] st1] eqn:E1;
      destruct (sound_run _ _ _ _ _ _ _ (quiet_extern (plan st) (asyncio_sleep wt) (fun _ => I))
                  E1 eq_refl) as (Hp1 & io1 & Htr1 & Hio1).
    2,3: injection H as <- <-; (split; [by rewrite <- Hp1|]); exists io1; (split; [done|]);
         by apply ramp_aborted.
    step H.
    destruct (_validate_canary_metrics cfg w st1) as [[healthy|e|] st2] eqn:E2;
      destruct (sound_run _ _ _ _ _ _ _ (quiet_validate cfg (plan st1)) E2 eq_refl)
        as (Hp2 & io2 & Htr2 & Hio2).
    2,3: injection H as <- <-; (split; [by rewrite <- Hp2, <- Hp1|]); exists (io2 ++ io1);
         (split; [by rewrite Htr2, Htr1, app_assoc|]);
         apply ramp_aborted; [done|by apply Forall_app_2|done].
    destruct healthy; cbn [negb] in H.
    2: { step H. injection H as <- <-. cbn. split; [by rewrite <- Hp2, <- Hp1|].
         exists (Log Canary_metrics_validation_failed :: io2 ++ io1).
         split; [by rewrite Htr2, Htr1, app_assoc|].
         apply ramp_unhealthy; [done|by apply Forall_app_2]. }
    step H.
    destruct (_route_traffic_to_canary _ w st2) as [r3 st3] eqn:E3.
    destruct (route_shape _ _ _ _ _ E3) as (Hp3 & io3 & Hio3 & [[-> Htr3]|[Hr3 Htr3]]).
    2: { destruct r3 as [x|e|]; [by destruct (Hr3 x)|..];
         injection H as <- <-; (split; [by rewrite Hp3, <- Hp2, <- Hp1|]);
         exists (io3 ++ io2 ++ io1);
         (split; [by rewrite Htr3, Htr2, Htr1, !app_assoc|]);
         (apply ramp_aborted; [done|by repeat (apply Forall_app_2; [assumption|])|done]). }
    step H. step H.
    apply IH in H as (Hp4 & rest & Htr4 & Hrest). cbn in Hp4, Htr4.
    split.
    { unfold same_but_progress in *. rewrite <- Hp4. cbn. rewrite Hp3, <- Hp2, <- Hp1. done. }
    eexists. split.
    { rewrite Htr4, Htr3, Htr2, Htr1.
      instantiate (1 := rest ++ _ :: _ :: _ :: (io3 ++ io2 ++ io1)).
      rewrite <- !app_assoc. cbn. rewrite <- !app_assoc. reflexivity. }
    apply ramp_cycle; [done|by repeat (apply Forall_app_2; [assumption|])|done|done].
  - injection H as <- <-. split; [done|]. exists []. split; [done|]. by apply ramp_done.
Qed.
Section termination.
Lemma terminates_ret {A} (a : A) : terminates (ret a).
Proof. intros w st. done. Qed.

Lemma terminates_raise {A} (e : exn) : terminates (@raise A e).
Proof. intros w st. done. Qed.

Lemma terminates_get_plan : terminates get_plan.
Proof. intros w st. done. Qed.

Lemma terminates_log l : terminates (log l).
Proof. intros w st. done. Qed.

Lemma terminates_assign f : terminates (assign f).
Proof. intros w st. done. Qed.

Lemma terminates_extern c : terminates (extern c).
Proof. intros w st. unfold extern. by destruct (w st c). Qed.

Lemma terminates_bind {A B} (m : M A) (k : A -> M B) :
  terminates m -> (forall a, terminates (k a)) -> terminates (bind m k).
Proof.
  intros Hm Hk w st. unfold bind. specialize (Hm w st).
  destruct (m w st) as [[a|e|] st1]; simpl in *; [apply Hk|done|done].
Qed.

Lemma terminates_try {A} (m : M A) (h : exn -> M A) :
  terminates m -> (forall e, terminates (h e)) -> terminates (try_except m h).
Proof.
  intros Hm Hh w st. unfold try_except. specialize (Hm w st).
  destruct (m w st) as [[a|e|] st1]; simpl in *; [done|apply Hh|done].
Qed.

Lemma terminates_for_each {A} (xs : list A) (body : A -> M unit) :
  (forall x, terminates (body x)) -> terminates (for_each xs body).
Proof.
  intros Hb. induction xs as [|x xs IH]; cbn [for_each].
  - apply terminates_ret.
  - apply terminates_bind; [apply Hb|]. intros _. apply IH.
Qed.
End termination.

Ltac terminates_step :=
  first
    [ apply terminates_ret | apply terminates_raise | apply terminates_get_plan
    | apply terminates_log | apply terminates_assign | apply terminates_extern
    | apply terminates_bind; [|intros ?]
    | apply terminates_try; [|intros ?]
    | apply terminates_for_each; intros ?
    | assumption
    | match goal with
      | |- terminates (if ?b then _ else _) => destruct b
      | |- terminates (match ?x with _ => _ end) => destruct x
      end ].

Ltac terminates_auto := unfold_methods; repeat terminates_step.

Lemma terminates_rollback cfg : terminates (_execute_rollback cfg).
Proof. terminates_auto. Qed.

Lemma terminates_prepare : terminates _prepare_gitops_repo.
Proof. terminates_auto. Qed.

Lemma terminates_blue_green cfg : terminates (_execute_blue_green_deployment cfg).
Proof. terminates_auto. Qed.

Lemma terminates_rolling cfg : terminates (_execute_rolling_deployment cfg).
Proof. terminates_auto. Qed.

Lemma terminates_immediate : terminates _execute_immediate_deployment.
Proof. terminates_auto. Qed.

Lemma terminates_run {A} (m : M A) w st st' : terminates m -> m w st <> (OutOfFuel, st').
Proof. intros Hm H. apply (Hm w st). by rewrite H. Qed.

(** The executors write nothing but the progress of the plan. *)
Ltac progress_leaf :=
  try (cbn; tauto);
  try (intros; cbn; split; by apply same_but_progress_set).

Lemma progress_only_ramp p0 cfg fuel :
  forall t inc wt,
    sound (same_but_progress p0) (progress_only p0) (canary_ramp cfg fuel t inc wt).
Proof.
  induction fuel as [|fuel IH]; intros t inc wt; cbn [canary_ramp];
    destruct (t <? 100); sound_auto progress_leaf.
  apply IH.
Qed.

Lemma progress_only_canary p0 cfg fuel :
  sound (same_but_progress p0) (progress_only p0) (_execute_canary_deployment cfg fuel).
Proof.
  unfold _execute_canary_deployment.
  pose proof (progress_only_ramp p0 cfg fuel) as Hramp.
  sound_auto progress_leaf. apply Hramp.
Qed.

Lemma progress_only_blue_green p0 cfg :
  sound (same_but_progress p0) (progress_only p0) (_execute_blue_green_deployment cfg).
Proof. sound_auto progress_leaf. Qed.

Lemma progress_only_rolling p0 cfg :
  sound (same_but_progress p0) (progress_only p0) (_execute_rolling_deployment cfg).
Proof. sound_auto progress_leaf. Qed.

Lemma progress_only_immediate p0 :
  sound (same_but_progress p0) (progress_only p0) _execute_immediate_deployment.
Proof. sound_auto progress_leaf. Qed.

(** A rollback assigns nothing after its first step and asks for no
    traffic weight but 0. *)
Ltac withdraws_leaf := try (cbn; tauto); try (intros; subst; cbn; tauto).

Lemma withdraws_rollback_canary p0 : sound (eq p0) withdraws _rollback_canary_deployment.
Proof. sound_auto withdraws_leaf. Qed.

Lemma withdraws_notification p0 cfg : sound (eq p0) withdraws (_send_rollback_notification cfg).
Proof. sound_auto withdraws_leaf. Qed.
Lemma for_each_cons {A} (x : A) (xs : list A) (body : A -> M unit) :
  for_each (x :: xs) body = (body x ;; for_each xs body).
Proof. reflexivity. Qed.

(** If no call of the routing loop raises, it returns, having generated
    and applied a manifest for every service. *)
Lemma route_loop_complete percentage (svcs : list string) : forall w st r st',
  for_each svcs (fun service =>
    let* traffic_manifest := extern (generate_traffic_routing_manifest service percentage) in
    _apply_kubernetes_manifest traffic_manifest) w st = (r, st') ->
  exists io,
    trace st' = io ++ trace st /\
    ((forall c e, c <> slack_post -> ~ In (Call c (Raise e)) io) ->
     r = Ok tt /\
     forall s, In s svcs ->
       exists m v,
         In (Call (generate_traffic_routing_manifest s percentage) (Return m)) io /\
         In (Call (apply_kubernetes_manifest m) (Return v)) io).
Proof.
  induction svcs as [|s svcs IH]; intros w st r st' H.
  - injection H as <- <-. exists []. split; [done|]. intros _. split; [done|]. intros s [].
  - rewrite for_each_cons in H. unfold _apply_kubernetes_manifest in H.
    unfold bind at 1 in H. unfold bind at 1 in H. unfold extern at 1 in H.
    destruct (w st (generate_traffic_routing_manifest s percentage)) as [m|e] eqn:Em.
    2: { injection H as <- <-. eexists [_]. split; [reflexivity|]. intros Hno.
         exfalso. eapply Hno; [|left; reflexivity]. discriminate. }
    unfold bind at 1 in H. unfold extern at 1 in H.
    match type of H with
    | context [w ?s (apply_kubernetes_manifest m)] =>
      destruct (w s (apply_kubernetes_manifest m)) as [v|e] eqn:Ev
    end.
    2: { injection H as <- <-. eexists [_; _]. split; [reflexivity|]. intros Hno.
         exfalso. eapply Hno; [|left; reflexivity]. discriminate. }
    cbn [ret plan trace] in H.
    destruct (IH _ _ _ _ H) as (io & Htr & Hio). cbn in Htr.
    exists (io ++ [Call (apply_kubernetes_manifest m) (Return v);
                   Call (generate_traffic_routing_manifest s percentage) (Return m)]).
    split; [by rewrite Htr, <- app_assoc|]. intros Hno.
    destruct Hio as [-> Hall].
    { intros c e Hc Hin. apply (Hno c e Hc). apply in_or_app. by left. }
    split; [done|]. intros s' [<-|Hs'].
    + exists m, v. split; apply in_or_app; right; cbn; auto.
    + destruct (Hall s' Hs') as (m' & v' & H1 & H2).
      exists m', v'. split; apply in_or_app; by left.
Qed.

Lemma remove_loop_complete (svcs : list string) : forall w st r st',
  for_each svcs (fun service => extern (remove_canary_deployment service) ;; ret tt) w st
    = (r, st') ->
  exists io,
    trace st' = io ++ trace st /\
    ((forall c e, c <> slack_post -> ~ In (Call c (Raise e)) io) ->
     r = Ok tt /\
     forall s, In s svcs -> exists v, In (Call (remove_canary_deployment s) (Return v)) io).
Proof.
  induction svcs as [|s svcs IH]; intros w st r st' H.
  - injection H as <- <-. exists []. split; [done|]. intros _. split; [done|]. intros s [].
  - rewrite for_each_cons in H.
    unfold bind at 1 in H. unfold bind at 1 in H. unfold extern at 1 in H.
    destruct (w st (remove_canary_deployment s)) as [v|e] eqn:Ev.
    2: { injection H as <- <-. eexists [_]. split; [reflexivity|]. intros Hno.
         exfalso. eapply Hno; [|left; reflexivity]. discriminate. }
    cbn [ret plan trace] in H.
    destruct (IH _ _ _ _ H) as (io & Htr & Hio). cbn in Htr.
    exists (io ++ [Call (remove_canary_deployment s) (Return v)]).
    split; [by rewrite Htr, <- app_assoc|]. intros Hno.
    destruct Hio as [-> Hall].
    { intros c e Hc Hin. apply (Hno c e Hc). apply in_or_app. by left. }
    split; [done|]. intros s' [<-|Hs'].
    + exists v. apply in_or_app; right; cbn; auto.
    + destruct (Hall s' Hs') as (v' & H1). exists v'. apply in_or_app; by left.
Qed.

Lemma rollback_canary_complete w st r st' :
  _rollback_canary_deployment w st = (r, st') ->
  exists io,
    trace st' = io ++ trace st /\
    ((forall c e, c <> slack_post -> ~ In (Call c (Raise e)) io) ->
     r = Ok tt /\ canary_withdrawn (plan st) io).
Proof.
  unfold _rollback_canary_deployment, _route_traffic_to_canary. intros H.
  unfold bind at 1 in H. unfold bind at 1 in H. cbn [get_plan] in H.
  unfold bind at 1 in H.
  match type of H with
  | context [for_each ?xs ?body w st] =>
    destruct (for_each xs body w st) as [r1 s1] eqn:E1;
    destruct (route_loop_complete _ _ _ _ _ _ E1) as (io1 & Htr1 & Hio1);
    assert (Hp1 : plan s1 = plan st)
      by (by destruct (sound_run _ _ _ _ _ _ _
                         (quiet_route_loop (plan st) 0 (services (plan st))) E1 eq_refl))
  end.
  destruct r1 as [[]|e|].
  2,3: injection H as <- <-; exists io1; (split; [done|]); intros Hno;
       by destruct (Hio1 Hno).
  cbn [log emit] in H. step H. rewrite Hp1 in H.
  destruct (remove_loop_complete _ _ _ _ _ H) as (io2 & Htr2 & Hio2). cbn in Htr2.
  exists (io2 ++ Log (Traffic_routed_to_canary 0) :: io1).
  split; [by rewrite Htr2, Htr1, <- app_assoc|]. intros Hno.
  destruct Hio1 as [_ Hall1].
  { intros c e Hc Hin. apply (Hno c e Hc). apply in_or_app. right. by right. }
  destruct Hio2 as [-> Hall2].
  { intros c e Hc Hin. apply (Hno c e Hc). apply in_or_app. by left. }
  split; [done|]. intros _ _. split; [apply in_or_app; right; by left|].
  intros s Hs. destruct (Hall1 s Hs) as (m & v & H1 & H2). destruct (Hall2 s Hs) as (v' & H3).
  split.
  - exists m, v. split; apply in_or_app; right; by right.
  - exists v'. apply in_or_app. by left.
Qed.

Lemma rollback_run cfg w st r st' :
  _execute_rollback cfg w st = (r, st') ->
  r = Ok tt /\
  plan st' = with_status ROLLED_BACK (plan st) /\
  exists io,
    Forall withdraws io /\
    canary_withdrawn (plan st) io /\
    trace st' = io ++ Store (with_status ROLLED_BACK (plan st)) :: Log Starting_rollback :: trace st.
Proof.
  unfold _execute_rollback. intros H. step H. step H.
  match type of H with
  | try_except ?body ?h ?w ?s = _ =>
    assert (Hs : sound (eq (plan s)) withdraws (try_except body h))
      by (pose proof (withdraws_rollback_canary (plan s));
          pose proof (withdraws_notification (plan s) cfg);
          sound_auto withdraws_leaf);
    assert (Ht : terminates body) by terminates_auto;
    destruct (sound_run _ _ _ _ _ _ _ Hs H eq_refl) as (Hp & io & Htr & Hio);
    unfold try_except in H; specialize (Ht w s);
    destruct (body w s) as [rb sb] eqn:Hb
  end.
  cbn in Hp, Htr, Ht.
  assert (Hr : r = Ok tt).
  { destruct rb as [[]|e|]; [| |done]; cbn in H; by injection H as <- _. }
  split; [done|]. split; [done|]. exists io. split; [done|]. split; [|done].
  intros Hstrat Hno.
  step Hb. cbn [strategy with_status] in Hb. rewrite Hstrat in Hb.
  unfold bind at 1 in Hb.
  match type of Hb with
  | context [_rollback_canary_deployment w ?s] =>
    destruct (_rollback_canary_deployment w s) as [r1 s1] eqn:E1;
    destruct (rollback_canary_complete _ _ _ _ E1) as (io1 & Htr1 & Hio1);
    destruct (sound_run _ _ _ _ _ _ _ (withdraws_rollback_canary (plan s)) E1 eq_refl)
      as (Hp1 & _)
  end.
  cbn in Htr1, Hp1.
  assert (Hext : exists io2, io = io2 ++ io1).
  { destruct r1 as [[]|e|].
    - match type of Hb with
      | ?m w s1 = _ =>
        assert (Hs2 : sound (eq (plan s1)) withdraws m)
          by (pose proof (withdraws_notification (plan s1) cfg);
              sound_auto withdraws_leaf);
        destruct (sound_run _ _ _ _ _ _ _ Hs2 Hb eq_refl) as (_ & io2 & Htr2 & _)
      end.
      exists io2. destruct rb as [[]|e|]; cbn in H; injection H as _ <-; cbn in *.
      + rewrite Htr2, Htr1, app_assoc in Htr. by apply app_inv_tail in Htr.
      + rewrite Htr2, Htr1 in Htr.
        change (Log (Rollback_failed e) :: io2 ++ io1 ++ ?x)
          with ((Log (Rollback_failed e) :: io2) ++ io1 ++ x) in Htr.
        rewrite app_assoc in Htr. apply app_inv_tail in Htr. exfalso.
        revert Hb. clear. intros Hb.
        unfold _send_rollback_notification in Hb.
        destruct (negb _); [|by (unfold bind in Hb; cbn in Hb)].
        unfold bind at 1, try_except in Hb.
        match type of Hb with
        | context [match ?m w s1 with _ => _ end] => destruct (m w s1) as [[[]|?|] ?]
        end; cbn in Hb; discriminate.
      + done.
    - injection Hb as <- <-. cbn in H. injection H as _ <-. cbn in Htr.
      exists [Log (Rollback_failed e)]. rewrite Htr1 in Htr.
      change (Log (Rollback_failed e) :: io1 ++ ?x)
        with (([Log (Rollback_failed e)] ++ io1) ++ x) in Htr.
      by apply app_inv_tail in Htr.
    - injection Hb as <- <-. done. }
  destruct Hext as (io2 & ->).
  destruct Hio1 as [_ Hw].
  { intros c e Hc Hin. apply (Hno c e Hc). apply in_or_app. by right. }
  destruct (Hw Hstrat) as [Hlog Hall].
  { intros c e Hc Hin. apply (Hno c e Hc). apply in_or_app. by right. }
  split; [apply in_or_app; by right|].
  intros s Hsv. destruct (Hall s Hsv) as [(m & v & H1 & H2) (v' & H3)].
  split.
  - exists m, v. split; apply in_or_app; by right.
  - exists v'. apply in_or_app; by right.
Qed.

Lemma promote_shape w st r st' :
  _promote_canary_to_stable w st = (r, st') ->
  plan st' = plan st /\
  exists io, Forall quiet io /\
    ((r = Ok tt /\ trace st' = Log Canary_promoted_to_stable :: io ++ trace st)
     \/ ((forall x, r <> Ok x) /\ trace st' = io ++ trace st)).
Proof.
  unfold _promote_canary_to_stable. intros H. step H. step H.
  match type of H with
  | match for_each ?xs ?body ?w ?s with _ => _ end = _ =>
    assert (Hs : sound (eq (plan s)) quiet (for_each xs body)) by sound_auto quiet_leaf;
    destruct (for_each xs body w s) as [[[]|e|] s1] eqn:Hloop;
    destruct (sound_run _ _ _ _ _ _ _ Hs Hloop eq_refl) as (Hp & io & Htr & Hio)
  end.
  all: cbn in H; injection H as <- <-; cbn; split; [done|]; exists io; split; [done|].
  - left. by rewrite Htr.
  - right. split; [intros x; discriminate|done].
  - right. split; [intros x; discriminate|done].
Qed.
Lemma quiet_calm l : Forall quiet l -> Forall calm l.
Proof. intros H. eapply Forall_impl; [exact H|]. intros [c r|p|[]]; cbn; tauto. Qed.

Lemma withdraws_calm l : Forall withdraws l -> Forall calm l.
Proof. intros H. eapply Forall_impl; [exact H|]. intros [c r|p|[]]; cbn; tauto. Qed.

Lemma quiet_not_failed l : Forall quiet l -> ~ In (Log Canary_metrics_validation_failed) l.
Proof.
  intros H Hin. rewrite Forall_forall in H. apply list_elem_of_In in Hin.
  exact (H _ Hin).
Qed.

Lemma calm_not_failed l : Forall calm l -> ~ In (Log Canary_metrics_validation_failed) l.
Proof.
  intros H Hin. rewrite Forall_forall in H. apply list_elem_of_In in Hin.
  exact (H _ Hin).
Qed.

(** In the ramp loop a failed validation is the last thing that happens,
    and the only way to [return]. *)
Lemma ramp_events_failed inc t r evs :
  ramp_events inc t r evs ->
  In (Log Canary_metrics_validation_failed) evs ->
  r = Ok (returned false) /\
  exists io, evs = Log Canary_metrics_validation_failed :: io /\
             ~ In (Log Canary_metrics_validation_failed) io.
Proof.
  induction 1 as [t Ht|t io Ht Hio|t io r Ht Hio Hr|t io p r rest Ht Hio Hp Hrest IH];
    intros Hin.
  - destruct Hin.
  - split; [done|]. exists io. split; [done|]. by apply quiet_not_failed.
  - by apply quiet_not_failed in Hin.
  - apply in_app_or in Hin as [Hin|Hin].
    + destruct (IH Hin) as (-> & io' & -> & Hio'). split; [done|].
      eexists. split; [reflexivity|].
      intros Hin'. apply in_app_or in Hin' as [Hin'|Hin']; [done|].
      cbn in Hin'. destruct Hin' as [?|[?|[?|Hin']]]; try discriminate.
      by apply quiet_not_failed in Hin'.
    + cbn in Hin. destruct Hin as [?|[?|[?|Hin]]]; try discriminate.
      by apply quiet_not_failed in Hin.
Qed.

Lemma ramp_events_returned inc t b evs :
  ramp_events inc t (Ok (returned b)) evs -> b = false.
Proof.
  remember (Ok (returned b)) as r eqn:Hr. induction 1; try congruence; auto.
Qed.

(** The [except] clause of the canary executor. *)
Lemma canary_handler_run e w st r st' :
  (log (Canary_deployment_failed e) ;; _rollback_canary_deployment ;; ret false) w st = (r, st') ->
  plan st' = plan st /\ r <> Ok true /\
  exists io, Forall withdraws io /\ trace st' = io ++ trace st.
Proof.
  intros H.
  match type of H with
  | ?m _ _ = _ =>
    assert (Hs : sound (eq (plan st)) withdraws m)
      by (pose proof (withdraws_rollback_canary (plan st)); sound_auto withdraws_leaf);
    destruct (sound_run _ _ _ _ _ _ _ Hs H eq_refl) as (Hp & io & Htr & Hio)
  end.
  split; [done|]. split; [|by exists io].
  step H. step H.
  destruct (_rollback_canary_deployment w _) as [[[]|e'|] s1]; cbn in H;
    injection H as <- <-; discriminate.
Qed.
Lemma Forall_calm_cons e l : calm e -> Forall calm l -> Forall calm (e :: l).
Proof. by constructor. Qed.

Ltac calm_list :=
  repeat first
    [ apply Forall_nil_2
    | apply Forall_app_2
    | apply Forall_calm_cons; [exact I|]
    | assumption
    | apply quiet_calm; assumption
    | apply withdraws_calm; assumption ].

(** Both sides are explicit lists: reassociate and compare. *)
Ltac same_trace := cbn; rewrite <- ?app_assoc; cbn; rewrite <- ?app_assoc; reflexivity.

Lemma canary_run cfg fuel w st r st' :
  _execute_canary_deployment cfg fuel w st = (r, st') ->
  let inc := traffic_increment (canary cfg) in
  let init := initial_traffic_percentage (canary cfg) in
  exists pre mid post,
    trace st' = post ++ mid ++ pre ++ trace st /\
    Forall calm pre /\ Forall calm post /\
    (mid = [] \/ exists rr, ramp_events inc init rr mid) /\
    (In (Log Canary_metrics_validation_failed) mid -> r = Ok false /\ post = []) /\
    (r = Ok true ->
     (exists t, ramp_events inc init (Ok (fell_through t)) mid) /\
     progress_percentage (plan st') = 100%Q /\
     exists older,
       post = Log Canary_deployment_completed :: Store (plan st')
              :: Log Canary_promoted_to_stable :: older).
Proof.
  unfold _execute_canary_deployment. intros H. cbv zeta. step H.
  unfold try_except in H.
  match type of H with
  | match ?body ?w ?s with _ => _ end = _ => destruct (body w s) as [rb sb] eqn:Hb
  end.
  do 2 step Hb.
  (* step 1 *)
  match type of Hb with
  | match _deploy_canary_version ?w ?s with _ => _ end = _ =>
    destruct (_deploy_canary_version w s) as [r1 s1] eqn:E1;
    destruct (sound_run _ _ _ _ _ _ _ (quiet_deploy (plan s)) E1 eq_refl)
      as (Hp1 & io1 & Htr1 & Hio1)
  end.
  cbn in Htr1, Hp1.
  pose (pre0 := io1 ++ [Store (with_progress 10 (plan st)); Log Starting_canary_deployment]).
  assert (Hpre0 : trace s1 = pre0 ++ trace st) by (rewrite Htr1; unfold pre0; same_trace).
  assert (Hcalm0 : Forall calm pre0) by (unfold pre0; calm_list).
  clearbody pre0. clear Htr1.
  destruct r1 as [[]|e|].
  2: { injection Hb as <- <-.
       destruct (canary_handler_run _ _ _ _ _ H) as (Hph & Hrh & ioh & Hioh & Htrh).
       exists pre0, [], ioh. rewrite Htrh, Hpre0.
       split; [done|]. split; [done|]. split; [calm_list|].
       split; [by left|]. split; [intros []|done]. }
  2: { injection Hb as <- <-. injection H as <- <-.
       exists pre0, [], []. rewrite Hpre0.
       split; [done|]. split; [done|]. split; [calm_list|].
       split; [by left|]. split; [intros []|done]. }
  step Hb. step Hb.
  (* step 2 *)
  match type of Hb with
  | match _route_traffic_to_canary ?pct ?w ?s with _ => _ end = _ =>
    destruct (_route_traffic_to_canary pct w s) as [r2 s2] eqn:E2;
    destruct (route_shape _ _ _ _ _ E2) as (Hp2 & io2 & Hio2 & [[-> Htr2]|[Hr2 Htr2]])
  end; cbn in Htr2, Hp2.
  2: { pose (pre1 := io2 ++ Store (with_progress 20 (plan s1)) :: pre0).
       assert (Hpre1 : trace s2 = pre1 ++ trace st)
         by (rewrite Htr2, Hpre0; unfold pre1; same_trace).
       assert (Hcalm1 : Forall calm pre1) by (unfold pre1; calm_list).
       clearbody pre1.
       destruct r2 as [x|e|]; [by destruct (Hr2 x)|..]; injection Hb as <- <-.
       - destruct (canary_handler_run _ _ _ _ _ H) as (Hph & Hrh & ioh & Hioh & Htrh).
         exists pre1, [], ioh. rewrite Htrh, Hpre1.
         split; [done|]. split; [done|]. split; [calm_list|].
         split; [by left|]. split; [intros []|done].
       - injection H as <- <-.
         exists pre1, [], []. rewrite Hpre1.
         split; [done|]. split; [done|]. split; [calm_list|].
         split; [by left|]. split; [intros []|done]. }
  pose (pre := Log (Traffic_routed_to_canary (initial_traffic_percentage (canary cfg)))
                 :: io2 ++ Store (with_progress 20 (plan s1)) :: pre0).
  assert (Hpre : trace s2 = pre ++ trace st)
    by (rewrite Htr2, Hpre0; unfold pre; same_trace).
  assert (Hcalm : Forall calm pre) by (unfold pre; calm_list).
  clearbody pre. clear Htr2 Hpre0.
  (* step 3 *)
  step Hb.
  match type of Hb with
  | match canary_ramp ?c ?f ?t ?i ?wt ?w ?s with _ => _ end = _ =>
    destruct (canary_ramp c f t i wt w s) as [r3 s3] eqn:E3;
    destruct (ramp_run _ _ _ _ _ _ _ _ _ E3) as (Hp3 & mid & Htr3 & Hmid)
  end.
  rewrite Hpre in Htr3. clear Hpre.
  assert (Hnot : In (Log Canary_metrics_validation_failed) mid -> r3 = Ok (returned false)).
  { intros Hin. by destruct (ramp_events_failed _ _ _ _ Hmid Hin) as [? _]. }
  destruct r3 as [[t|b]|e|].
  - (* the loop is over: promote *)
    step Hb. step Hb.
    match type of Hb with
    | match _promote_canary_to_stable ?w ?s with _ => _ end = _ =>
      destruct (_promote_canary_to_stable w s) as [r4 s4] eqn:E4;
      destruct (promote_shape _ _ _ _ E4) as (Hp4 & io4 & Hio4 & [[-> Htr4]|[Hr4 Htr4]])
    end; cbn in Htr4, Hp4.
    + step Hb. step Hb. injection Hb as <- <-. injection H as <- <-.
      exists pre, mid,
        (Log Canary_deployment_completed :: Store (with_progress 100 (plan s4))
           :: Log Canary_promoted_to_stable :: io4 ++ [Store (with_progress 95 (plan s3))]).
      cbn [plan trace]. rewrite Htr4, Htr3.
      split; [same_trace|]. split; [done|]. split; [calm_list|].
      split; [right; eauto|]. split; [intros Hin; by specialize (Hnot Hin)|].
      intros _. split; [eauto|]. split; [done|]. eauto.
    + pose (post := io4 ++ [Store (with_progress 95 (plan s3))]).
      assert (Hpost : trace s4 = post ++ mid ++ pre ++ trace st)
        by (rewrite Htr4, Htr3; unfold post; same_trace).
      assert (Hcalmp : Forall calm post) by (unfold post; calm_list).
      clearbody post.
      destruct r4 as [x|e|]; [by destruct (Hr4 x)|..]; injection Hb as <- <-.
      * destruct (canary_handler_run _ _ _ _ _ H) as (Hph & Hrh & ioh & Hioh & Htrh).
        exists pre, mid, (ioh ++ post). rewrite Htrh, Hpost.
        split; [same_trace|]. split; [done|]. split; [calm_list|].
        split; [right; eauto|]. split; [intros Hin; by specialize (Hnot Hin)|done].
      * injection H as <- <-.
        exists pre, mid, post.
        split; [done|]. split; [done|]. split; [done|].
        split; [right; eauto|]. split; [intros Hin; by specialize (Hnot Hin)|done].
  - (* return inside the loop *)
    injection Hb as <- <-. injection H as <- <-.
    pose proof (ramp_events_returned _ _ _ _ Hmid) as ->.
    exists pre, mid, []. split; [done|]. split; [done|]. split; [calm_list|].
    split; [right; eauto|]. split; [done|done].
  - (* the loop raised *)
    injection Hb as <- <-.
    destruct (canary_handler_run _ _ _ _ _ H) as (Hph & Hrh & ioh & Hioh & Htrh).
    exists pre, mid, ioh. rewrite Htrh, Htr3.
    split; [done|]. split; [done|]. split; [calm_list|].
    split; [right; eauto|]. split; [intros Hin; by specialize (Hnot Hin)|done].
  - (* out of fuel *)
    injection Hb as <- <-. injection H as <- <-.
    exists pre, mid, []. split; [done|]. split; [done|]. split; [calm_list|].
    split; [right; eauto|]. split; [intros Hin; by specialize (Hnot Hin)|done].
Qed.
Lemma ends_bind {A} (m : M A) (k : A -> M bool) :
  (forall a, ends_at_100 (k a)) -> ends_at_100 (bind m k).
Proof.
  intros Hk w st. unfold bind. destruct (m w st) as [[a|e|] s1]; cbn; try done. apply Hk.
Qed.

Lemma ends_try (m : M bool) (h : exn -> M bool) :
  ends_at_100 m -> (forall e, ends_at_100 (h e)) -> ends_at_100 (try_except m h).
Proof.
  intros Hm Hh w st. unfold try_except. specialize (Hm w st).
  destruct (m w st) as [[a|e|] s1]; cbn in *; try done. apply Hh.
Qed.

Lemma ends_ret_false : ends_at_100 (ret false).
Proof. intros w st. discriminate. Qed.

Lemma ends_final l : ends_at_100 (set_progress 100 ;; log l ;; ret true).
Proof. intros w st _. reflexivity. Qed.

Ltac ends_auto :=
  unfold_methods;
  repeat first
    [ apply ends_final | apply ends_ret_false
    | apply ends_try; [|intros ?]
    | apply ends_bind; intros ?
    | match goal with
      | |- ends_at_100 (if ?b then _ else _) => destruct b
      end ].

Lemma ends_blue_green cfg : ends_at_100 (_execute_blue_green_deployment cfg).
Proof. ends_auto. Qed.

Lemma ends_rolling cfg : ends_at_100 (_execute_rolling_deployment cfg).
Proof. ends_auto. Qed.

Lemma ends_immediate : ends_at_100 _execute_immediate_deployment.
Proof. ends_auto. Qed.

Lemma ends_canary cfg fuel : ends_at_100 (_execute_canary_deployment cfg fuel).
Proof.
  intros w st Hr.
  destruct (_execute_canary_deployment cfg fuel w st) as [r st'] eqn:H. cbn in *.
  destruct (canary_run _ _ _ _ _ _ H) as (pre & mid & post & _ & _ & _ & _ & _ & Htrue).
  by destruct (Htrue Hr) as (_ & Hp & _).
Qed.

(** The strategy dispatch of [execute_deployment]. *)
Lemma executor_run cfg fuel w st r st' :
  match strategy (plan st) with
  | CANARY => _execute_canary_deployment cfg fuel
  | BLUE_GREEN => _execute_blue_green_deployment cfg
  | ROLLING_UPDATE => _execute_rolling_deployment cfg
  | IMMEDIATE => _execute_immediate_deployment
  end w st = (r, st') ->
  same_but_progress (plan st) (plan st') /\
  (exists new, trace st' = new ++ trace st /\ Forall (progress_only (plan st)) new) /\
  (r = Ok true -> progress_percentage (plan st') = 100%Q) /\
  (r = OutOfFuel -> strategy (plan st) = CANARY).
Proof.
  intros H.
  assert (Hs : sound (same_but_progress (plan st)) (progress_only (plan st))
                 match strategy (plan st) with
                 | CANARY => _execute_canary_deployment cfg fuel
                 | BLUE_GREEN => _execute_blue_green_deployment cfg
                 | ROLLING_UPDATE => _execute_rolling_deployment cfg
                 | IMMEDIATE => _execute_immediate_deployment
                 end).
  { destruct (strategy (plan st));
      [apply progress_only_rolling|apply progress_only_blue_green
      |apply progress_only_canary|apply progress_only_immediate]. }
  destruct (sound_run _ _ _ _ _ _ _ Hs H (same_but_progress_refl _)) as [Hp Hnew].
  split; [done|]. split; [done|]. split.
  - intros ->.
    assert (He : ends_at_100
                   match strategy (plan st) with
                   | CANARY => _execute_canary_deployment cfg fuel
                   | BLUE_GREEN => _execute_blue_green_deployment cfg
                   | ROLLING_UPDATE => _execute_rolling_deployment cfg
                   | IMMEDIATE => _execute_immediate_deployment
                   end).
    { destruct (strategy (plan st));
        [apply ends_rolling|apply ends_blue_green|apply ends_canary|apply ends_immediate]. }
    specialize (He w st). rewrite H in He. by apply He.
  - intros ->. destruct (strategy (plan st)); try done; exfalso.
    + by apply (terminates_run _ _ _ _ (terminates_rolling cfg)) in H.
    + by apply (terminates_run _ _ _ _ (terminates_blue_green cfg)) in H.
    + by apply (terminates_run _ _ _ _ terminates_immediate) in H.
Qed.
Lemma quiet_progress_only p l : Forall quiet l -> Forall (progress_only p) l.
Proof. intros H. eapply Forall_impl; [exact H|]. intros [c r|q|l0]; cbn; tauto. Qed.

(** The [except] clause of [execute_deployment]. *)
Lemma failure_handler_run cfg e w st r st' :
  (set_status FAILED ;;
   set_error_message (str e) ;;
   log (Deployment_error e) ;;
   let* p := get_plan in
   if rollback_on_failure p then _execute_rollback cfg else ret tt) w st = (r, st') ->
  r = Ok tt /\
  exists tail, trace st' = tail ++ trace st /\ concluded (plan st) (Raised e) tail (plan st').
Proof.
  intros H. do 4 step H. cbn [rollback_on_failure with_error_message with_status] in H.
  destruct (rollback_on_failure (plan st)) eqn:Hrb.
  - destruct (rollback_run _ _ _ _ _ H) as (-> & Hp & io & Hio & Hw & Htr).
    cbn in Hp, Htr, Hw.
    split; [done|].
    exists (io ++ [Store (with_status ROLLED_BACK
                           (with_error_message (Some (str e)) (with_status FAILED (plan st))));
                   Log Starting_rollback;
                   Log (Deployment_error e);
                   Store (with_error_message (Some (str e)) (with_status FAILED (plan st)));
                   Store (with_status FAILED (plan st))]).
    split; [|rewrite Hp; by apply concluded_error_rolled_back].
    rewrite Htr. by rewrite <- app_assoc.
  - injection H as <- <-. split; [done|]. eexists. split; [|by apply concluded_error].
    reflexivity.
Qed.

(** The stages of the [try] statement of [execute_deployment]: the
    repository is prepared, the executor of the plan's strategy runs, and
    the outcome is recorded. *)
Lemma execute_body_stages cfg fuel w st r st' :
  execute_body cfg fuel w st = (r, st') ->
  exists r1 s1 io1,
    _prepare_gitops_repo w st = (r1, s1) /\
    plan s1 = plan st /\ trace s1 = io1 ++ trace st /\ Forall quiet io1 /\
    ((exists e tail,
        r1 = Raised e /\ r = Ok tt /\
        trace st' = tail ++ trace s1 /\ concluded (plan s1) (Raised e) tail (plan st'))
     \/
     (exists r2 s2,
        r1 = Ok tt /\
        match strategy (plan s1) with
        | CANARY => _execute_canary_deployment cfg fuel
        | BLUE_GREEN => _execute_blue_green_deployment cfg
        | ROLLING_UPDATE => _execute_rolling_deployment cfg
        | IMMEDIATE => _execute_immediate_deployment
        end w s1 = (r2, s2) /\
        ((r2 = OutOfFuel /\ r = OutOfFuel /\ st' = s2)
         \/
         (exists tail,
            r = Ok tt /\ trace st' = tail ++ trace s2 /\
            concluded (plan s2) r2 tail (plan st'))))).
Proof.
  unfold execute_body, try_except. intros H.
  match type of H with
  | match ?body ?w ?s with _ => _ end = _ => destruct (body w s) as [rb sb] eqn:Hb
  end.
  step Hb.
  destruct (_prepare_gitops_repo w st) as [r1 s1] eqn:E1.
  destruct (sound_run _ _ _ _ _ _ _ (quiet_prepare (plan st)) E1 eq_refl)
    as (Hp1 & io1 & Htr1 & Hio1).
  exists r1, s1, io1. split; [done|]. split; [done|]. split; [done|]. split; [done|].
  destruct r1 as [[]|e|].
  2: { injection Hb as <- <-.
       destruct (failure_handler_run _ _ _ _ _ _ H) as (-> & tail & Htr & Hc).
       left. by exists e, tail. }
  2: { by apply (terminates_run _ _ _ _ terminates_prepare) in E1. }
  do 2 step Hb.
  match type of Hb with
  | match ?m ?w ?s with _ => _ end = _ => destruct (m w s) as [r2 s2] eqn:E2
  end.
  right. exists r2, s2. split; [done|]. split; [done|].
  destruct r2 as [[]|e|].
  - (* success *)
    do 2 step Hb. cbn in Hb. injection Hb as <- <-. injection H as <- <-.
    right. eexists. split; [done|]. split; [|apply concluded_completed]. reflexivity.
  - (* the executor returned False *)
    do 3 step Hb. cbn [rollback_on_failure with_status] in Hb.
    destruct (rollback_on_failure (plan s2)) eqn:Hrb.
    + destruct (rollback_run _ _ _ _ _ Hb) as (-> & Hp & io & Hio & Hw & Htr).
      cbn in Hp, Htr, Hw.
      injection H as <- <-.
      right. exists (io ++ [Store (with_status ROLLED_BACK (with_status FAILED (plan s2)));
                            Log Starting_rollback; Log Deployment_failed;
                            Store (with_status FAILED (plan s2))]).
      split; [done|]. split; [|rewrite Hp; by apply concluded_rolled_back].
      rewrite Htr. by rewrite <- app_assoc.
    + injection Hb as <- <-. injection H as <- <-.
      right. eexists. split; [done|]. split; [|by apply concluded_failed]. reflexivity.
  - (* the executor raised *)
    injection Hb as <- <-.
    destruct (failure_handler_run _ _ _ _ _ _ H) as (-> & tail & Htr & Hc).
    right. by exists tail.
  - (* out of fuel *)
    injection Hb as <- <-. injection H as <- <-. by left.
Qed.

Lemma execute_body_run cfg fuel w st r st' :
  execute_body cfg fuel w st = (r, st') ->
  exists ex,
    Forall (progress_only (plan st)) ex /\
    ((r = OutOfFuel /\ trace st' = ex ++ trace st /\
      same_but_progress (plan st) (plan st') /\ strategy (plan st) = CANARY)
     \/
     (r = Ok tt /\
      exists tail p rex,
        trace st' = tail ++ ex ++ trace st /\
        same_but_progress (plan st) p /\
        concluded p rex tail (plan st') /\
        (rex = Ok true -> progress_percentage p = 100%Q))).
Proof.
  intros H.
  destruct (execute_body_stages _ _ _ _ _ _ H)
    as (r1 & s1 & io1 & E1 & Hp1 & Htr1 & Hio1 & Hcases).
  apply (quiet_progress_only (plan st)) in Hio1.
  destruct Hcases as [(e & tail & -> & -> & Htr & Hc)|(r2 & s2 & -> & E2 & Hcases)].
  - exists io1. split; [done|]. right. split; [done|].
    exists tail, (plan s1), (Raised e). rewrite Htr, Htr1.
    split; [done|]. split; [by rewrite Hp1|]. split; [done|done].
  - destruct (executor_run _ _ _ _ _ _ E2) as (Hp2 & (ex & Htr2 & Hex) & H100 & Hfuel).
    rewrite Hp1 in Hex, Hp2, Hfuel.
    exists (ex ++ io1). split; [by apply Forall_app_2|].
    destruct Hcases as [(-> & -> & ->)|(tail & -> & Htr & Hc)].
    + left. rewrite Htr2, Htr1. split; [done|]. split; [by rewrite <- !app_assoc|].
      split; [done|]. by apply Hfuel.
    + right. split; [done|]. exists tail, (plan s2), r2.
      rewrite Htr, Htr2, Htr1.
      split; [by rewrite <- !app_assoc|]. split; [done|]. split; [done|]. exact H100.
Qed.

(** * Plan execution *)

Lemma execute_deployment_run self pid w fuel plan0 :
  active_deployments self !! pid = Some plan0 ->
  let run := execute_deployment self pid w fuel in
  let p1 := with_status IN_PROGRESS plan0 in
  exists ex,
    Forall (progress_only p1) ex /\
    ((returns run = OutOfFuel /\
      effects run = ex ++ [Store p1; Log Starting_deployment] /\
      after run = self /\ strategy plan0 = CANARY)
     \/
     (exists tail p rex final,
        effects run = tail ++ ex ++ [Store p1; Log Starting_deployment] /\
        same_but_progress p1 p /\
        concluded p rex tail final /\
        (rex = Ok true -> progress_percentage p = 100%Q) /\
        returns run = Ok (status_eqb (status final) COMPLETED) /\
        after run =
          {| config := config self;
             active_deployments := delete pid (active_deployments self);
             deployment_history := deployment_history self ++ [final];
             feature_flags := feature_flags self |})).
Proof.
  intros Hplan. cbv zeta. unfold execute_deployment. rewrite Hplan.
  match goal with
  | |- context [let '(r, st) := ?m ?w ?s in _] => destruct (m w s) as [r st] eqn:H
  end.
  do 2 step H.
  destruct (execute_body_run _ _ _ _ _ _ H) as (ex & Hex & Hcases). cbn in Hex, Hcases.
  exists ex. split; [done|].
  destruct Hcases as [(-> & Htr & Hp & Hs)|(-> & tail & p & rex & Htr & Hp & Hc & H100)].
  - left. cbn. by rewrite Htr.
  - right. exists tail, p, rex, (plan st). cbn. by rewrite Htr.
Qed.
Lemma stores_app l1 l2 : stores (l1 ++ l2) = stores l1 ++ stores l2.
Proof. apply omap_app. Qed.

Lemma stores_In q l : In (Store q) l -> In q (stores l).
Proof.
  intros H. apply list_elem_of_In. apply list_elem_of_omap.
  exists (Store q). split; [by apply list_elem_of_In|done].
Qed.

Lemma stores_withdraws io : Forall withdraws io -> stores io = [].
Proof.
  induction 1 as [|e io He _ IH]; [done|].
  destruct e as [c r|p|l]; cbn in *; try done.
Qed.

Lemma stores_progress_only p1 ex :
  Forall (progress_only p1) ex -> Forall (same_but_progress p1) (stores ex).
Proof.
  induction 1 as [|e ex He _ IH]; [constructor|].
  destruct e as [c r|p|l]; cbn in *; try done. by constructor.
Qed.

Lemma same_but_progress_status p q : same_but_progress p q -> status q = status p.
Proof. unfold same_but_progress. intros H. by injection H. Qed.

Lemma settles_in_progress p q : status p = IN_PROGRESS -> settles p q.
Proof. intros H. split; [intros [?|?]|intros ?]; congruence. Qed.

Lemma settled_in_progress l : Forall (fun p => status p = IN_PROGRESS) l -> settled l.
Proof.
  induction 1 as [|p l Hp Hl IH]; [done|]. split; [|done].
  eapply Forall_impl; [exact Hl|]. intros p' Hp'. by apply settles_in_progress.
Qed.

Lemma settled_split l : forall later p earlier q,
  settled l -> l = later ++ p :: earlier -> In q later -> settles p q.
Proof.
  induction l as [|x l IH]; intros later p earlier q Hs Heq Hin.
  - by destruct later.
  - destruct later as [|y later]; [destruct Hin|]. injection Heq as <- ->.
    destruct Hs as [Hx Hl]. destruct Hin as [<-|Hin].
    + rewrite Forall_forall in Hx. apply Hx. apply list_elem_of_In, in_elt.
    + by eapply IH.
Qed.

Lemma with_progress_same p : with_progress (progress_percentage p) p = p.
Proof. by destruct p. Qed.

Lemma concluded_settled p rex tail final older :
  concluded p rex tail final ->
  status p = IN_PROGRESS ->
  (rex = Ok true -> progress_percentage p = 100%Q) ->
  Forall (fun p' => status p' = IN_PROGRESS) older ->
  settled (stores tail ++ older).
Proof.
  intros Hc Hp H100 Holder.
  assert (Hno : forall q, Forall (fun p' => settles p' q) older).
  { intros q. eapply Forall_impl; [exact Holder|]. intros p' Hp'.
    by apply settles_in_progress. }
  pose proof (settled_in_progress _ Holder) as Hs.
  destruct Hc as [| |io Hrb Hio _| |e io Hrb Hio _];
    rewrite ?stores_app, ?(stores_withdraws _ Hio); cbn.
  - rewrite <- (H100 eq_refl). repeat split; try done.
    constructor; [|done]. split; [intros _|cbn; discriminate].
    by destruct p.
  - by repeat split.
  - repeat split; try done. constructor; [|done]. split; [cbn; intros [?|?]; discriminate|].
    intros _. cbn. split; [done|]. right. by split.
  - repeat split; try done. constructor; [|done]. split; [cbn; intros [?|?]; discriminate|].
    intros _. cbn. split; [done|]. by left.
  - repeat split; try done.
    + constructor; [|constructor; [|done]];
        (split; [cbn; intros [?|?]; discriminate|]); intros _; cbn; (split; [done|]);
        right; by split.
    + constructor; [|done]. split; [cbn; intros [?|?]; discriminate|].
      intros _. cbn. split; [done|]. by left.
Qed.

(** C2, as stated, fails: [execute_deployment] sets FAILED and then, when
    [rollback_on_failure] is set, [_execute_rollback] overwrites it with
    ROLLED_BACK. *)
Lemma failed_becomes_rolled_back : ~ terminal_state_invariant.
Proof.
  intros H.
  pose (p := pending_plan ROLLING_UPDATE ["video-processor"] true).
  assert (Hrun : exists later q earlier,
             effects (execute_deployment (instance_with p) (plan_id p) as_written 0) =
               later ++ Store (with_status FAILED (with_progress 20 (with_status IN_PROGRESS p)))
                     :: earlier /\
             In (Store q) later /\ status q = ROLLED_BACK).
  { eexists [_; _; _; _; _], _, _. split; [vm_compute; reflexivity|].
    split; [right; right; left; reflexivity|reflexivity]. }
  destruct Hrun as (later & q & earlier & Heq & Hin & Hq).
  specialize (H _ _ _ _ _ _ _ q Heq (or_intror (or_introl eq_refl)) Hin).
  rewrite H in Hq. discriminate Hq.
Qed.

(** C2 (amended): in the effects of [execute_deployment], once an
    assignment has left the plan COMPLETED or ROLLED_BACK, every later
    assignment leaves it exactly as it was; once it has left the plan
    FAILED, later assignments change at most its error message and its
    status, and the status only to ROLLED_BACK and only for a plan with
    [rollback_on_failure]. *)
Theorem terminal_states_settle self plan_id w fuel later p earlier q :
  effects (execute_deployment self plan_id w fuel) = later ++ Store p :: earlier ->
  In (Store q) later ->
  (status p = COMPLETED \/ status p = ROLLED_BACK -> q = p) /\
  (status p = FAILED ->
   with_status FAILED (with_error_message None q) = with_error_message None p /\
   (status q = FAILED \/ status q = ROLLED_BACK /\ rollback_on_failure p = true)).
Proof.
  intros Heq Hin.
  destruct (active_deployments self !! plan_id) as [plan0|] eqn:Hplan.
  2: { unfold execute_deployment in Heq. rewrite Hplan in Heq. cbn in Heq.
       destruct later as [|? [|? ?]]; discriminate. }
  change (settles p q). apply stores_In in Hin.
  apply (f_equal stores) in Heq. rewrite stores_app in Heq. cbn in Heq.
  eapply settled_split; [|exact Heq|exact Hin].
  destruct (execute_deployment_run self plan_id w fuel plan0 Hplan)
    as (ex & Hex & [(_ & -> & _)|(tail & p' & rex & final & -> & Hp' & Hc & H100 & _)]);
    apply stores_progress_only in Hex.
  - rewrite stores_app. cbn. apply settled_in_progress. apply Forall_app. split.
    + eapply Forall_impl; [exact Hex|]. intros x Hx. by apply same_but_progress_status in Hx.
    + by repeat constructor.
  - rewrite stores_app. eapply concluded_settled; [exact Hc| |exact H100|].
    + by apply same_but_progress_status in Hp'.
    + rewrite stores_app. cbn. apply Forall_app. split.
      * eapply Forall_impl; [exact Hex|]. intros x Hx.
        by apply same_but_progress_status in Hx.
      * by repeat constructor.
Qed.
(** * Feature flags: rollout, determinism, bucketing, update *)

Section flag_evaluation.
Variable hash : string -> Z.

Lemma bucket_range u : 0 <= hash u mod 100 < 100.
Proof. apply Z.mod_pos_bound. lia. Qed.

(** Unfolding of a call on a flag that is present. *)
Lemma is_feature_enabled_found self randint feature_name user_id user_segment environment flag :
  feature_flags self !! feature_name = Some flag ->
  is_feature_enabled self hash randint feature_name user_id user_segment environment =
    if match given environment with
       | Some e => negb (contains (Flag.environments flag) e)
       | None => false
       end
    then false
    else if match given user_segment with
            | Some s => negb (contains (Flag.target_segments flag) s)
                        && negb (contains (Flag.target_segments flag) "all")
            | None => false
            end
    then false
    else if Flag.rollout_percentage flag <? 100 then
      match given user_id with
      | Some u => hash u mod 100 <? Flag.rollout_percentage flag
      | None => randint <? Flag.rollout_percentage flag
      end
    else Flag.enabled flag.
Proof. intros H. unfold is_feature_enabled. rewrite H. reflexivity. Qed.

Lemma set_rollout_lookup self feature_name p flag :
  feature_flags self !! feature_name = Some flag ->
  feature_flags (set_rollout self feature_name p) !! feature_name =
    Some {| Flag.name := Flag.name flag; Flag.enabled := Flag.enabled flag;
            Flag.rollout_percentage := p;
            Flag.target_segments := Flag.target_segments flag;
            Flag.environments := Flag.environments flag;
            Flag.conditions := Flag.conditions flag |}.
Proof.
  intros H. unfold set_rollout, update_feature_flag. rewrite H. simpl.
  apply lookup_insert_eq.
Qed.

Lemma set_rollout_missing self feature_name p :
  feature_flags self !! feature_name = None ->
  set_rollout self feature_name p = self.
Proof. intros H. unfold set_rollout, update_feature_flag. rewrite H. reflexivity. Qed.
End flag_evaluation.

(** C3, as stated, fails: with [enabled = False] a user in the 50% bucket
    range is enabled at 50 and disabled at 100, where the code stops
    bucketing and returns [flag.enabled]. *)
Lemma monotonic_rollout_fails_at_100 : ~ monotonic_rollout_up_to_100.
Proof.
  intros H.
  specialize (H fresh_instance length_hash 0 "enhanced_video_processing" "u1"
                None None 50 100 eq_refl).
  assert (Hp : 50 < 100 <= 100) by lia.
  specialize (H Hp eq_refl). vm_compute in H. discriminate H.
Qed.

(** C3 (amended): for an identified user, if the flag is enabled at
    rollout percentage [p] it is enabled at every [p' >= p] below 100, and
    at [p' >= 100] as well when the flag's [enabled] field is true. *)
Theorem rollout_monotone self hash randint feature_name user_id u user_segment environment p p' :
  given user_id = Some u ->
  p <= p' ->
  p' < 100 \/ (exists flag, feature_flags self !! feature_name = Some flag /\
                            Flag.enabled flag = true) ->
  is_feature_enabled (set_rollout self feature_name p) hash randint
    feature_name user_id user_segment environment = true ->
  is_feature_enabled (set_rollout self feature_name p') hash randint
    feature_name user_id user_segment environment = true.
Proof.
  intros Hu Hle Hcase.
  destruct (feature_flags self !! feature_name) as [flag|] eqn:Hflag.
  - rewrite !(is_feature_enabled_found hash _ _ _ _ _ _ _
               (set_rollout_lookup self feature_name _ flag Hflag)).
    simpl. rewrite Hu.
    destruct (match given environment with Some _ => _ | None => _ end); [done|].
    destruct (match given user_segment with Some _ => _ | None => _ end); [done|].
    destruct (Z.ltb_spec p 100) as [Hp|Hp], (Z.ltb_spec p' 100) as [Hp'|Hp'];
      intros Hen.
    + apply Z.ltb_lt in Hen. apply Z.ltb_lt. lia.
    + destruct Hcase as [?|(flag' & [= <-] & He)]; [lia|done].
    + lia.
    + exact Hen.
  - rewrite !set_rollout_missing by done. done.
Qed.

Lemma rollout_monotone_witness :
  is_feature_enabled (set_rollout fresh_instance "ai_inference_v2" 60) length_hash 0
    "ai_inference_v2" (Some "u1") (Some "premium_users") (Some "production") = true.
Proof.
  apply (rollout_monotone fresh_instance length_hash 0 "ai_inference_v2"
           (Some "u1") "u1" (Some "premium_users") (Some "production") 25 60).
  - reflexivity.
  - lia.
  - left. lia.
  - reflexivity.
Defined.

(** C8, as stated, fails: the empty string is a user id that is not
    [None], and [if user_id:] sends it down the random path. *)
Lemma empty_user_id_is_random : ~ deterministic_for_non_null_user.
Proof.
  intros H.
  specialize (H fresh_instance length_hash "ai_inference_v2" "" None None 0 99).
  assert (H0 : 0 <= 0 <= 99) by lia. assert (H99 : 0 <= 99 <= 99) by lia.
  specialize (H H0 H99). vm_compute in H. discriminate H.
Qed.

(** C8 (amended): for a user id that is neither [None] nor empty, the
    result of [is_feature_enabled] does not depend on the random draw: two
    calls with the same arguments on the same flags agree. *)
Theorem flag_evaluation_deterministic self hash feature_name user_id u user_segment environment
    randint1 randint2 :
  given user_id = Some u ->
  is_feature_enabled self hash randint1 feature_name user_id user_segment environment =
  is_feature_enabled self hash randint2 feature_name user_id user_segment environment.
Proof.
  intros Hu. unfold is_feature_enabled. rewrite Hu. reflexivity.
Qed.

Lemma flag_evaluation_deterministic_witness :
  is_feature_enabled fresh_instance length_hash 0 "ai_inference_v2" (Some "u1") None None =
  is_feature_enabled fresh_instance length_hash 99 "ai_inference_v2" (Some "u1") None None.
Proof.
  apply (flag_evaluation_deterministic fresh_instance length_hash "ai_inference_v2"
           (Some "u1") "u1" None None 0 99).
  reflexivity.
Defined.

(** C9, as stated, fails: the hash is taken of the user id alone, so two
    flags with the same settings decide alike for every identified user. *)
Lemma bucket_ignores_flag_name : ~ bucket_depends_on_flag_name.
Proof.
  intros (hash & self & randint & name1 & name2 & flag1 & flag2 & u & seg & env
          & H1 & H2 & (He & Hr & Hs & Hv) & Hu & Hne).
  apply Hne.
  rewrite (is_feature_enabled_found hash _ _ _ _ _ _ _ H1),
          (is_feature_enabled_found hash _ _ _ _ _ _ _ H2).
  rewrite He, Hr, Hs, Hv. reflexivity.
Qed.

(** C9 (amended): for an identified user and a flag below 100% that
    passes the environment and segment checks, the decision is
    [hash(user_id) % 100 < rollout_percentage]: the bucket is a number in
    0..99 computed from the user id alone, the same for every flag and for
    every call. *)
Theorem bucket_is_hash_of_user_id self hash randint feature_name flag user_id u :
  feature_flags self !! feature_name = Some flag ->
  Flag.rollout_percentage flag < 100 ->
  given user_id = Some u ->
  0 <= hash u mod 100 < 100 /\
  is_feature_enabled self hash randint feature_name user_id None None =
    (hash u mod 100 <? Flag.rollout_percentage flag).
Proof.
  intros Hflag Hlt Hu. split; [apply bucket_range|].
  rewrite (is_feature_enabled_found hash _ _ _ _ _ _ _ Hflag). simpl.
  rewrite Hu. destruct (Z.ltb_spec (Flag.rollout_percentage flag) 100); [done|lia].
Qed.

Lemma bucket_is_hash_of_user_id_witness :
  0 <= length_hash "u1" mod 100 < 100 /\
  is_feature_enabled fresh_instance length_hash 0 "ai_inference_v2" (Some "u1") None None =
    (length_hash "u1" mod 100 <? 25).
Proof.
  apply (bucket_is_hash_of_user_id fresh_instance length_hash 0 "ai_inference_v2"
           {| Flag.name := "ai_inference_v2"; Flag.enabled := true;
              Flag.rollout_percentage := 25; Flag.target_segments := ["premium_users"];
              Flag.environments := ["staging"; "production"];
              Flag.conditions := [("user_tier", "premium")] |} (Some "u1") "u1").
  - reflexivity.
  - simpl. lia.
  - reflexivity.
Defined.

(** C10: [update_feature_flag] never raises and touches nothing but the
    flag map; every other flag keeps its value; the named flag keeps its
    [name] and [conditions], and each of [enabled], [rollout_percentage],
    [target_segments], [environments] becomes the keyword argument if one
    is given and is kept otherwise; on an unknown name the instance is
    unchanged. *)
Theorem update_feature_flag_frame (self : DeploymentAutomation) (feature_name : string)
    (kwargs : flag_kwargs) :
  let r := fst (update_feature_flag self feature_name kwargs) in
  let self' := snd (update_feature_flag self feature_name kwargs) in
  r = Ok tt /\
  config self' = config self /\
  active_deployments self' = active_deployments self /\
  deployment_history self' = deployment_history self /\
  (forall other, other <> feature_name ->
     feature_flags self' !! other = feature_flags self !! other) /\
  match feature_flags self !! feature_name with
  | None => self' = self
  | Some flag =>
    exists flag',
      feature_flags self' !! feature_name = Some flag' /\
      Flag.name flag' = Flag.name flag /\
      Flag.conditions flag' = Flag.conditions flag /\
      Flag.enabled flag' = default (Flag.enabled flag) (kw_enabled kwargs) /\
      Flag.rollout_percentage flag' =
        default (Flag.rollout_percentage flag) (kw_rollout_percentage kwargs) /\
      Flag.target_segments flag' =
        default (Flag.target_segments flag) (kw_target_segments kwargs) /\
      Flag.environments flag' =
        default (Flag.environments flag) (kw_environments kwargs)
  end.
Proof.
  unfold update_feature_flag.
  destruct (feature_flags self !! feature_name) as [flag|] eqn:Hflag; simpl.
  - repeat split; try done.
    + intros other Hne. by rewrite lookup_insert_ne.
    + eexists. split; [apply lookup_insert_eq|]. by repeat split.
  - by repeat split.
Qed.

(** * Plan creation *)

(** C7, as stated, fails: a request without services (the default of the
    [services] argument is the empty list) is accepted and registered. *)
Lemma empty_service_list_is_accepted : ~ create_plan_validates.
Proof.
  intros H. specialize (H fresh_instance 1700000000 (canary_kwargs None)).
  vm_compute in H. destruct H as [[e He] _]. discriminate He.
Qed.

(** C7 (amended): [create_deployment_plan] raises, returning no plan id
    and leaving the instance unchanged, exactly when the strategy value or
    the target environment value is not a member of its enum or
    [source_image] or [target_environment] is absent; in every other case,
    the service list being empty or not, it returns the plan id
    [deploy_<now>_<strategy>], registers under it a plan with status
    PENDING and the given services, and leaves every other registry entry,
    the history and the flags alone. *)
Theorem create_deployment_plan_validation (self : DeploymentAutomation) (now : Z)
    (kwargs : plan_kwargs) :
  let r := fst (create_deployment_plan self now kwargs) in
  let self' := snd (create_deployment_plan self now kwargs) in
  if decide (DeploymentStrategy_of (default "rolling_update" (kw_strategy kwargs)) = None
             \/ (kw_target_environment kwargs ≫= EnvironmentType_of) = None
             \/ kw_source_image kwargs = None)
  then (exists e, r = Raised e) /\ self' = self
  else
    let plan_id := "deploy_" +:+ pretty now +:+ "_" +:+ default "rolling" (kw_strategy kwargs) in
    exists plan,
      r = Ok plan_id /\
      active_deployments self' !! plan_id = Some plan /\
      status plan = PENDING /\
      services plan = default [] (kw_services kwargs) /\
      (forall other, other <> plan_id ->
         active_deployments self' !! other = active_deployments self !! other) /\
      deployment_history self' = deployment_history self /\
      feature_flags self' = feature_flags self.
Proof.
  cbv zeta. unfold create_deployment_plan.
  case_decide as Hd;
    destruct (DeploymentStrategy_of _) as [strat|] eqn:Hs;
    destruct (kw_source_image kwargs) as [img|] eqn:Hi;
    destruct (kw_target_environment kwargs) as [ev|] eqn:He; simpl in *;
    try destruct (EnvironmentType_of ev) as [env|] eqn:Hev; simpl in *;
    try (split; [eexists; reflexivity|reflexivity]);
    try (exfalso; apply Hd; auto; fail);
    try (destruct Hd as [?|[?|?]]; congruence).
  eexists. split; [done|]. split; [apply lookup_insert_eq|].
  repeat split; try done. intros other Hne. by rewrite lookup_insert_ne.
Qed.

(** * Metrics validation *)

(** C1, as stated, fails: when both queries come back without data
    points, both checks are skipped and the validation passes. *)
Lemma no_data_passes_validation : ~ fail_closed.
Proof.
  intros H.
  specialize (H default_config silent_world (start (pending_plan CANARY [] true))
                [Call (prometheus_query response_time_query)
                   (Return (PJson {| prom_status := "success"; prom_result := [] |}));
                 Call (prometheus_query error_rate_query)
                   (Return (PJson {| prom_status := "success"; prom_result := [] |}))]
                error_rate_query
                (Return (PJson {| prom_status := "success"; prom_result := [] |}))
                eq_refl).
  simpl in H. specialize (H (or_intror (or_introl eq_refl)) eq_refl).
  discriminate H.
Qed.

Lemma extends_nil (l : list event) : l = [] ++ l.
Proof. reflexivity. Qed.

Lemma extends_cons (e : event) (l' new l : list event) :
  l' = new ++ l -> e :: l' = (e :: new) ++ l.
Proof. intros ->. reflexivity. Qed.

Ltac extends := repeat apply extends_cons; apply extends_nil.

#[local] Arguments float_gt : simpl never.

Ltac answer_queries :=
  repeat match goal with
         | |- context [match ?w ?s (prometheus_query ?q) with _ => _ end] =>
           let Hr := fresh "Hr" in
           destruct (w s (prometheus_query q)) as [[| | | | |[? [|[?|] ?]]]|] eqn:Hr;
           cbn
         | |- context [String.eqb ?a ?b] =>
           let Hs := fresh "Hs" in destruct (String.eqb a b) eqn:Hs; cbn
         | |- context [if float_gt ?a ?b then _ else _] =>
           let Hf := fresh "Hf" in destruct (float_gt a b) eqn:Hf; cbn
         end.

(** C1 (amended): the validation always returns a boolean; it returns
    False when a provider call raises (connection error, timeout) or its
    body is not the expected JSON; a query answered with a non-success
    status or with no data points is skipped, so that a run in which no
    query carries a data point returns True. *)
Theorem validation_fails_on_provider_error (cfg : Config) (w : World) (st : machine) :
  let r := fst (_validate_canary_metrics cfg w st) in
  let st' := snd (_validate_canary_metrics cfg w st) in
  exists new,
    trace st' = new ++ trace st /\
    plan st' = plan st /\
    (exists b, r = Ok b) /\
    (forall c e, In (Call c (Raise e)) new -> r = Ok false) /\
    (forall c v, In (Call c (Return v)) new -> (forall d, v <> PJson d) -> r = Ok false) /\
    ((forall c x, In (Call c x) new ->
        exists d, x = Return (PJson d) /\ has_samples d = false) ->
     r = Ok true).
Proof.
  cbv zeta.
  unfold _validate_canary_metrics, try_except, bind, extern, json_of, first_value,
    has_samples, log, emit, ret, raise.
  cbn. answer_queries.
  all: eexists; split; [extends|]; split; [reflexivity|]; split; [eauto|].
  all: split; [|split].
  all: try (intros c0 e0 Hin; simpl in Hin;
            repeat (destruct Hin as [Hin|Hin]);
            solve [reflexivity | discriminate Hin | contradiction]).
  all: try (intros c0 v0 Hin Hnj; simpl in Hin;
            repeat (destruct Hin as [Hin|Hin]);
            solve [reflexivity | discriminate Hin | contradiction
                  | injection Hin as <- <-; exfalso; eapply Hnj; reflexivity]).
  all: intros Hall; try reflexivity; exfalso.
  all: try (destruct (Hall _ _ (or_introl eq_refl)) as (d0 & Heq & Hd);
            simplify_eq; simpl in Hd; rewrite ?Hs, ?Hs0 in Hd; discriminate Hd).
  all: try (destruct (Hall _ _ (or_intror (or_introl eq_refl))) as (d0 & Heq & Hd);
            simplify_eq; simpl in Hd; rewrite ?Hs, ?Hs0 in Hd; discriminate Hd).
  all: try (destruct (Hall _ _ (or_intror (or_intror (or_introl eq_refl)))) as (d0 & Heq & Hd);
            simplify_eq; simpl in Hd; rewrite ?Hs, ?Hs0 in Hd; discriminate Hd).
Qed.

(** * The canary ramp *)

Lemma increases_app l1 l2 : increases (l1 ++ l2) = increases l1 ++ increases l2.
Proof. apply omap_app. Qed.

Lemma increases_calm l : Forall calm l -> increases l = [].
Proof.
  induction 1 as [|e l He _ IH]; [done|].
  destruct e as [c r|p|[]]; cbn in *; try done.
Qed.

Lemma increases_quiet l : Forall quiet l -> increases l = [].
Proof. intros H. by apply increases_calm, quiet_calm. Qed.

Lemma ramp_chain_app inc t xs x :
  ramp_chain inc t xs ->
  (forall y, last (t :: xs) = Some y -> y < 100 /\ x = Z.min 100 (y + inc)) ->
  ramp_chain inc t (xs ++ [x]).
Proof.
  revert t. induction xs as [|z xs IH]; intros t Hc Hl; cbn in *.
  - destruct (Hl t eq_refl) as [? ?]. done.
  - destruct Hc as (Ht & Hz & Hc). split; [done|]. split; [done|].
    apply IH; [done|]. intros y Hy. apply Hl. by destruct xs.
Qed.

(** The effects of the loop, read oldest first, follow the update rule. *)
Lemma ramp_events_chain inc t r evs :
  ramp_events inc t r evs -> ramp_chain inc t (rev (increases evs)).
Proof.
  induction 1 as [t Ht|t io Ht Hio|t io r Ht Hio Hr|t io p r rest Ht Hio Hp Hrest IH].
  - done.
  - change (Log Canary_metrics_validation_failed :: io)
      with ([Log Canary_metrics_validation_failed] ++ io).
    by rewrite increases_app, (increases_quiet _ Hio).
  - by rewrite (increases_quiet _ Hio).
  - change (Log (Canary_traffic_increased_to (Z.min 100 (t + inc)))
              :: Store p :: Log (Traffic_routed_to_canary (Z.min 100 (t + inc))) :: io)
      with ([Log (Canary_traffic_increased_to (Z.min 100 (t + inc)));
             Store p; Log (Traffic_routed_to_canary (Z.min 100 (t + inc)))] ++ io).
    rewrite !increases_app, (increases_quiet _ Hio). cbn.
    rewrite rev_app_distr. cbn. done.
Qed.

Lemma ramp_events_complete inc t t' evs :
  ramp_events inc t (Ok (fell_through t')) evs ->
  ramp_chain_complete inc t (rev (increases evs)) /\
  last (t :: rev (increases evs)) = Some t' /\ 100 <= t'.
Proof.
  remember (Ok (fell_through t')) as r eqn:Hr.
  induction 1 as [t Ht|t io Ht Hio|t io r Ht Hio Hr'|t io p r rest Ht Hio Hp Hrest IH].
  - injection Hr as ->. done.
  - discriminate.
  - subst. by destruct (Hr' (fell_through t')).
  - change (Log (Canary_traffic_increased_to (Z.min 100 (t + inc)))
              :: Store p :: Log (Traffic_routed_to_canary (Z.min 100 (t + inc))) :: io)
      with ([Log (Canary_traffic_increased_to (Z.min 100 (t + inc)));
             Store p; Log (Traffic_routed_to_canary (Z.min 100 (t + inc)))] ++ io).
    rewrite !increases_app, (increases_quiet _ Hio). cbn.
    rewrite rev_app_distr. cbn. destruct (IH Hr) as (Hc & Hl & Hge).
    split; [done|]. split; [|done].
    destruct (rev (increases rest)); done.
Qed.

Lemma ramp_chain_bounds inc t steps :
  ramp_chain inc t steps ->
  t <= 100 ->
  Forall (fun x => x <= 100) steps /\
  (0 <= inc -> non_decreasing t steps).
Proof.
  revert t. induction steps as [|x xs IH]; intros t Hc Ht; cbn in *.
  - done.
  - destruct Hc as (Hlt & -> & Hc).
    destruct (IH _ Hc ltac:(lia)) as [Hall Hnd].
    split; [constructor; [lia|done]|]. intros Hinc. split; [lia|by apply Hnd].
Qed.



(** * Runs that return *)

Section succeeding.
Context {w : World}.

Lemma succeeds_ret {A} (a : A) : succeeds w (ret a).
Proof. intros st. by exists a. Qed.

Lemma succeeds_get_plan : succeeds w get_plan.
Proof. intros st. by eexists. Qed.

Lemma succeeds_log l : succeeds w (log l).
Proof. intros st. by exists tt. Qed.

Lemma succeeds_assign f : succeeds w (assign f).
Proof. intros st. by exists tt. Qed.

Lemma succeeds_extern c : (forall st, exists v, w st c = Return v) -> succeeds w (extern c).
Proof.
  intros Hw st. destruct (Hw st) as [v Hv]. exists v. unfold extern. by rewrite Hv.
Qed.

Lemma succeeds_bind {A B} (m : M A) (k : A -> M B) :
  succeeds w m -> (forall a, succeeds w (k a)) -> succeeds w (bind m k).
Proof.
  intros Hm Hk st. unfold bind. destruct (Hm st) as [a Ha].
  destruct (m w st) as [r s1]. cbn in Ha. subst r. apply Hk.
Qed.

Lemma succeeds_try {A} (m : M A) (h : exn -> M A) :
  succeeds w m -> succeeds w (try_except m h).
Proof.
  intros Hm st. unfold try_except. destruct (Hm st) as [a Ha].
  destruct (m w st) as [r s1]. cbn in Ha. subst r. by exists a.
Qed.

Lemma succeeds_run {A} (m : M A) st r st' :
  succeeds w m -> m w st = (r, st') -> exists a, r = Ok a.
Proof. intros Hm H. destruct (Hm st) as [a Ha]. rewrite H in Ha. by exists a. Qed.
End succeeding.

Lemma succeeds_prepare w : ready w -> succeeds w _prepare_gitops_repo.
Proof.
  intros [Hrepo _]. unfold _prepare_gitops_repo. apply succeeds_try.
  apply succeeds_bind; [by apply succeeds_extern|]. intros _. apply succeeds_log.
Qed.

(** On a plan without services the loops over the services make no
    call. *)
Lemma deploy_no_services w st :
  services (plan st) = [] -> _deploy_canary_version w st = (Ok tt, st).
Proof.
  intros Hs. unfold _deploy_canary_version, bind. cbn [get_plan]. by rewrite Hs.
Qed.

Lemma route_no_services percentage w st :
  services (plan st) = [] ->
  _route_traffic_to_canary percentage w st =
  (Ok tt, {| plan := plan st; trace := Log (Traffic_routed_to_canary percentage) :: trace st |}).
Proof.
  intros Hs. unfold _route_traffic_to_canary, bind. cbn [get_plan]. by rewrite Hs.
Qed.

Lemma promote_no_services w st :
  services (plan st) = [] ->
  _promote_canary_to_stable w st =
  (Ok tt, {| plan := plan st; trace := Log Canary_promoted_to_stable :: trace st |}).
Proof.
  intros Hs. unfold _promote_canary_to_stable, bind. cbn [get_plan]. by rewrite Hs.
Qed.

(** With a positive increment and passing validations the loop ends, and
    [fuel] iterations are enough for it when [100 - t <= inc * fuel]. *)
Lemma ramp_completes cfg w inc wt :
  ready w -> validations_pass cfg w -> 0 < inc ->
  forall fuel t st,
    services (plan st) = [] ->
    100 - t <= inc * Z.of_nat fuel ->
    exists t' st',
      canary_ramp cfg fuel t inc wt w st = (Ok (fell_through t'), st') /\
      services (plan st') = [].
Proof.
  intros [_ Hsleep] Hv Hinc. induction fuel as [|fuel IH]; intros t st Hs Hfuel;
    cbn [canary_ramp]; destruct (Z.ltb_spec t 100) as [Hlt|Hge];
    try (by eexists _, _); [lia|].
  unfold bind at 1. unfold extern at 1. destruct (Hsleep st wt) as [v ->].
  unfold bind at 1. cbn [plan trace].
  match goal with
  | |- context [_validate_canary_metrics cfg w ?s1] =>
    pose proof (Hv s1) as Hpass;
    destruct (_validate_canary_metrics cfg w s1) as [r2 s2] eqn:E2;
    destruct (sound_run _ _ _ _ _ _ _ (quiet_validate cfg (plan s1)) E2 eq_refl) as (Hp2 & _)
  end.
  cbn in Hpass, Hp2. subst r2. cbn [negb]. unfold bind at 1.
  rewrite route_no_services by (by rewrite <- Hp2).
  unfold bind at 1. cbn [set_progress assign plan trace]. unfold bind at 1. cbn [log emit plan trace].
  apply IH; [cbn; by rewrite <- Hp2|].
  rewrite Nat2Z.inj_succ, Z.mul_succ_r in Hfuel. lia.
Qed.

(** On a plan without services, where the sleeps return and the
    validations pass, the canary executor returns True. *)
Lemma canary_no_services cfg fuel w st :
  ready w -> validations_pass cfg w ->
  0 < traffic_increment (canary cfg) ->
  100 - initial_traffic_percentage (canary cfg)
    <= traffic_increment (canary cfg) * Z.of_nat fuel ->
  services (plan st) = [] ->
  fst (_execute_canary_deployment cfg fuel w st) = Ok true.
Proof.
  intros Hw Hv Hinc Hfuel Hs. unfold _execute_canary_deployment.
  unfold bind at 1. cbn [log emit]. unfold try_except.
  unfold bind at 1. cbn [set_progress assign]. unfold bind at 1.
  rewrite deploy_no_services by done.
  unfold bind at 1. cbn [set_progress assign plan trace]. unfold bind at 1.
  rewrite route_no_services by done.
  unfold bind at 1. cbn [plan trace].
  match goal with
  | |- context [canary_ramp ?c ?f ?t ?i ?wt w ?s2] =>
    destruct (ramp_completes cfg w i wt Hw Hv Hinc f t s2) as (t' & s3 & -> & Hs3);
      [done|done|]
  end.
  unfold bind at 1. cbn [set_progress assign plan trace]. unfold bind at 1.
  rewrite promote_no_services by done.
  reflexivity.
Qed.

(** * Canary plans from start to end *)

Lemma concluded_calm p r tail final : concluded p r tail final -> Forall calm tail.
Proof. destruct 1; calm_list. Qed.

Lemma same_but_progress_fields p q :
  same_but_progress p q ->
  strategy q = strategy p /\ services q = services p /\
  rollback_on_failure q = rollback_on_failure p.
Proof. unfold same_but_progress. intros H. by injection H. Qed.

(** The effects of [execute_deployment] on a canary plan: what precedes
    the ramp loop, the loop, the rest of the executor, and the
    conclusion. *)
Lemma execute_canary_run self pid plan0 w fuel :
  active_deployments self !! pid = Some plan0 ->
  strategy plan0 = CANARY ->
  let run := execute_deployment self pid w fuel in
  let inc := traffic_increment (canary (config self)) in
  let init := initial_traffic_percentage (canary (config self)) in
  exists before mid between tail r2 p2 final,
    effects run = tail ++ between ++ mid ++ before /\
    Forall calm before /\ Forall calm between /\ Forall calm tail /\
    (mid = [] \/ exists rr, ramp_events inc init rr mid) /\
    (In (Log Canary_metrics_validation_failed) mid -> r2 = Ok false /\ between = []) /\
    (r2 = Ok true -> exists t, ramp_events inc init (Ok (fell_through t)) mid) /\
    (ready w ->
     (forall st, services (plan st) = services plan0 ->
        fst (_execute_canary_deployment (config self) fuel w st) = Ok true) ->
     r2 = Ok true) /\
    strategy p2 = CANARY /\ services p2 = services plan0 /\
    rollback_on_failure p2 = rollback_on_failure plan0 /\
    ((r2 = OutOfFuel /\ tail = [] /\ returns run = OutOfFuel)
     \/
     (concluded p2 r2 tail final /\
      returns run = Ok (status_eqb (status final) COMPLETED) /\
      after run =
        {| config := config self;
           active_deployments := delete pid (active_deployments self);
           deployment_history := deployment_history self ++ [final];
           feature_flags := feature_flags self |})).
Proof.
  intros Hplan Hstrat. cbv zeta. unfold execute_deployment. rewrite Hplan.
  match goal with
  | |- context [let '(r, st) := ?m ?w ?s in _] => destruct (m w s) as [r st] eqn:H
  end.
  do 2 step H.
  destruct (execute_body_stages _ _ _ _ _ _ H)
    as (r1 & s1 & io1 & E1 & Hp1 & Htr1 & Hio1 & Hcases).
  cbn in Hp1, Htr1.
  pose (before := io1 ++ [Store (with_status IN_PROGRESS plan0); Log Starting_deployment]).
  assert (Hbefore : trace s1 = before) by (rewrite Htr1; unfold before; done).
  assert (Hcalm : Forall calm before) by (unfold before; calm_list).
  clearbody before. clear Htr1.
  destruct Hcases as [(e & tail & -> & -> & Htr & Hc)|(r2 & s2 & -> & E2 & Hcases)].
  - (* the repository could not be prepared *)
    exists before, [], [], tail, (Raised e), (plan s1), (plan st).
    cbn. rewrite Htr, Hbefore.
    split; [done|]. split; [done|]. split; [done|]. split; [by eapply concluded_calm|].
    split; [by left|]. split; [intros []|]. split; [done|].
    split.
    { intros Hw _.
      destruct (succeeds_run _ _ _ _ (succeeds_prepare _ Hw) E1) as [a Ha]. discriminate Ha. }
    split; [rewrite Hp1; exact Hstrat|]. split; [by rewrite Hp1|].
    split; [by rewrite Hp1|]. right. done.
  - rewrite Hp1 in E2. cbn [strategy with_status] in E2. rewrite Hstrat in E2.
    destruct (canary_run _ _ _ _ _ _ E2)
      as (pre & mid & post & Htr2 & Hpre & Hpost & Hmid & Hfail & Htrue).
    destruct (sound_run _ _ _ _ _ _ _ (progress_only_canary (plan s1) (config self) fuel)
                E2 (same_but_progress_refl _)) as (Hp2 & _).
    apply same_but_progress_fields in Hp2 as (Hs2 & Hv2 & Hr2).
    rewrite Hp1 in Hs2, Hv2, Hr2. cbn in Hs2, Hv2, Hr2.
    assert (Hob : ready w ->
                  (forall st, services (plan st) = services plan0 ->
                     fst (_execute_canary_deployment (config self) fuel w st) = Ok true) ->
                  r2 = Ok true).
    { intros _ Hok. specialize (Hok s1). rewrite E2, Hp1 in Hok. by apply Hok. }
    rewrite Hbefore in Htr2.
    destruct Hcases as [(-> & -> & ->)|(tail & -> & Htr & Hc)].
    + exists (pre ++ before), mid, post, [], OutOfFuel, (plan s2), (plan s2).
      cbn. rewrite Htr2, <- ?app_assoc.
      split; [done|]. split; [calm_list|]. split; [done|]. split; [done|].
      split; [done|]. split; [done|]. split; [exact (fun H => proj1 (Htrue H))|].
      split; [done|]. split; [by rewrite Hs2|]. split; [done|]. split; [done|]. by left.
    + exists (pre ++ before), mid, post, tail, r2, (plan s2), (plan st).
      cbn. rewrite Htr, Htr2, <- ?app_assoc.
      split; [done|]. split; [calm_list|]. split; [done|].
      split; [by eapply concluded_calm|].
      split; [done|]. split; [done|]. split; [exact (fun H => proj1 (Htrue H))|].
      split; [done|]. split; [by rewrite Hs2|]. split; [done|]. split; [done|].
      right. destruct r2; done.
Qed.

Lemma increases_effects tail between mid before :
  Forall calm tail -> Forall calm between -> Forall calm before ->
  increases (tail ++ between ++ mid ++ before) = increases mid.
Proof.
  intros H1 H2 H3.
  rewrite !increases_app, (increases_calm _ H1), (increases_calm _ H2), (increases_calm _ H3).
  cbn. by rewrite app_nil_r.
Qed.

Lemma concluded_completed_inv p r tail final :
  concluded p r tail final -> status final = COMPLETED ->
  r = Ok true /\ final = with_progress 100 (with_status COMPLETED p).
Proof. destruct 1; cbn; intros Hs; try discriminate Hs. done. Qed.

Lemma status_eqb_completed s : status_eqb s COMPLETED = true -> s = COMPLETED.
Proof. by destruct s. Qed.

Lemma last_bounded (P : Z -> Prop) t steps y :
  P t -> Forall P steps -> last (t :: steps) = Some y -> P y.
Proof.
  revert t. induction steps as [|x xs IH]; intros t Ht Hall Hl.
  - cbn in Hl. by injection Hl as <-.
  - apply Forall_cons in Hall as [Hx Hxs]. apply (IH x); [done|done|]. by destruct xs.
Qed.

Lemma scenario_steps steps :
  ramp_chain_complete 20 10 steps -> steps = [30; 50; 70; 90; 100].
Proof.
  intros H.
  destruct steps as [|a steps]; cbn in H; [lia|]. destruct H as (_ & -> & H).
  destruct steps as [|b steps]; cbn in H; [lia|]. destruct H as (_ & -> & H).
  destruct steps as [|c steps]; cbn in H; [lia|]. destruct H as (_ & -> & H).
  destruct steps as [|d steps]; cbn in H; [lia|]. destruct H as (_ & -> & H).
  destruct steps as [|e steps]; cbn in H; [lia|]. destruct H as (_ & -> & H).
  destruct steps as [|f steps]; cbn in H; [done|]. destruct H as (H & _). lia.
Qed.

(** X29: the canary ramp, for every world: the values the loop assigns to
    [traffic_percentage] follow [traffic = min(100, traffic + increment)],
    each assigned while the traffic is below 100; from an initial traffic
    of at most 100 they never exceed 100, with a non-negative increment
    they never decrease, and a run that returns True ended the loop at
    exactly 100.  For a plan without services, with initial traffic 10
    and increment 20, where the repository is fetched, the sleeps return
    and every validation passes, five units of fuel are enough: the loop
    makes exactly the five steps 30, 50, 70, 90, 100,
    [execute_deployment] returns True and archives the plan as COMPLETED
    with progress 100. *)
Theorem canary_ramp_schedule self plan_id plan0 w fuel :
  active_deployments self !! plan_id = Some plan0 ->
  strategy plan0 = CANARY ->
  let init := initial_traffic_percentage (canary (config self)) in
  let inc := traffic_increment (canary (config self)) in
  let run := execute_deployment self plan_id w fuel in
  let steps := rev (increases (effects run)) in
  ramp_chain inc init steps /\
  (init <= 100 -> Forall (fun x => x <= 100) steps) /\
  (init <= 100 -> 0 <= inc -> non_decreasing init steps) /\
  (init <= 100 -> returns run = Ok true -> last (init :: steps) = Some 100) /\
  (init = 10 -> inc = 20 -> services plan0 = [] ->
   ready w -> validations_pass (config self) w ->
   (5 <= fuel)%nat ->
   steps = [30; 50; 70; 90; 100] /\
   returns run = Ok true /\
   exists final,
     deployment_history (after run) = deployment_history self ++ [final] /\
     status final = COMPLETED /\ progress_percentage final = 100%Q).
Proof.
  intros Hplan Hstrat. cbv zeta.
  destruct (execute_canary_run self plan_id plan0 w fuel Hplan Hstrat)
    as (before & mid & between & tail & r2 & p2 & final & Heff & Hb & Hbt & Ht & Hmid
        & _ & Htrue & Hob & _ & _ & _ & Hend).
  cbv zeta in *. rewrite Heff, (increases_effects _ _ _ _ Ht Hbt Hb).
  assert (Hchain : ramp_chain (traffic_increment (canary (config self)))
                     (initial_traffic_percentage (canary (config self)))
                     (rev (increases mid))).
  { destruct Hmid as [->|[rr Hrr]]; [done|]. by eapply ramp_events_chain. }
  assert (Hr2 : returns (execute_deployment self plan_id w fuel) = Ok true -> r2 = Ok true).
  { intros Hret. destruct Hend as [(_ & _ & Hfuel)|(Hc & Hret' & _)]; [congruence|].
    rewrite Hret' in Hret. injection Hret as Hret. apply status_eqb_completed in Hret.
    by destruct (concluded_completed_inv _ _ _ _ Hc Hret). }
  split; [done|]. split; [|split; [|split]].
  - intros Hinit. by destruct (ramp_chain_bounds _ _ _ Hchain Hinit).
  - intros Hinit Hinc. destruct (ramp_chain_bounds _ _ _ Hchain Hinit) as [_ Hnd]. by apply Hnd.
  - intros Hinit Hret. destruct (Htrue (Hr2 Hret)) as [t Hramp].
    destruct (ramp_events_complete _ _ _ _ Hramp) as (_ & Hlast & Hge).
    destruct (ramp_chain_bounds _ _ _ Hchain Hinit) as [Hall _].
    pose proof (last_bounded (fun x => x <= 100) _ _ _ Hinit Hall Hlast) as Hle.
    cbn beta in Hle. rewrite Hlast. f_equal. lia.
  - intros Hinit Hinc Hnone Hw Hv Hfuel.
    assert (Hok : r2 = Ok true).
    { apply Hob; [done|]. intros st Hst.
      apply canary_no_services; [done|done|lia|lia|by rewrite Hst]. }
    destruct (Htrue Hok) as [t Hramp].
    destruct (ramp_events_complete _ _ _ _ Hramp) as (Hcomplete & _ & _).
    rewrite Hinit, Hinc in Hcomplete.
    split; [by apply scenario_steps|].
    destruct Hend as [(Hfuel' & _)|(Hc & Hret & Hafter)]; [congruence|].
    subst r2. inversion Hc; subst. rewrite Hret, Hafter. cbn.
    split; [done|]. by eexists.
Qed.

Lemma healthy_world_ready : ready healthy_world.
Proof. split; intros; by eexists. Defined.

Lemma healthy_world_passes : validations_pass default_config healthy_world.
Proof. intros st. reflexivity. Defined.

Lemma canary_ramp_schedule_witness :
  rev (increases (effects (execute_deployment (instance_with bare_canary)
                             (plan_id bare_canary) healthy_world 5)))
    = [30; 50; 70; 90; 100] /\
  returns (execute_deployment (instance_with bare_canary)
             (plan_id bare_canary) healthy_world 5) = Ok true.
Proof.
  destruct (canary_ramp_schedule (instance_with bare_canary) (plan_id bare_canary)
              bare_canary healthy_world 5 (lookup_insert_eq _ _ _) eq_refl)
    as (_ & _ & _ & _ & Hscenario).
  destruct (Hscenario eq_refl eq_refl eq_refl healthy_world_ready healthy_world_passes (le_n 5))
    as (Hsteps & Hret & _).
  split; [exact Hsteps|exact Hret].
Defined.





(** Scenario A of the specification with two services, on a cluster
    double whose [f.write] accepts whatever it is given: but for the
    manifest that step 1 hands over, the code runs the scenario as the
    specification tells it. *)
Example scenario_A_two_services :
  let run := execute_deployment (instance_with two_service_canary)
               (plan_id two_service_canary) healthy_world 5 in
  returns run = Ok true /\
  rev (increases (effects run)) = [30; 50; 70; 90; 100] /\
  (status <$> deployment_history (after run)) = [COMPLETED].
Proof. vm_compute. done. Qed.

(** Scenario B with two services on the same double: the second
    validation reports 8%. *)
Example scenario_B_two_services :
  let run := execute_deployment (instance_with two_service_canary)
               (plan_id two_service_canary) unhealthy_on_cycle_2 5 in
  returns run = Ok false /\
  rev (increases (effects run)) = [30] /\
  (status <$> deployment_history (after run)) = [ROLLED_BACK] /\
  In (Call (remove_canary_deployment "ai-inference") (Return PNone)) (effects run).
Proof. vm_compute. repeat split. repeat (first [left; reflexivity | right]). Qed.

(** As the class is written, a canary plan with a service stops at its
    first step: the coroutine object handed to [f.write] raises, no
    validation runs, and the plan is archived as ROLLED_BACK. *)
Example canary_with_a_service_as_written :
  let run := execute_deployment
               (instance_with (pending_plan CANARY ["video-processor"] true))
               "deploy_1700000000_demo" as_written 5 in
  returns run = Ok false /\
  increases (effects run) = [] /\
  error_rate_queries (effects run) = 0%nat /\
  (status <$> deployment_history (after run)) = [ROLLED_BACK].
Proof. vm_compute. done. Qed.

Lemma terminal_states_settle_witness :
  let failed := with_status FAILED
                  (with_progress 20
                     (with_status IN_PROGRESS
                        (pending_plan ROLLING_UPDATE ["video-processor"] true))) in
  status (with_status ROLLED_BACK failed) = FAILED \/
  status (with_status ROLLED_BACK failed) = ROLLED_BACK /\ rollback_on_failure failed = true.
Proof.
  cbv zeta.
  refine
    (proj2
       (proj2
          (terminal_states_settle
             (instance_with (pending_plan ROLLING_UPDATE ["video-processor"] true))
             "deploy_1700000000_demo" as_written 0
             [_; _; _; _; _]
             (with_status FAILED
                (with_progress 20
                   (with_status IN_PROGRESS
                      (pending_plan ROLLING_UPDATE ["video-processor"] true))))
             _ _ _ _) eq_refl)).
  - vm_compute. reflexivity.
  - right. right. left. reflexivity.
Defined.

(** * Further properties: the life cycle of a plan *)

Lemma same_request_refl p : same_request p p.
Proof. reflexivity. Qed.

Lemma same_request_trans p q r : same_request p q -> same_request q r -> same_request p r.
Proof. unfold same_request. congruence. Qed.

Lemma same_request_progress p q : same_but_progress p q -> same_request p q.
Proof.
  unfold same_but_progress, same_request. destruct p, q; cbn. intros H.
  injection H as ? ? ? ? ? ? ? ? ? ? ? ? ?. subst. reflexivity.
Qed.

(** What the conclusion of a run leaves: the request as it was, a
    terminal status that tells how the run went, and the progress 100 of
    a completed plan. *)
Lemma concluded_final p r tail final :
  concluded p r tail final ->
  same_request p final /\
  ((r = Ok true /\ status final = COMPLETED /\ progress_percentage final = 100%Q)
   \/ (r <> Ok true /\ status final = FAILED /\ rollback_on_failure p = false)
   \/ (r <> Ok true /\ status final = ROLLED_BACK /\ rollback_on_failure p = true)).
Proof.
  destruct 1; (split; [reflexivity|]); cbn.
  - left. done.
  - right. left. done.
  - right. right. done.
  - right. left. done.
  - right. right. done.
Qed.

Lemma executed_plan_leaves self plan_id w fuel :
  returns (execute_deployment self plan_id w fuel) <> OutOfFuel ->
  active_deployments (after (execute_deployment self plan_id w fuel)) !! plan_id = None.
Proof.
  intros Hfuel.
  destruct (active_deployments self !! plan_id) as [plan0|] eqn:Hplan.
  - destruct (execute_deployment_run self plan_id w fuel plan0 Hplan)
      as (ex & _ & [(Hr & _)|(tail & p & rex & final & _ & _ & _ & _ & _ & ->)]);
      [done|]. cbn. apply lookup_delete_eq.
  - unfold execute_deployment. rewrite Hplan. exact Hplan.
Qed.

(** X1: [execute_deployment] lets no exception escape, whatever the
    world does, and only the canary strategy has a loop that can keep it
    from returning: for every other plan, and for an unknown id, it
    returns a boolean. *)
Theorem execute_deployment_never_raises self plan_id w fuel :
  let run := execute_deployment self plan_id w fuel in
  (forall e, returns run <> Raised e) /\
  (returns run = OutOfFuel ->
   exists plan0, active_deployments self !! plan_id = Some plan0 /\ strategy plan0 = CANARY) /\
  (active_deployments self !! plan_id = None -> run = not_found self).
Proof.
  cbv zeta.
  destruct (active_deployments self !! plan_id) as [plan0|] eqn:Hplan.
  - destruct (execute_deployment_run self plan_id w fuel plan0 Hplan)
      as (ex & _ & [(Hr & _ & _ & Hs)|(tail & p & rex & final & _ & _ & _ & _ & Hr & _)]);
      rewrite Hr.
    + split; [done|]. split; [|done]. intros _. by exists plan0.
    + split; [done|]. split; [done|done].
  - unfold execute_deployment, not_found. rewrite Hplan. cbn. split; [done|]. split; done.
Qed.

Lemma execute_deployment_finished self plan_id plan0 w fuel :
  active_deployments self !! plan_id = Some plan0 ->
  returns (execute_deployment self plan_id w fuel) <> OutOfFuel ->
  let run := execute_deployment self plan_id w fuel in
  exists final,
    after run =
      {| config := config self;
         active_deployments := delete plan_id (active_deployments self);
         deployment_history := deployment_history self ++ [final];
         feature_flags := feature_flags self |} /\
    same_request plan0 final /\
    terminal (status final) /\
    returns run = Ok (status_eqb (status final) COMPLETED) /\
    (status final = COMPLETED -> progress_percentage final = 100%Q) /\
    (status final = FAILED -> rollback_on_failure plan0 = false) /\
    (status final = ROLLED_BACK -> rollback_on_failure plan0 = true).
Proof.
  intros Hplan Hfuel. cbv zeta.
  destruct (execute_deployment_run self plan_id w fuel plan0 Hplan)
    as (ex & _ & [(Hr & _)|(tail & p & rex & final & _ & Hp & Hc & _ & Hr & Hafter)]);
    [done|].
  exists final. split; [done|].
  destruct (concluded_final _ _ _ _ Hc) as (Hreq & Hcases).
  apply same_request_progress in Hp.
  assert (Hrb : rollback_on_failure p = rollback_on_failure plan0).
  { unfold same_request in Hp. destruct plan0, p. cbn in *. by injection Hp. }
  split. { eapply same_request_trans; [|exact Hreq]. eapply same_request_trans; [|exact Hp]. done. }
  unfold terminal. rewrite Hr.
  destruct Hcases as [(_ & Hs & H100)|[(_ & Hs & Hno)|(_ & Hs & Hyes)]]; rewrite Hs;
    repeat split; auto; try discriminate; congruence.
Qed.

(** X2: a run of [execute_deployment] that returns archives its plan
    exactly once: the id leaves the active plans (all others stay), one
    plan is appended to the history, the configuration and the flags are
    untouched; the archived plan is the request as registered, its
    status is COMPLETED, FAILED or ROLLED_BACK, the call returned True
    exactly for COMPLETED (then with progress 100), and FAILED is kept
    exactly by plans without [rollback_on_failure]. *)
Theorem execute_deployment_archives self plan_id plan0 w fuel :
  active_deployments self !! plan_id = Some plan0 ->
  returns (execute_deployment self plan_id w fuel) <> OutOfFuel ->
  let run := execute_deployment self plan_id w fuel in
  exists final,
    after run =
      {| config := config self;
         active_deployments := delete plan_id (active_deployments self);
         deployment_history := deployment_history self ++ [final];
         feature_flags := feature_flags self |} /\
    same_request plan0 final /\
    terminal (status final) /\
    returns run = Ok (status_eqb (status final) COMPLETED) /\
    (status final = COMPLETED -> progress_percentage final = 100%Q) /\
    (status final = FAILED -> rollback_on_failure plan0 = false) /\
    (status final = ROLLED_BACK -> rollback_on_failure plan0 = true).
Proof. apply execute_deployment_finished. Qed.

Lemma execute_deployment_archives_witness :
  exists final,
    deployment_history
      (after (execute_deployment (instance_with bare_canary) (plan_id bare_canary)
                healthy_world 5)) = [final] /\
    status final = COMPLETED.
Proof.
  destruct (execute_deployment_archives (instance_with bare_canary) (plan_id bare_canary)
              bare_canary healthy_world 5 (lookup_insert_eq _ _ _))
    as (final & Hafter & _ & _ & Hret & _).
  - vm_compute. discriminate.
  - exists final. rewrite Hafter. split; [reflexivity|].
    assert (Hok : returns (execute_deployment (instance_with bare_canary)
                             (plan_id bare_canary) healthy_world 5) = Ok true)
      by (vm_compute; reflexivity).
    rewrite Hret in Hok. injection Hok as Hok. by apply status_eqb_completed.
Defined.

(** X3: archiving is final: once a run has returned, executing the same
    id again, in any world, finds no plan: it returns False and leaves
    the instance as it is. *)
Theorem execute_deployment_again self plan_id w fuel w' fuel' :
  returns (execute_deployment self plan_id w fuel) <> OutOfFuel ->
  let self' := after (execute_deployment self plan_id w fuel) in
  execute_deployment self' plan_id w' fuel' = not_found self'.
Proof.
  intros Hfuel. cbv zeta.
  pose proof (executed_plan_leaves self plan_id w fuel Hfuel) as Hgone.
  unfold execute_deployment at 1. by rewrite Hgone.
Qed.

Lemma execute_deployment_again_witness :
  let self' := after (execute_deployment (instance_with bare_canary)
                        (plan_id bare_canary) healthy_world 5) in
  execute_deployment self' (plan_id bare_canary) as_written 0 = not_found self'.
Proof.
  apply (execute_deployment_again (instance_with bare_canary) (plan_id bare_canary)
           healthy_world 5 as_written 0).
  vm_compute. discriminate.
Defined.

(** * Further properties: the registries *)

Lemma new_instance_well_keyed cfg : well_keyed (new_instance cfg).
Proof.
  split; cbn.
  - intros k p H. by rewrite lookup_empty in H.
  - intros k f H. unfold loaded_feature_flags in H.
    repeat (apply lookup_insert_Some in H as [[<- <-]|[_ H]]; [reflexivity|]).
    by rewrite lookup_empty in H.
Qed.

Lemma create_deployment_plan_ok self now kwargs pid self' :
  create_deployment_plan self now kwargs = (Ok pid, self') ->
  pid = "deploy_" +:+ pretty now +:+ "_" +:+ default "rolling" (kw_strategy kwargs) /\
  exists plan,
    self' = {| config := config self;
               active_deployments := <[pid := plan]> (active_deployments self);
               deployment_history := deployment_history self;
               feature_flags := feature_flags self |} /\
    plan_id plan = pid /\ status plan = PENDING /\
    progress_percentage plan = 0%Q /\ error_message plan = None /\
    created_at plan = now /\
    services plan = default [] (kw_services kwargs) /\
    rollback_on_failure plan = default true (kw_rollback_on_failure kwargs) /\
    DeploymentStrategy_of (default "rolling_update" (kw_strategy kwargs)) = Some (strategy plan).
Proof.
  unfold create_deployment_plan.
  destruct (DeploymentStrategy_of _) as [strat|] eqn:Hs; [|discriminate].
  destruct (kw_source_image kwargs); [|discriminate].
  destruct (kw_target_environment kwargs) as [env|]; [|discriminate].
  destruct (EnvironmentType_of env); [|discriminate].
  intros H. injection H as <- <-. split; [reflexivity|].
  eexists. split; [reflexivity|]. cbn. repeat split; reflexivity.
Qed.

(** X4: the keys of the plan registry are the ids of its plans and the
    keys of the flag registry are the names of its flags: this holds
    for a new instance and is kept by [create_deployment_plan],
    [execute_deployment] and [update_feature_flag], whatever their
    arguments and whether they succeed or not. *)
Theorem registries_stay_well_keyed :
  (forall cfg, well_keyed (new_instance cfg)) /\
  (forall self,
     well_keyed self ->
     (forall now kwargs, well_keyed (snd (create_deployment_plan self now kwargs))) /\
     (forall pid w fuel, well_keyed (after (execute_deployment self pid w fuel))) /\
     (forall feature_name kwargs,
        well_keyed (snd (update_feature_flag self feature_name kwargs)))).
Proof.
  split; [apply new_instance_well_keyed|].
  intros self [Hplans Hflags]. split; [|split].
  - intros now kwargs.
    destruct (create_deployment_plan self now kwargs) as [[pid| |] self'] eqn:H; cbn.
    + destruct (create_deployment_plan_ok _ _ _ _ _ H) as (_ & plan & -> & Hid & _).
      split; cbn; [|done]. intros k p Hk.
      apply lookup_insert_Some in Hk as [[<- <-]|[_ Hk]]; [done|by apply Hplans].
    + assert (self' = self) as ->; [|done].
      unfold create_deployment_plan in H.
      repeat match type of H with
             | match ?x with _ => _ end = _ => destruct x
             end; by injection H.
    + unfold create_deployment_plan in H.
      repeat match type of H with
             | match ?x with _ => _ end = _ => destruct x
             end; discriminate.
  - intros pid w fuel. unfold execute_deployment.
    destruct (active_deployments self !! pid) as [plan0|]; [|done].
    match goal with
    | |- context [let '(r, st) := ?m ?w ?s in _] => destruct (m w s) as [[]  st]
    end; cbn; try done.
    all: split; cbn; [|done]; intros k p Hk;
      apply lookup_delete_Some in Hk as [_ Hk]; by apply Hplans.
  - intros feature_name kwargs. unfold update_feature_flag.
    destruct (feature_flags self !! feature_name) as [flag|] eqn:Hflag; [|done].
    split; cbn; [done|]. intros k f Hk.
    apply lookup_insert_Some in Hk as [[<- <-]|[_ Hk]]; [cbn; by apply Hflags|by apply Hflags].
Qed.

(** X5: a plan that [create_deployment_plan] has registered is what
    [get_deployment_status] returns for the new id: PENDING, progress 0,
    no error message, created at the time of the call; the answer for
    every other id is what it was before. *)
Theorem created_plan_is_pending self now kwargs pid self' :
  create_deployment_plan self now kwargs = (Ok pid, self') ->
  (exists plan,
      get_deployment_status self' pid = Some plan /\
      plan_id plan = pid /\ status plan = PENDING /\
      progress_percentage plan = 0%Q /\ error_message plan = None /\
      created_at plan = now) /\
  (forall other, other <> pid ->
     get_deployment_status self' other = get_deployment_status self other).
Proof.
  intros H.
  destruct (create_deployment_plan_ok _ _ _ _ _ H)
    as (_ & plan & -> & Hid & Hst & Hpr & Herr & Hat & _).
  split.
  - exists plan. unfold get_deployment_status. cbn. by rewrite lookup_insert_eq.
  - intros other Hne. unfold get_deployment_status. cbn.
    by rewrite lookup_insert_ne.
Qed.

Lemma created_plan_is_pending_witness :
  exists plan,
    get_deployment_status
      (snd (create_deployment_plan fresh_instance 1700000000 (canary_kwargs None)))
      "deploy_1700000000_canary" = Some plan /\
    status plan = PENDING.
Proof.
  destruct (created_plan_is_pending fresh_instance 1700000000 (canary_kwargs None)
              "deploy_1700000000_canary"
              (snd (create_deployment_plan fresh_instance 1700000000 (canary_kwargs None))))
    as [(plan & Hget & _ & Hst & _) _].
  - vm_compute. reflexivity.
  - exists plan. split; [exact Hget|exact Hst].
Defined.

(** X6: the id holds the second of the call and the strategy string and
    nothing else: a second plan created in the same second with the
    same [strategy] argument gets the id of the first and takes its
    place, so that the instance is what it would be had the first call
    never been made. *)
Theorem plans_of_the_same_second_collide self now kwargs1 kwargs2 pid1 self1 pid2 self2 :
  create_deployment_plan self now kwargs1 = (Ok pid1, self1) ->
  create_deployment_plan self1 now kwargs2 = (Ok pid2, self2) ->
  kw_strategy kwargs1 = kw_strategy kwargs2 ->
  pid2 = pid1 /\ create_deployment_plan self now kwargs2 = (Ok pid2, self2).
Proof.
  intros H1 H2 Hs.
  destruct (create_deployment_plan_ok _ _ _ _ _ H1) as (Hid1 & plan1 & -> & _).
  destruct (create_deployment_plan_ok _ _ _ _ _ H2) as (Hid2 & _).
  rewrite Hs in Hid1. split; [by rewrite Hid1, Hid2|].
  subst pid1. revert H2. unfold create_deployment_plan. cbn.
  destruct (DeploymentStrategy_of _) as [strat|]; [|discriminate].
  destruct (kw_source_image kwargs2); [|discriminate].
  destruct (kw_target_environment kwargs2) as [env|]; [|discriminate].
  destruct (EnvironmentType_of env); [|discriminate].
  by rewrite insert_insert_eq.
Qed.

Lemma plans_of_the_same_second_collide_witness :
  create_deployment_plan fresh_instance 1700000000 (canary_kwargs (Some ["ai-inference"])) =
  create_deployment_plan
    (snd (create_deployment_plan fresh_instance 1700000000
            (canary_kwargs (Some ["video-processor"]))))
    1700000000 (canary_kwargs (Some ["ai-inference"])).
Proof.
  destruct (plans_of_the_same_second_collide fresh_instance 1700000000
              (canary_kwargs (Some ["video-processor"]))
              (canary_kwargs (Some ["ai-inference"]))
              "deploy_1700000000_canary"
              (snd (create_deployment_plan fresh_instance 1700000000
                      (canary_kwargs (Some ["video-processor"]))))
              "deploy_1700000000_canary"
              (snd (create_deployment_plan
                      (snd (create_deployment_plan fresh_instance 1700000000
                              (canary_kwargs (Some ["video-processor"]))))
                      1700000000 (canary_kwargs (Some ["ai-inference"])))))
    as [_ H].
  - vm_compute. reflexivity.
  - vm_compute. reflexivity.
  - reflexivity.
  - rewrite H. vm_compute. reflexivity.
Defined.

Lemma archived_app pid history final :
  archived pid (history ++ [final]) =
  match archived pid history with
  | Some old => Some old
  | None => if String.eqb (plan_id final) pid then Some final else None
  end.
Proof.
  unfold archived. induction history as [|h history IH]; cbn; [done|].
  by destruct (String.eqb (plan_id h) pid).
Qed.

Lemma same_request_plan_id p q : same_request p q -> plan_id q = plan_id p.
Proof.
  unfold same_request. destruct p, q; cbn. intros H. by injection H.
Qed.

(** X7: after a run of [execute_deployment] on a registered plan has
    returned, [get_deployment_status] answers for its id from the
    history, where the first entry with that id wins: it returns the
    plan just archived only if no plan with the same id was archived
    before, and the older plan otherwise; the answer for every other id
    is unchanged. *)
Theorem status_after_execution self pid plan0 w fuel :
  active_deployments self !! pid = Some plan0 ->
  plan_id plan0 = pid ->
  returns (execute_deployment self pid w fuel) <> OutOfFuel ->
  let self' := after (execute_deployment self pid w fuel) in
  exists final,
    deployment_history self' = deployment_history self ++ [final] /\
    terminal (status final) /\
    get_deployment_status self' pid =
      Some (default final (archived pid (deployment_history self))) /\
    (forall other, other <> pid ->
       get_deployment_status self' other = get_deployment_status self other).
Proof.
  intros Hplan Hid Hfuel. cbv zeta.
  destruct (execute_deployment_finished self pid plan0 w fuel Hplan Hfuel)
    as (final & -> & Hreq & Hterm & _).
  apply same_request_plan_id in Hreq. rewrite Hid in Hreq.
  exists final. split; [done|]. split; [done|].
  unfold get_deployment_status. cbn. fold (archived pid (deployment_history self ++ [final])).
  split.
  - rewrite lookup_delete_eq, archived_app, Hreq, String.eqb_refl.
    by destruct (archived pid (deployment_history self)).
  - intros other Hne. rewrite lookup_delete_ne by done.
    destruct (active_deployments self !! other); [done|].
    fold (archived other (deployment_history self ++ [final])).
    fold (archived other (deployment_history self)).
    rewrite archived_app, Hreq.
    destruct (String.eqb_spec pid other); [done|].
    by destruct (archived other (deployment_history self)).
Qed.

Lemma status_after_execution_witness :
  exists final,
    get_deployment_status
      (after (execute_deployment (instance_with bare_canary) (plan_id bare_canary)
                healthy_world 5))
      (plan_id bare_canary) = Some final /\
    terminal (status final).
Proof.
  destruct (status_after_execution (instance_with bare_canary) (plan_id bare_canary)
              bare_canary healthy_world 5 (lookup_insert_eq _ _ _) eq_refl)
    as (final & _ & Hterm & Hget & _).
  - vm_compute. discriminate.
  - exists final. split; [exact Hget|exact Hterm].
Defined.

(** * Further properties: feature flags *)

Lemma flag_eta (flag : FeatureFlag) :
  {| Flag.name := Flag.name flag; Flag.enabled := Flag.enabled flag;
     Flag.rollout_percentage := Flag.rollout_percentage flag;
     Flag.target_segments := Flag.target_segments flag;
     Flag.environments := Flag.environments flag;
     Flag.conditions := Flag.conditions flag |} = flag.
Proof. by destruct flag. Qed.

(** X8: below a rollout of 100 the [enabled] field of a flag is never
    read: switching it with [update_feature_flag(name, enabled=b)]
    changes no decision of [is_feature_enabled], for this flag or any
    other, so a flag at less than 100% cannot be turned off with it. *)
Theorem enabled_is_not_read_below_100 self hash randint feature_name flag b
    evaluated user_id user_segment environment :
  feature_flags self !! feature_name = Some flag ->
  Flag.rollout_percentage flag < 100 ->
  is_feature_enabled (set_enabled self feature_name b) hash randint
    evaluated user_id user_segment environment =
  is_feature_enabled self hash randint evaluated user_id user_segment environment.
Proof.
  intros Hflag Hlt.
  destruct (decide (evaluated = feature_name)) as [->|Hne].
  - assert (Hnew : feature_flags (set_enabled self feature_name b) !! feature_name =
                   Some {| Flag.name := Flag.name flag; Flag.enabled := b;
                           Flag.rollout_percentage := Flag.rollout_percentage flag;
                           Flag.target_segments := Flag.target_segments flag;
                           Flag.environments := Flag.environments flag;
                           Flag.conditions := Flag.conditions flag |}).
    { unfold set_enabled, update_feature_flag. rewrite Hflag. cbn.
      apply lookup_insert_eq. }
    rewrite (is_feature_enabled_found hash _ _ _ _ _ _ _ Hnew),
            (is_feature_enabled_found hash _ _ _ _ _ _ _ Hflag).
    cbn. destruct (Z.ltb_spec (Flag.rollout_percentage flag) 100); [done|lia].
  - unfold is_feature_enabled, set_enabled, update_feature_flag. rewrite Hflag. cbn.
    by rewrite lookup_insert_ne.
Qed.

Lemma enabled_is_not_read_below_100_witness :
  is_feature_enabled (set_enabled fresh_instance "ai_inference_v2" false) length_hash 0
    "ai_inference_v2" (Some "u1") (Some "premium_users") (Some "production") = true.
Proof.
  rewrite (enabled_is_not_read_below_100 fresh_instance length_hash 0 "ai_inference_v2"
             {| Flag.name := "ai_inference_v2"; Flag.enabled := true;
                Flag.rollout_percentage := 25; Flag.target_segments := ["premium_users"];
                Flag.environments := ["staging"; "production"];
                Flag.conditions := [("user_tier", "premium")] |} false).
  - reflexivity.
  - reflexivity.
  - simpl. lia.
Defined.

(** X9: the two ends of the rollout scale.  A flag with a rollout of 0
    or less is off for every caller, identified or not, whatever its
    [enabled] field says; a flag with a rollout of 100 or more decides
    without looking at the user: the answer depends on neither the user
    id nor the hash nor the random draw. *)
Theorem rollout_extremes self hash randint feature_name flag user_id user_segment environment :
  feature_flags self !! feature_name = Some flag ->
  0 <= randint <= 99 ->
  (Flag.rollout_percentage flag <= 0 ->
   is_feature_enabled self hash randint feature_name user_id user_segment environment = false) /\
  (100 <= Flag.rollout_percentage flag ->
   forall hash' randint' user_id',
     is_feature_enabled self hash randint feature_name user_id user_segment environment =
     is_feature_enabled self hash' randint' feature_name user_id' user_segment environment).
Proof.
  intros Hflag Hr. split.
  - intros Hp. rewrite (is_feature_enabled_found hash _ _ _ _ _ _ _ Hflag).
    destruct (match given environment with Some _ => _ | None => _ end); [done|].
    destruct (match given user_segment with Some _ => _ | None => _ end); [done|].
    destruct (Z.ltb_spec (Flag.rollout_percentage flag) 100); [|lia].
    destruct (given user_id) as [u|].
    + pose proof (bucket_range hash u). apply Z.ltb_ge. lia.
    + apply Z.ltb_ge. lia.
  - intros Hp hash' randint' user_id'.
    rewrite (is_feature_enabled_found hash _ _ _ _ _ _ _ Hflag),
            (is_feature_enabled_found hash' _ _ _ _ _ _ _ Hflag).
    destruct (Z.ltb_spec (Flag.rollout_percentage flag) 100); [lia|done].
Qed.

Lemma rollout_extremes_witness :
  is_feature_enabled fresh_instance length_hash 42 "enhanced_video_processing"
    (Some "u1") (Some "beta_users") (Some "staging") = false.
Proof.
  apply (rollout_extremes fresh_instance length_hash 42 "enhanced_video_processing"
           {| Flag.name := "enhanced_video_processing"; Flag.enabled := false;
              Flag.rollout_percentage := 0; Flag.target_segments := ["beta_users"];
              Flag.environments := ["staging"]; Flag.conditions := [] |}
           (Some "u1") (Some "beta_users") (Some "staging")).
  - reflexivity.
  - lia.
  - simpl. lia.
Defined.

(** X10: [update_feature_flag] applied twice with the same arguments is
    the same as applied once, and applied with none of the four keys it
    reads (other keys are accepted and dropped) it leaves the instance
    as it is. *)
Theorem update_feature_flag_idempotent self feature_name kwargs unread_name unread_conditions :
  let self' := snd (update_feature_flag self feature_name kwargs) in
  snd (update_feature_flag self' feature_name kwargs) = self' /\
  snd (update_feature_flag self feature_name
         {| kw_enabled := None; kw_rollout_percentage := None;
            kw_target_segments := None; kw_environments := None;
            kw_flag_name := unread_name; kw_conditions := unread_conditions |}) = self.
Proof.
  cbv zeta. unfold update_feature_flag at 2 3 4.
  destruct (feature_flags self !! feature_name) as [flag|] eqn:Hflag; cbn.
  - split.
    + unfold update_feature_flag. cbn. rewrite lookup_insert_eq. cbn.
      rewrite insert_insert_eq. do 2 f_equal.
      by destruct (kw_enabled kwargs), (kw_rollout_percentage kwargs),
                  (kw_target_segments kwargs), (kw_environments kwargs).
    + rewrite flag_eta, insert_id by done. by destruct self.
  - split; [|done]. unfold update_feature_flag. by rewrite Hflag.
Qed.

(** * Further properties: the configuration *)

Lemma dict_get_set_eq key value d : dict_get key (dict_set key value d) = Some value.
Proof.
  induction d as [|[k v] d IH]; cbn.
  - by rewrite String.eqb_refl.
  - destruct (String.eqb k key) eqn:E; cbn; by rewrite E.
Qed.

Lemma dict_get_set_ne key other value d :
  key <> other -> dict_get other (dict_set key value d) = dict_get other d.
Proof.
  intros Hne. induction d as [|[k v] d IH]; cbn.
  - by destruct (String.eqb_spec key other).
  - destruct (String.eqb_spec k key) as [->|]; cbn.
    + by destruct (String.eqb_spec key other).
    + by rewrite IH.
Qed.

Lemma dict_set_same key value d : dict_get key d = Some value -> dict_set key value d = d.
Proof.
  induction d as [|[k v] d IH]; cbn; [done|].
  destruct (String.eqb k key); [by intros [= ->]|]. intros H. by rewrite IH.
Qed.

Lemma dict_get_None key d : dict_get key d = None <-> ~ In key (map fst d).
Proof.
  induction d as [|[k v] d IH]; cbn; [tauto|].
  destruct (String.eqb_spec k key) as [->|Hne].
  - split; [done|]. intros H. exfalso. apply H. by left.
  - rewrite IH. split; [intros H [?|?]; tauto|tauto].
Qed.

Lemma dict_get_In key value d : dict_get key d = Some value -> In (key, value) d.
Proof.
  induction d as [|[k v] d IH]; cbn; [done|].
  destruct (String.eqb_spec k key) as [->|Hne]; [intros [= ->]; by left|].
  intros H. right. by apply IH.
Qed.

Lemma contains_In l x : contains l x = true <-> In x l.
Proof.
  unfold contains. rewrite existsb_exists. split.
  - intros (y & Hy & E). apply String.eqb_eq in E. by subst.
  - intros H. exists x. split; [done|apply String.eqb_refl].
Qed.

Lemma distinct_cons k keys :
  distinct (k :: keys) = true <-> ~ In k keys /\ distinct keys = true.
Proof.
  cbn. rewrite andb_true_iff, negb_true_iff, <- contains_In.
  destruct (contains keys k); split; intros [? ?]; split; congruence.
Qed.

Lemma keys_dict_set key value d :
  map fst (dict_set key value d) =
  match dict_get key d with
  | Some _ => map fst d
  | None => map fst d ++ [key]
  end.
Proof.
  induction d as [|[k v] d IH]; cbn; [done|].
  destruct (String.eqb k key); cbn; [done|].
  rewrite IH. by destruct (dict_get key d).
Qed.

Lemma merged_dicts base_dict update_dict :
  merged (Some (YDict base_dict)) (YDict update_dict) =
  YDict (_deep_update base_dict update_dict).
Proof.
  cbn. f_equal. revert base_dict.
  induction update_dict as [|[key value] items IH]; intros base_dict; cbn; [done|].
  apply IH.
Qed.

Lemma deep_update_get base_dict update_dict key :
  distinct (map fst update_dict) = true ->
  dict_get key (_deep_update base_dict update_dict) =
  match dict_get key update_dict with
  | Some value => Some (merged (dict_get key base_dict) value)
  | None => dict_get key base_dict
  end.
Proof.
  revert base_dict.
  induction update_dict as [|[k v] items IH]; intros base_dict Hd; [done|].
  cbn [map fst] in Hd. apply distinct_cons in Hd as [Hk Hd].
  cbn [_deep_update dict_get]. rewrite IH by done.
  destruct (String.eqb_spec k key) as [->|Hne].
  - apply dict_get_None in Hk. rewrite Hk. apply dict_get_set_eq.
  - by rewrite dict_get_set_ne.
Qed.

(** X11: [_deep_update] merges key by key.  After the call, a key that
    the update does not have holds what it held; a key that the update
    has holds the update's value, unless that value and the old one are
    both dictionaries, in which case it holds the old dictionary
    updated in the same way. *)
Theorem deep_update_lookup base_dict update_dict key :
  distinct (map fst update_dict) = true ->
  dict_get key (_deep_update base_dict update_dict) =
  match dict_get key update_dict with
  | None => dict_get key base_dict
  | Some value =>
    match dict_get key base_dict, value with
    | Some (YDict old_items), YDict new_items =>
      Some (YDict (_deep_update old_items new_items))
    | _, _ => Some value
    end
  end.
Proof.
  intros Hd. rewrite deep_update_get by done.
  destruct (dict_get key update_dict) as [value|]; [|done].
  destruct (dict_get key base_dict) as [[| |old_items]|], value as [| |new_items];
    try reflexivity.
  by rewrite merged_dicts.
Qed.

Lemma deep_update_lookup_witness :
  dict_get "gitops"
    (_deep_update default_config_dict [("gitops", section [("branch", SStr "release")])]) =
  Some (section [("repository", SStr "https://github.com/pitchey/pitchey-gitops.git");
                 ("branch", SStr "release");
                 ("applications_path", SStr "applications");
                 ("ssh_key_path", SStr "/etc/deployment/ssh-key")]).
Proof.
  rewrite (deep_update_lookup default_config_dict
             [("gitops", section [("branch", SStr "release")])] "gitops").
  - reflexivity.
  - reflexivity.
Defined.

Lemma deep_update_keys base_dict update_dict :
  exists added,
    map fst (_deep_update base_dict update_dict) = map fst base_dict ++ added /\
    (forall key, In key added -> In key (map fst update_dict) /\ ~ In key (map fst base_dict)) /\
    (distinct (map fst base_dict) = true ->
     distinct (map fst (_deep_update base_dict update_dict)) = true).
Proof.
  revert base_dict.
  induction update_dict as [|[k v] items IH]; intros base_dict; cbn [_deep_update].
  - exists []. rewrite app_nil_r. split; [done|]. split; [intros key []|done].
  - destruct (IH (dict_set k (merged (dict_get k base_dict) v) base_dict))
      as (added & Hkeys & Hadded & Hdist).
    rewrite keys_dict_set in Hkeys, Hadded, Hdist.
    destruct (dict_get k base_dict) as [old|] eqn:Hk.
    + exists added. split; [done|]. split; [|done].
      intros key Hin. destruct (Hadded key Hin) as [H1 H2]. split; [by right|done].
    + exists (k :: added). split; [by rewrite Hkeys, <- app_assoc|]. split.
      * intros key [<-|Hin].
        -- split; [by left|]. by apply dict_get_None.
        -- destruct (Hadded key Hin) as [H1 H2]. split; [by right|].
           intros H. apply H2. apply in_or_app. by left.
      * intros Hb. apply Hdist.
        apply dict_get_None in Hk. clear -Hb Hk.
        induction (map fst base_dict) as [|x xs IHx]; [done|].
        apply distinct_cons in Hb as [Hx Hxs]. cbn [app]. apply distinct_cons. split.
        -- intros Hin. apply in_app_or in Hin as [?|[->|[]]]; [done|].
           apply Hk. by left.
        -- apply IHx; [|done]. intros Hin. apply Hk. by right.
Qed.

(** X12: [_deep_update] removes nothing and moves nothing at the level
    it is called on: the keys of the base stay, in their order, the keys
    that are new come after them and are keys of the update, and no key
    appears twice if none did before. *)
Theorem deep_update_keeps_keys base_dict update_dict :
  exists added,
    map fst (_deep_update base_dict update_dict) = map fst base_dict ++ added /\
    (forall key, In key added -> In key (map fst update_dict) /\ ~ In key (map fst base_dict)) /\
    (distinct (map fst base_dict) = true ->
     distinct (map fst (_deep_update base_dict update_dict)) = true).
Proof. apply deep_update_keys. Qed.

Lemma get_path_nested_diverges path other value :
  diverges path other = true -> get_path other (nested path value) = None.
Proof.
  revert other. induction path as [|k path IH]; intros [|k' other]; cbn; try done.
  destruct (String.eqb k k'); [apply IH|done].
Qed.

Lemma merged_not_dict old value :
  (forall items, old <> Some (YDict items)) -> merged old value = value.
Proof. intros H. destruct old as [[| |items]|], value; try reflexivity. by destruct (H items). Qed.

Lemma merged_nested_frame path : forall old value other,
  diverges path other = true ->
  get_path other (merged old (nested path value)) =
  match old with Some o => get_path other o | None => None end.
Proof.
  induction path as [|k path IH]; intros old value [|k' other] Hd; try done.
  cbn [nested]. cbn [diverges] in Hd.
  destruct old as [[v|l|base]|].
  - rewrite merged_not_dict by done. cbn.
    destruct (String.eqb k k'); [by apply get_path_nested_diverges|done].
  - rewrite merged_not_dict by done. cbn.
    destruct (String.eqb k k'); [by apply get_path_nested_diverges|done].
  - rewrite merged_dicts. cbn [_deep_update get_path].
    destruct (String.eqb_spec k k') as [<-|Hne].
    + rewrite dict_get_set_eq, IH by done. by destruct (dict_get k base).
    + by rewrite dict_get_set_ne.
  - rewrite merged_not_dict by done. cbn.
    destruct (String.eqb k k'); [by apply get_path_nested_diverges|done].
Qed.

Lemma merged_nested_at path : forall o old value,
  get_path path o = Some old ->
  get_path path (merged (Some o) (nested path value)) = Some (merged (Some old) value).
Proof.
  induction path as [|k path IH]; intros o old value H; cbn in H.
  - by injection H as ->.
  - destruct o as [| |base]; try done.
    destruct (dict_get k base) as [o'|] eqn:Hk; [|done].
    cbn [nested]. rewrite merged_dicts. cbn [_deep_update get_path].
    rewrite dict_get_set_eq, Hk. by apply IH.
Qed.

(** X13: an update that names one setting by its path,
    [{k1: {k2: ... value}}], changes that setting alone.  Whatever the
    base holds, every path that parts ways with the path of the update
    reads after [_deep_update] what it read before; and if the path of
    the update leads to a value in the base, it leads afterwards to
    [value] (merged into the old value where both are dictionaries). *)
Theorem override_one_setting base_dict key path value :
  let result := YDict (_deep_update base_dict [(key, nested path value)]) in
  (forall other, diverges (key :: path) other = true ->
     get_path other result = get_path other (YDict base_dict)) /\
  (forall old, get_path (key :: path) (YDict base_dict) = Some old ->
     get_path (key :: path) result = Some (merged (Some old) value)).
Proof.
  cbv zeta.
  rewrite <- merged_dicts.
  change (YDict [(key, nested path value)]) with (nested (key :: path) value).
  split.
  - intros other Hd. by rewrite merged_nested_frame.
  - intros old H. by apply merged_nested_at.
Qed.

Lemma yaml_induction (P : yaml -> Prop) :
  (forall v, P (YScalar v)) ->
  (forall items, P (YList items)) ->
  (forall items, Forall (fun item => P (snd item)) items -> P (YDict items)) ->
  forall y, P y.
Proof.
  intros Hs Hl Hd. fix IH 1. intros [v|items|items].
  - apply Hs.
  - apply Hl.
  - apply Hd. induction items as [|[k y] items IHitems]; constructor; [apply IH|exact IHitems].
Qed.

(** A dictionary that already holds, under every key of the update, a
    value that merging the update's value into leaves alone, is left
    alone by [_deep_update]. *)
Lemma deep_update_fixed update_dict : forall base_dict,
  Forall (fun item =>
            exists x, dict_get (fst item) base_dict = Some x /\
                      merged (Some x) (snd item) = x) update_dict ->
  _deep_update base_dict update_dict = base_dict.
Proof.
  induction update_dict as [|[k v] items IH]; intros base_dict H; [done|].
  apply Forall_cons in H as [(x & Hx & Hm) H]. cbn in Hx, Hm. cbn [_deep_update].
  rewrite Hx, Hm, dict_set_same by done. by apply IH.
Qed.

Lemma well_formed_dict items :
  well_formed (YDict items) = true <->
  distinct (map fst items) = true /\ Forall (fun item => well_formed (snd item) = true) items.
Proof.
  cbn. rewrite andb_true_iff, forallb_forall, Forall_forall.
  split; intros [Hd Hw]; (split; [done|]); intros [k v] Hin; cbn.
  - apply (Hw (k, v)). by apply list_elem_of_In.
  - apply (Hw (k, v)). by apply list_elem_of_In.
Qed.

Lemma distinct_get items : distinct (map fst items) = true ->
  Forall (fun item => dict_get (fst item) items = Some (snd item)) items.
Proof.
  induction items as [|[k v] items IH]; intros Hd; [done|].
  cbn [map fst] in Hd. apply distinct_cons in Hd as [Hk Hd]. constructor.
  - cbn. by rewrite String.eqb_refl.
  - specialize (IH Hd). eapply Forall_impl; [exact IH|]. intros [k' v'] Hin'. cbn in *.
    destruct (String.eqb_spec k k') as [->|]; [|done].
    exfalso. apply Hk. apply dict_get_In in Hin'.
    change k' with (fst (k', v')). by apply in_map.
Qed.

Lemma merged_self value : well_formed value = true -> merged (Some value) value = value.
Proof.
  induction value as [v|items|items IH] using yaml_induction; try done.
  intros Hw. apply well_formed_dict in Hw as [Hd Hw].
  rewrite merged_dicts. f_equal. apply deep_update_fixed.
  pose proof (distinct_get items Hd) as Hget.
  rewrite Forall_forall in IH, Hw, Hget. apply Forall_forall. intros item Hin.
  exists (snd item). split; [by apply Hget|]. apply IH; [done|by apply Hw].
Qed.

Lemma merged_twice value :
  well_formed value = true ->
  forall old, merged (Some (merged old value)) value = merged old value.
Proof.
  induction value as [v|items|items IH] using yaml_induction.
  - intros _ old. by destruct old as [[| |?]|].
  - intros _ old. by destruct old as [[| |?]|].
  - intros Hw old.
    assert (Hself : merged (Some (YDict items)) (YDict items) = YDict items)
      by (by apply merged_self).
    destruct old as [[v|l|base]|];
      [by rewrite (merged_not_dict (Some (YScalar v))) by done
      |by rewrite (merged_not_dict (Some (YList l))) by done
      |
      |by rewrite (merged_not_dict None) by done].
    apply well_formed_dict in Hw as [Hd Hw].
    rewrite !merged_dicts. f_equal. apply deep_update_fixed.
    rewrite Forall_forall in IH, Hw. apply Forall_forall. intros [k v] Hin.
    exists (merged (dict_get k base) v). cbn. split.
    + rewrite deep_update_get by done.
      pose proof (distinct_get items Hd) as Hget. rewrite Forall_forall in Hget.
      pose proof (Hget (k, v) Hin) as Hkv. cbn in Hkv. by rewrite Hkv.
    + apply (IH (k, v) Hin). by apply (Hw (k, v)).
Qed.

(** X14: [_deep_update] is idempotent: applying an update a second time
    changes nothing, at any depth, for every update whose dictionaries
    have distinct keys. *)
Theorem deep_update_idempotent base_dict update_dict :
  well_formed (YDict update_dict) = true ->
  _deep_update (_deep_update base_dict update_dict) update_dict =
  _deep_update base_dict update_dict.
Proof.
  intros Hw.
  pose proof (merged_twice (YDict update_dict) Hw (Some (YDict base_dict))) as H.
  rewrite !merged_dicts in H. by injection H.
Qed.

Lemma deep_update_idempotent_witness :
  _deep_update
    (_deep_update default_config_dict
       [("deployment_strategies", YDict [("canary", section [("traffic_increment", SInt 50)])])])
    [("deployment_strategies", YDict [("canary", section [("traffic_increment", SInt 50)])])] =
  _deep_update default_config_dict
    [("deployment_strategies", YDict [("canary", section [("traffic_increment", SInt 50)])])].
Proof.
  apply (deep_update_idempotent default_config_dict
           [("deployment_strategies",
             YDict [("canary", section [("traffic_increment", SInt 50)])])]).
  reflexivity.
Defined.

(** X15: [_load_config] returns the defaults when there is no file and
    when the document is empty or false; it fails only on a document
    that is true and not a mapping; and whatever the mapping holds, the
    sections of the default configuration are all still there, in their
    order and once each, with the new keys after them. *)
Theorem load_config_keeps_sections config_file :
  match _load_config config_file with
  | Ok cfg =>
    (exists added, map fst cfg = map fst default_config_dict ++ added) /\
    distinct (map fst cfg) = true /\
    (match config_file with
     | None => True
     | Some document => yaml_truthy document = false
     end -> cfg = default_config_dict)
  | Raised e =>
    exists document,
      config_file = Some document /\ yaml_truthy document = true /\
      forall items, document <> YDict items
  | OutOfFuel => False
  end.
Proof.
  assert (Hdefault : (exists added, map fst default_config_dict =
                                    map fst default_config_dict ++ added) /\
                     distinct (map fst default_config_dict) = true /\
                     (match config_file with
                      | None => True
                      | Some document => yaml_truthy document = false
                      end -> default_config_dict = default_config_dict)).
  { split; [by exists []|]. split; [reflexivity|done]. }
  unfold _load_config. destruct config_file as [document|]; [|exact Hdefault].
  destruct (yaml_truthy document) eqn:Ht; [|exact Hdefault].
  destruct document as [v|l|update_dict].
  - exists (YScalar v). split; [done|]. split; [done|]. discriminate.
  - exists (YList l). split; [done|]. split; [done|]. discriminate.
  - destruct (deep_update_keys default_config_dict update_dict) as (added & Hk & _ & Hd).
    split; [by exists added|]. split; [by apply Hd|]. discriminate.
Qed.

(** * Further properties: the strategies without a loop on traffic *)

(** The effects added to [base], read off a trace that ends in [base]. *)
Ltac added l base :=
  lazymatch l with
  | base => constr:(@nil event)
  | ?e :: ?l' => let r := added l' base in constr:(e :: r)
  end.

Ltac give_added :=
  lazymatch goal with
  | |- exists new, ?l = new ++ ?base /\ _ =>
    let n := added l base in exists n; split; [reflexivity|]
  end.

Ltac not_stopped :=
  repeat first [apply Forall_nil_2 | apply Forall_cons_2];
  try (cbn; intros [? ?]; congruence).

Ltac stopped_at_last :=
  lazymatch goal with
  | |- exists before last, ?l = before ++ [last] /\ _ =>
    exists (removelast l), (List.last l (prepare_gitops_repo, Return PNone));
    cbn [removelast List.last]; split; [reflexivity|]
  end.

(** X16: the blue-green executor never raises and follows its script:
    deploy green, wait, validate green, (without auto promotion: wait
    60 seconds,) switch the traffic, clean up blue.  It stops at the
    first call that raises and at a validation that is not true, so
    traffic is switched only after a validation that returned true and
    blue is cleaned up only after the switch returned; it returns True
    exactly if the whole script ran, and the plan's progress is then
    100.  Without auto promotion nothing but the wait stands between
    the validation and the switch. *)
Theorem blue_green_follows_its_script cfg w st :
  exists b,
    fst (_execute_blue_green_deployment cfg w st) = Ok b /\
    same_but_progress (plan st) (plan (snd (_execute_blue_green_deployment cfg w st))) /\
    (b = true ->
     progress_percentage (plan (snd (_execute_blue_green_deployment cfg w st))) = 100%Q) /\
    exists new,
      trace (snd (_execute_blue_green_deployment cfg w st)) = new ++ trace st /\
      runs_script (blue_green_script cfg) validate_green_environment b new.
Proof.
  unfold _execute_blue_green_deployment, blue_green_script, runs_script, interactions.
  unfold try_except, bind, extern, log, emit, set_progress, assign, ret.
  destruct (auto_promotion (blue_green cfg)); cbn.
  all: repeat match goal with
              | |- context [match ?r with Return _ => _ | Raise _ => _ end] =>
                destruct r as [?v|?e] eqn:?; cbn
              | |- context [truthy ?v] => destruct (truthy v) eqn:?; cbn
              end.
  all: eexists; (split; [reflexivity|]); (split; [reflexivity|]);
    (split; [first [reflexivity|discriminate]|]); give_added; cbn.
  all: try (split; [reflexivity|not_stopped]).
  all: stopped_at_last; (split; [cbn; try done|]); (split; [not_stopped|]).
  all: try (eexists; reflexivity).
Qed.

Lemma interactions_app l1 l2 : interactions (l1 ++ l2) = interactions l2 ++ interactions l1.
Proof. unfold interactions. by rewrite omap_app, rev_app_distr. Qed.

Lemma inject_Z_succ (k : nat) : (inject_Z (Z.of_nat (S k)) == inject_Z (Z.of_nat k) + 1)%Q.
Proof. rewrite Nat2Z.inj_succ, <- Z.add_1_r, inject_Z_plus. reflexivity. Qed.

Lemma progress_ladder_shift q s k :
  Forall2 Qeq (progress_ladder (q + s) s k ++ [(q + s)%Q]) (progress_ladder q s (S k)).
Proof.
  induction k as [|k IH].
  - cbn. constructor; [|constructor]. change (inject_Z 1) with 1%Q. ring.
  - cbn [progress_ladder app]. constructor; [|exact IH].
    rewrite (inject_Z_succ (S k)). ring.
Qed.

Lemma Forall2_Qeq_refl l : Forall2 Qeq l l.
Proof. induction l; constructor; [reflexivity|done]. Qed.

Lemma Forall2_Qeq_trans l1 l2 l3 : Forall2 Qeq l1 l2 -> Forall2 Qeq l2 l3 -> Forall2 Qeq l1 l3.
Proof.
  intros H. revert l3. induction H as [|x y l1 l2 Hxy H IH]; intros l3 H3.
  - by inversion H3.
  - inversion H3 as [|y' z l2' l3' Hyz H3']; subst. constructor; [by rewrite Hxy|by apply IH].
Qed.

Section service_by_service.
Variables (starting : log_record) (update : string -> call) (validate : call).
Variables (validation_failed completed : log_record) (failed : exn -> log_record).
Hypothesis update_is_not_validate : forall s, update s <> validate.

Lemma update_loop_run svcs : forall w st r st',
  for_each svcs (fun service => extern (update service) ;; add_progress_share) w st = (r, st') ->
  same_but_progress (plan st) (plan st') /\
  exists new made,
    trace st' = new ++ trace st /\
    Forall (fun i => ~ stops validate i) made /\
    Forall2 Qeq (map progress_percentage (stores new))
      (progress_ladder (progress_percentage (plan st))
         (60 / inject_Z (Z.of_nat (length (services (plan st))))) (length made)) /\
    match r with
    | Ok _ => interactions new = made /\ map fst made = map update svcs
    | Raised e =>
      exists c, interactions new = made ++ [(c, Raise e)] /\
                map fst (interactions new) `prefix_of` map update svcs
    | OutOfFuel => False
    end.
Proof using update validate update_is_not_validate.
  induction svcs as [|s svcs IH]; intros w st r st' H.
  - injection H as <- <-. split; [done|]. exists [], []. cbn.
    split; [done|]. split; [done|]. split; [constructor|done].
  - rewrite for_each_cons in H. unfold bind at 1 in H. unfold bind at 1 in H.
    unfold extern at 1 in H.
    destruct (w st (update s)) as [v|e] eqn:Hw.
    + unfold add_progress_share at 1 in H. unfold bind at 1 in H.
      unfold get_plan, set_progress, assign in H. cbn [plan trace] in H.
      apply IH in H as (Hp & new & made & Htr & Hmade & Hladder & Hr).
      cbn [plan trace progress_percentage services with_progress] in Hp, Htr, Hladder.
      split. { unfold same_but_progress in *. rewrite <- Hp. by destruct (plan st). }
      exists (new ++ [Store (with_progress
                               (progress_percentage (plan st)
                                + 60 / inject_Z (Z.of_nat (length (services (plan st)))))
                               (plan st));
                      Call (update s) (Return v)]),
             ((update s, Return v) :: made).
      split; [by rewrite Htr, <- app_assoc|].
      split. { constructor; [|done]. intros [Hc _]. by apply (update_is_not_validate s). }
      split.
      { rewrite stores_app, map_app. cbn [stores omap map length].
        eapply Forall2_Qeq_trans; [|apply progress_ladder_shift].
        apply Forall2_app; [exact Hladder|]. cbn. constructor; [reflexivity|constructor]. }
      rewrite interactions_app. change (interactions [Store _; Call _ _]) with
        [(update s, Return v)].
      destruct r as [[]|e|]; [|..|done].
      * destruct Hr as [-> Hm]. split; [done|]. cbn. by rewrite Hm.
      * destruct Hr as (c & -> & Hpre). exists c. split; [done|]. cbn.
        by apply prefix_cons.
    + injection H as <- <-. split; [done|].
      exists [Call (update s) (Raise e)], []. cbn.
      split; [done|]. split; [done|]. split; [constructor|].
      exists (update s). split; [done|]. apply prefix_cons, prefix_nil.
Qed.

Lemma service_by_service_run w st :
  let run := service_by_service starting update validate validation_failed completed failed
               w st in
  exists b,
    fst run = Ok b /\
    same_but_progress (plan st) (plan (snd run)) /\
    (b = true -> progress_percentage (plan (snd run)) = 100%Q) /\
    exists new,
      trace (snd run) = new ++ trace st /\
      runs_script (map update (services (plan st)) ++ [validate]) validate b new /\
      Forall2 Qeq (map progress_percentage (stores new))
        (progress_steps (plan st) (pred (length (interactions new))) b).
Proof using update validate update_is_not_validate.
  cbv zeta. unfold service_by_service.
  set (body := fun service : string => (extern (update service) ;; add_progress_share)).
  unfold try_except, bind, log, emit, get_plan, set_progress, assign, ret. cbn.
  match goal with
  | |- context [for_each ?l body w ?s] => destruct (for_each l body w s) as [r1 s1] eqn:Hloop
  end.
  apply update_loop_run in Hloop as (Hp & new & made & Htr & Hmade & Hladder & Hr).
  cbn in Hp, Htr, Hladder.
  assert (Hp' : same_but_progress (plan st) (plan s1)).
  { unfold same_but_progress in *. rewrite <- Hp. by destruct (plan st). }
  assert (Hset : forall x, same_but_progress (plan st) (with_progress x (plan s1)))
    by (intros x; by apply same_but_progress_set).
  destruct r1 as [[]|e|]; [|..|done].
  - destruct Hr as [Hi Hm]. unfold extern. cbn [plan trace].
    assert (Hk : length made = length (services (plan st)))
      by (by rewrite <- (length_map fst), Hm, length_map).
    destruct (w _ validate) as [v|e] eqn:Hv; [destruct (truthy v) eqn:Ht|]; cbn.
    + exists true. split; [done|]. split; [by apply same_but_progress_set|]. split; [done|].
      exists ([Log completed; Store (with_progress 100 (with_progress 90 (plan s1)));
               Call validate (Return v); Store (with_progress 90 (plan s1))]
              ++ new ++ [Store (with_progress 20 (plan st)); Log starting]).
      split; [rewrite Htr; same_trace|].
      unfold runs_script; cbv beta zeta iota.
      rewrite !interactions_app, !stores_app, !map_app, Hi.
      change (interactions [_; _; _; _]) with [(validate, Return v)].
      change (interactions [_; _]) with (@nil (call * reply)).
      cbn [app]. split.
      * rewrite Hm. split; [done|].
        apply Forall_app_2; [done|]. constructor; [|done]. intros [_ Hf]. congruence.
      * unfold progress_steps. rewrite length_app, Nat.add_1_r. cbn [pred length].
        rewrite Hk, Nat.eqb_refl. cbn. constructor; [reflexivity|]. constructor; [reflexivity|].
        rewrite Hk in Hladder. apply Forall2_app; [done|]. constructor; [reflexivity|constructor].
    + exists false. split; [done|]. split; [by apply Hset|]. split; [done|].
      exists ([Log validation_failed; Call validate (Return v);
               Store (with_progress 90 (plan s1))]
              ++ new ++ [Store (with_progress 20 (plan st)); Log starting]).
      split; [rewrite Htr; same_trace|].
      unfold runs_script; cbv beta zeta iota.
      rewrite !interactions_app, !stores_app, !map_app, Hi.
      change (interactions [_; _; _]) with [(validate, Return v)].
      change (interactions [_; _]) with (@nil (call * reply)).
      cbn [app]. split.
      * exists made, (validate, Return v).
        split; [done|]. split; [done|]. split; [done|]. by rewrite Hm.
      * unfold progress_steps. rewrite length_app, Nat.add_1_r. cbn [pred length].
        rewrite Hk, Nat.eqb_refl. cbn. constructor; [reflexivity|].
        rewrite Hk in Hladder. apply Forall2_app; [done|]. constructor; [reflexivity|constructor].
    + exists false. split; [done|]. split; [by apply Hset|]. split; [done|].
      exists ([Log (failed e); Call validate (Raise e);
               Store (with_progress 90 (plan s1))]
              ++ new ++ [Store (with_progress 20 (plan st)); Log starting]).
      split; [rewrite Htr; same_trace|].
      unfold runs_script; cbv beta zeta iota.
      rewrite !interactions_app, !stores_app, !map_app, Hi.
      change (interactions [_; _; _]) with [(validate, Raise e)].
      change (interactions [_; _]) with (@nil (call * reply)).
      cbn [app]. split.
      * exists made, (validate, Raise e).
        split; [done|]. split; [done|]. split; [done|]. by rewrite Hm.
      * unfold progress_steps. rewrite length_app, Nat.add_1_r. cbn [pred length].
        rewrite Hk, Nat.eqb_refl. cbn. constructor; [reflexivity|].
        rewrite Hk in Hladder. apply Forall2_app; [done|]. constructor; [reflexivity|constructor].
  - destruct Hr as (c & Hi & Hpre). cbn.
    exists false. split; [done|]. split; [done|]. split; [done|].
    exists ([Log (failed e)] ++ new ++ [Store (with_progress 20 (plan st)); Log starting]).
    split; [rewrite Htr; same_trace|].
    unfold runs_script; cbv beta zeta iota.
    rewrite !interactions_app, !stores_app, !map_app, Hi.
    change (interactions [_]) with (@nil (call * reply)).
    change (interactions [_; _]) with (@nil (call * reply)).
    cbn [app]. rewrite app_nil_r. rewrite Hi in Hpre. split.
    + exists made, (c, Raise e).
      split; [done|]. split; [done|]. split; [done|].
      apply prefix_app_r. cbn [map app]. by rewrite app_nil_r.
    + unfold progress_steps. rewrite length_app, Nat.add_1_r. cbn [pred length].
      apply prefix_length in Hpre. rewrite !length_map, length_app in Hpre. cbn in Hpre.
      destruct (Nat.eqb_spec (length made) (length (services (plan st)))); [lia|].
      cbn. apply Forall2_app; [done|]. constructor; [reflexivity|constructor].
Qed.
End service_by_service.

(** X17: the rolling executor never raises and follows its script: it
    updates the services one by one in the order of the plan and then
    validates.  It stops at the first update that raises, so the
    validation is called only after every service has been updated; it
    returns True exactly if the validation returned something true, and
    the plan's progress is then 100.  The progress it assigns is 20,
    then one more share of [60 / len(services)] after each update, then
    90 before the validation and 100 after it. *)
Theorem rolling_follows_its_script cfg w st :
  let run := _execute_rolling_deployment cfg w st in
  exists b,
    fst run = Ok b /\
    same_but_progress (plan st) (plan (snd run)) /\
    (b = true -> progress_percentage (plan (snd run)) = 100%Q) /\
    exists new,
      trace (snd run) = new ++ trace st /\
      runs_script (rolling_script (plan st)) validate_rolling_deployment b new /\
      Forall2 Qeq (map progress_percentage (stores new))
        (progress_steps (plan st) (pred (length (interactions new))) b).
Proof.
  apply (service_by_service_run Starting_rolling_deployment update_service_rolling
           validate_rolling_deployment Rolling_deployment_validation_failed
           Rolling_deployment_completed Rolling_deployment_failed).
  discriminate.
Qed.

(** X18: the immediate executor has the same shape: the services in the
    order of the plan, then the validation, stopping at the first call
    that raises; True exactly after a validation that returned
    something true; progress 20, a share of [60 / len(services)] per
    service, 90, 100. *)
Theorem immediate_follows_its_script w st :
  let run := _execute_immediate_deployment w st in
  exists b,
    fst run = Ok b /\
    same_but_progress (plan st) (plan (snd run)) /\
    (b = true -> progress_percentage (plan (snd run)) = 100%Q) /\
    exists new,
      trace (snd run) = new ++ trace st /\
      runs_script (immediate_script (plan st)) validate_immediate_deployment b new /\
      Forall2 Qeq (map progress_percentage (stores new))
        (progress_steps (plan st) (pred (length (interactions new))) b).
Proof.
  apply (service_by_service_run Starting_immediate_deployment update_service_immediate
           validate_immediate_deployment Immediate_deployment_validation_failed
           Immediate_deployment_completed Immediate_deployment_failed).
  discriminate.
Qed.

Lemma share_bound (k n : nat) :
  (k <= n)%nat ->
  (0 <= inject_Z (Z.of_nat k) * (60 / inject_Z (Z.of_nat n)) <= 60)%Q.
Proof.
  intros Hk. destruct n as [|n].
  - assert (k = 0)%nat as -> by lia. split; unfold Qle; cbn; lia.
  - assert (Hn : (0 < inject_Z (Z.of_nat (S n)))%Q).
    { change 0%Q with (inject_Z 0). rewrite <- Zlt_Qlt. lia. }
    assert (Hkq : (0 <= inject_Z (Z.of_nat k))%Q).
    { change 0%Q with (inject_Z 0). rewrite <- Zle_Qle. lia. }
    assert (Hkn : (inject_Z (Z.of_nat k) <= inject_Z (Z.of_nat (S n)))%Q).
    { rewrite <- Zle_Qle. lia. }
    assert (E : (inject_Z (Z.of_nat k) * (60 / inject_Z (Z.of_nat (S n))) ==
                 (60 * inject_Z (Z.of_nat k)) / inject_Z (Z.of_nat (S n)))%Q).
    { field. intros H0. rewrite H0 in Hn. by apply Qlt_irrefl in Hn. }
    rewrite E. split.
    + apply Qle_shift_div_l; [done|]. rewrite Qmult_0_l.
      apply Qmult_le_0_compat; [|done]. unfold Qle; cbn; lia.
    + apply Qle_shift_div_r; [done|]. apply Qmult_le_l; [reflexivity|done].
Qed.

Lemma climbs_ladder s k : forall top,
  (0 <= s)%Q ->
  (20 + inject_Z (Z.of_nat k) * s <= top)%Q ->
  climbs_to top (progress_ladder 20 s k ++ [20%Q]).
Proof.
  induction k as [|k IH]; intros top Hs Htop.
  - cbn in *. split; [|apply Qle_refl]. rewrite Qmult_0_l, Qplus_0_r in Htop. exact Htop.
  - cbn [progress_ladder app climbs_to]. split; [exact Htop|].
    apply IH; [done|]. rewrite (inject_Z_succ k).
    apply Qplus_le_r. rewrite Qmult_plus_distr_l, Qmult_1_l.
    rewrite <- (Qplus_0_r (inject_Z (Z.of_nat k) * s)) at 1.
    by apply Qplus_le_r.
Qed.

Lemma climbs_to_Qeq l l' : Forall2 Qeq l l' ->
  forall top top', (top == top')%Q -> climbs_to top' l' -> climbs_to top l.
Proof.
  induction 1 as [|x y l l' Hxy H IH]; intros top top' Ht; cbn.
  - by rewrite Ht.
  - intros [Hy Hl]. split; [by rewrite Hxy, Ht|]. by apply (IH x y).
Qed.

Lemma progress_steps_climb p k b :
  (k <= length (services p))%nat -> climbs_to 100 (progress_steps p k b).
Proof.
  intros Hk. unfold progress_steps.
  destruct (share_bound k _ Hk) as [H0 H60].
  assert (Hs : (0 <= 60 / inject_Z (Z.of_nat (length (services p))))%Q).
  { clear. destruct (length (services p)) as [|n]; [by vm_compute|].
    apply Qle_shift_div_l; [|by vm_compute].
    change 0%Q with (inject_Z 0). rewrite <- Zlt_Qlt. lia. }
  assert (H80 : forall top, (80 <= top)%Q ->
                (20 + inject_Z (Z.of_nat k)
                      * (60 / inject_Z (Z.of_nat (length (services p)))) <= top)%Q).
  { intros top Htop. eapply Qle_trans; [|exact Htop].
    change 80%Q with (20 + 60)%Q. by apply Qplus_le_r. }
  destruct b, (Nat.eqb k (length (services p))); cbn [app climbs_to].
  - split; [apply Qle_refl|]. split; [unfold Qle; cbn; lia|].
    apply climbs_ladder; [done|]. apply H80. unfold Qle; cbn; lia.
  - split; [apply Qle_refl|].
    apply climbs_ladder; [done|]. apply H80. unfold Qle; cbn; lia.
  - split; [unfold Qle; cbn; lia|].
    apply climbs_ladder; [done|]. apply H80. unfold Qle; cbn; lia.
  - apply climbs_ladder; [done|]. apply H80. unfold Qle; cbn; lia.
Qed.

Lemma runs_script_length script gate b new :
  runs_script script gate b new ->
  (pred (length (interactions new)) <= pred (length script))%nat.
Proof.
  unfold runs_script. cbv zeta. destruct b.
  - intros [<- _]. by rewrite length_map.
  - intros (before & last & _ & _ & _ & Hpre). apply prefix_length in Hpre.
    rewrite length_map in Hpre. lia.
Qed.

(** X19: in a rolling and in an immediate run the progress of the plan
    never goes back and stays between 20 and 100: the first value the
    executor assigns is at least 20, every later value is at least the
    one assigned before it, and the last one is at most 100. *)
Theorem progress_by_shares_climbs cfg w st :
  (exists new,
      trace (snd (_execute_rolling_deployment cfg w st)) = new ++ trace st /\
      climbs_to 100 (map progress_percentage (stores new))) /\
  (exists new,
      trace (snd (_execute_immediate_deployment w st)) = new ++ trace st /\
      climbs_to 100 (map progress_percentage (stores new))).
Proof.
  split.
  - destruct (service_by_service_run Starting_rolling_deployment update_service_rolling
                validate_rolling_deployment Rolling_deployment_validation_failed
                Rolling_deployment_completed Rolling_deployment_failed
                ltac:(discriminate) w st)
      as (b & _ & _ & _ & new & Htr & Hscript & Hsteps).
    exists new. split; [exact Htr|].
    apply (climbs_to_Qeq _ _ Hsteps 100%Q 100%Q); [reflexivity|].
    apply progress_steps_climb. apply runs_script_length in Hscript.
    by rewrite length_app, length_map, Nat.add_1_r in Hscript.
  - destruct (service_by_service_run Starting_immediate_deployment update_service_immediate
                validate_immediate_deployment Immediate_deployment_validation_failed
                Immediate_deployment_completed Immediate_deployment_failed
                ltac:(discriminate) w st)
      as (b & _ & _ & _ & new & Htr & Hscript & Hsteps).
    exists new. split; [exact Htr|].
    apply (climbs_to_Qeq _ _ Hsteps 100%Q 100%Q); [reflexivity|].
    apply progress_steps_climb. apply runs_script_length in Hscript.
    by rewrite length_app, length_map, Nat.add_1_r in Hscript.
Qed.

(** * Further properties: rollback and the steps around the strategy *)

Section relaying.
Lemma relays_ret {A} (a : A) : relays (ret a).
Proof. intros w st. cbn. split; [done|]. exists []. split; [done|]. split; [done|]. intros c e []. Qed.

Lemma relays_get_plan : relays get_plan.
Proof. intros w st. cbn. split; [done|]. exists []. split; [done|]. split; [done|]. intros c e []. Qed.

Lemma relays_log l : cluster_effect (Log l) -> relays (log l).
Proof.
  intros Hl w st. cbn. split; [done|]. exists [Log l]. split; [done|].
  split; [by constructor|]. intros c e [H|[]]. discriminate.
Qed.

Lemma relays_extern c : c <> slack_post -> relays (extern c).
Proof.
  intros Hc w st. unfold extern. destruct (w st c) as [v|e] eqn:Hw; cbn.
  - split; [done|]. exists [Call c (Return v)]. split; [done|].
    split; [constructor; [destruct c; cbn; try exact I; by destruct Hc|done]|]. intros c' e' [H|[]]. discriminate.
  - split; [done|]. exists [Call c (Raise e)]. split; [done|].
    split; [constructor; [destruct c; cbn; try exact I; by destruct Hc|done]|]. exists c. by left.
Qed.

Lemma relays_bind {A B} (m : M A) (k : A -> M B) :
  relays m -> (forall a, relays (k a)) -> relays (bind m k).
Proof.
  intros Hm Hk w st. unfold bind. destruct (Hm w st) as (Hp & io & Htr & Hio & Hr).
  destruct (m w st) as [[a|e|] st1]; cbn in *.
  - destruct (Hk a w st1) as (Hp2 & io2 & Htr2 & Hio2 & Hr2).
    split; [by rewrite Hp2|]. exists (io2 ++ io).
    split; [by rewrite Htr2, Htr, app_assoc|]. split; [by apply Forall_app_2|].
    destruct (fst (k a w st1)) as [b|e|]; [| |done].
    + intros c e Hin. apply in_app_or in Hin as [Hin|Hin]; [by apply (Hr2 c e)|by apply (Hr c e)].
    + destruct Hr2 as (c & Hin). exists c. apply in_or_app. by left.
  - split; [done|]. by exists io.
  - done.
Qed.

Lemma relays_for_each {A} (xs : list A) (body : A -> M unit) :
  (forall x, relays (body x)) -> relays (for_each xs body).
Proof.
  intros Hbody. induction xs as [|x xs IH].
  - apply relays_ret.
  - rewrite for_each_cons. apply relays_bind; [apply Hbody|]. intros _. exact IH.
Qed.
End relaying.

Ltac relays_auto :=
  repeat first
    [ apply relays_bind; [|intros ?]
    | apply relays_for_each; intros ?
    | apply relays_ret
    | apply relays_get_plan
    | apply relays_extern; discriminate
    | apply relays_log; exact I ].

Lemma relays_rollback_canary : relays _rollback_canary_deployment.
Proof.
  unfold _rollback_canary_deployment, _route_traffic_to_canary, _apply_kubernetes_manifest.
  relays_auto.
Qed.

Lemma notification_run cfg w st :
  _send_rollback_notification cfg w st =
  (Ok tt, {| plan := plan st; trace := notice_of cfg (w st slack_post) ++ trace st |}).
Proof.
  unfold _send_rollback_notification, notice_of.
  destruct (String.eqb (slack_webhook cfg) ""); cbn; [by destruct st|].
  unfold try_except, bind, extern. destruct (w st slack_post) as [v|e]; cbn; [|done].
  unfold notification_log.
  repeat match goal with
         | |- context [match ?x with _ => _ end] => is_var x; destruct x; try reflexivity
         end.
Qed.

(** X20: [_execute_rollback] is best effort.  It sets the status to
    ROLLED_BACK before it does anything else, changes nothing else of
    the plan, and always returns: if the strategy's rollback raises, the
    exception is logged and the status stays ROLLED_BACK.  The
    notification is sent only after a rollback that raised nothing, and
    a notification that fails or raises does not fail the rollback. *)
Theorem rollback_is_best_effort cfg w st :
  let run := _execute_rollback cfg w st in
  fst run = Ok tt /\
  plan (snd run) = with_status ROLLED_BACK (plan st) /\
  exists io,
    trace (snd run) =
      io ++ Store (with_status ROLLED_BACK (plan st)) :: Log Starting_rollback :: trace st /\
    ((exists r action,
         io = Log Rollback_completed :: notice_of cfg r ++ action /\
         Forall cluster_effect action /\
         forall c e, ~ In (Call c (Raise e)) action)
     \/
     (exists e action,
         io = Log (Rollback_failed e) :: action /\
         Forall cluster_effect action /\
         exists c, In (Call c (Raise e)) action)).
Proof.
  cbv zeta. destruct (_execute_rollback cfg w st) as [r st'] eqn:H. cbn [fst snd].
  pose (action := fun p : DeploymentPlan =>
                   match strategy p with
                   | CANARY => _rollback_canary_deployment
                   | BLUE_GREEN => extern rollback_blue_green_deployment ;; ret tt
                   | _ => extern rollback_standard_deployment ;; ret tt
                   end).
  assert (Haction : forall p, relays (action p)).
  { intros p. unfold action. destruct (strategy p);
      first [apply relays_rollback_canary|relays_auto]. }
  unfold _execute_rollback in H. do 2 step H. unfold try_except in H. step H.
  unfold bind at 1 in H.
  fold (action (with_status ROLLED_BACK (plan st))) in H.
  match type of H with
  | context [action ?p w ?s] =>
    destruct (Haction p w s) as (Hp & io & Htr & Hio & Hr);
    destruct (action p w s) as [[[]|e|] s1]
  end; cbn in Hp, Htr, Hr; [| |done].
  - unfold bind at 1 in H. rewrite notification_run in H. cbn in H.
    injection H as <- <-. cbn. split; [done|]. split; [done|].
    exists (Log Rollback_completed :: notice_of cfg (w s1 slack_post) ++ io).
    split; [rewrite Htr; same_trace|]. left. by exists (w s1 slack_post), io.
  - cbn in H. injection H as <- <-. cbn. split; [done|]. split; [done|].
    exists (Log (Rollback_failed e) :: io). split; [by rewrite Htr|]. right. by exists e, io.
Qed.

Lemma rollback_events cfg : sound (fun _ => True) rollback_event (_execute_rollback cfg).
Proof. sound_auto ltac:(try (cbn; tauto); try (intros; subst; cbn; tauto)). Qed.

(** X21: if fetching the GitOps repository fails, the deployment stops
    there.  No step of the strategy is made (the only calls that follow
    are those of the rollback, if the plan asks for one); the plan is
    archived as FAILED, or ROLLED_BACK if it asks for a rollback, with
    the text of the exception as its error message and its progress as
    it was; and the call returns False. *)
Theorem failed_preparation_stops_the_deployment self pid plan0 w fuel e :
  active_deployments self !! pid = Some plan0 ->
  w {| plan := with_status IN_PROGRESS plan0;
       trace := [Store (with_status IN_PROGRESS plan0); Log Starting_deployment] |}
    prepare_gitops_repo = Raise e ->
  let run := execute_deployment self pid w fuel in
  let failed := with_error_message (Some (str e)) (with_status FAILED plan0) in
  returns run = Ok false /\
  deployment_history (after run) =
    deployment_history self
    ++ [if rollback_on_failure plan0 then with_status ROLLED_BACK failed else failed] /\
  exists io,
    effects run =
      io ++ [Log (Deployment_error e); Store failed; Store (with_status FAILED plan0);
             Log (Failed_to_prepare_GitOps_repository e);
             Call prepare_gitops_repo (Raise e);
             Store (with_status IN_PROGRESS plan0); Log Starting_deployment] /\
    Forall rollback_event io /\
    (rollback_on_failure plan0 = false -> io = []).
Proof.
  intros Hplan Hw. cbv zeta. unfold execute_deployment. rewrite Hplan.
  match goal with
  | |- context [let '(r, st) := ?m ?w ?s in _] => destruct (m w s) as [r st] eqn:H
  end.
  do 2 step H. unfold execute_body, try_except at 1 in H.
  unfold bind at 1 in H. unfold _prepare_gitops_repo, try_except at 1 in H.
  unfold bind at 1 in H. unfold extern at 1 in H. rewrite Hw in H.
  cbn [with_status] in H. do 5 step H. cbn [rollback_on_failure with_error_message with_status] in H.
  destruct (rollback_on_failure plan0) eqn:Hrb.
  - destruct (rollback_run _ _ _ _ _ H) as (-> & Hp & _).
    destruct (sound_run _ _ _ _ _ _ _ (rollback_events _) H I) as (_ & io & Htr & Hio).
    cbn in Hp, Htr. cbn. rewrite Hp, Htr. split; [done|]. split; [done|].
    exists io. split; [done|]. split; [done|done].
  - injection H as <- <-. cbn. split; [done|]. split; [done|]. by exists [].
Qed.

Lemma failed_preparation_stops_the_deployment_witness :
  returns (execute_deployment (instance_with (pending_plan ROLLING_UPDATE ["video-processor"] true))
             "deploy_1700000000_demo" no_repository 0) = Ok false.
Proof.
  destruct (failed_preparation_stops_the_deployment
              (instance_with (pending_plan ROLLING_UPDATE ["video-processor"] true))
              "deploy_1700000000_demo"
              (pending_plan ROLLING_UPDATE ["video-processor"] true)
              no_repository 0 (OtherError "git pull failed")) as [H _].
  - reflexivity.
  - reflexivity.
  - exact H.
Defined.

(** * Further properties: the metrics validation *)

Lemma validation_run cfg w st :
  let r1 := w st (prometheus_query error_rate_query) in
  let st1 := {| plan := plan st;
                trace := Call (prometheus_query error_rate_query) r1 :: trace st |} in
  let r2 := w st1 (prometheus_query response_time_query) in
  let run := _validate_canary_metrics cfg w st in
  fst run =
    Ok (passes (error_rate_threshold (rollback_triggers cfg)) r1
        && passes (response_time_threshold (rollback_triggers cfg)) r2) /\
  exists new,
    trace (snd run) = new ++ trace st /\
    interactions new =
      (prometheus_query error_rate_query, r1)
      :: (if passes (error_rate_threshold (rollback_triggers cfg)) r1
          then [(prometheus_query response_time_query, r2)] else []).
Proof.
  cbv zeta.
  unfold _validate_canary_metrics, try_except, bind, extern, json_of, first_value,
    passes, has_samples, log, emit, ret, raise.
  cbn. answer_queries.
  all: simplify_eq.
  all: try congruence.
  all: repeat match goal with
              | H : float_gt _ _ = _ |- _ => rewrite !H
              | H : String.eqb _ _ = _ |- _ => rewrite !H
              end; cbn.
  all: split; [reflexivity|]; eexists; split; [extends|]; reflexivity.
Qed.

(** X22: the verdict of [_validate_canary_metrics].  The error rate is
    queried first; the response time is queried only if the error rate
    passes; the result is True exactly if both replies pass, where a
    reply passes if it is a JSON body without samples to look at, or
    with a first sample that is a number not above the threshold (the
    other samples are never read).  No third call is made. *)
Theorem validation_verdict cfg w st :
  let r1 := w st (prometheus_query error_rate_query) in
  let st1 := {| plan := plan st;
                trace := Call (prometheus_query error_rate_query) r1 :: trace st |} in
  let r2 := w st1 (prometheus_query response_time_query) in
  let run := _validate_canary_metrics cfg w st in
  fst run =
    Ok (passes (error_rate_threshold (rollback_triggers cfg)) r1
        && passes (response_time_threshold (rollback_triggers cfg)) r2) /\
  exists new,
    trace (snd run) = new ++ trace st /\
    interactions new =
      (prometheus_query error_rate_query, r1)
      :: (if passes (error_rate_threshold (rollback_triggers cfg)) r1
          then [(prometheus_query response_time_query, r2)] else []).
Proof. apply validation_run. Qed.

Lemma passes_mono threshold threshold' r :
  (threshold <= threshold')%Q -> passes threshold r = true -> passes threshold' r = true.
Proof.
  intros Hle. unfold passes. destruct r as [[| | | | |d]|]; try done.
  destruct (has_samples d); [|done].
  destruct (prom_result d) as [|[x|] rest]; try done.
  unfold float_gt. destruct x as [q| |negative]; try done.
  rewrite !negb_true_iff, !negb_false_iff, !Qle_bool_iff. intros H.
  by eapply Qle_trans.
Qed.

(** X23: the validation is monotone in its thresholds: a run that
    passes keeps passing, in the same world, when the error-rate and the
    response-time threshold of the configuration are raised. *)
Theorem laxer_thresholds_keep_passing cfg w st error_rate response_time :
  (error_rate_threshold (rollback_triggers cfg) <= error_rate)%Q ->
  (response_time_threshold (rollback_triggers cfg) <= response_time)%Q ->
  fst (_validate_canary_metrics cfg w st) = Ok true ->
  fst (_validate_canary_metrics (with_thresholds error_rate response_time cfg) w st) = Ok true.
Proof.
  intros He Hr.
  destruct (validation_run cfg w st) as [-> _].
  destruct (validation_run (with_thresholds error_rate response_time cfg) w st) as [-> _].
  cbn [rollback_triggers with_thresholds error_rate_threshold response_time_threshold].
  intros H. injection H as H. apply andb_true_iff in H as [H1 H2].
  by rewrite (passes_mono _ _ _ He H1), (passes_mono _ _ _ Hr H2).
Qed.

Lemma laxer_thresholds_keep_passing_witness :
  fst (_validate_canary_metrics (with_thresholds 10 5 default_config) healthy_world
         (start bare_canary)) = Ok true.
Proof.
  apply (laxer_thresholds_keep_passing default_config healthy_world (start bare_canary) 10 5).
  - vm_compute. discriminate.
  - vm_compute. discriminate.
  - reflexivity.
Defined.

(** * Further properties: the canary strategy as written *)

Ltac never_deployed_leaf :=
  try (cbn; tauto); try (cbn; reflexivity); try (intros; subst; cbn; tauto);
  try (intros; split; [cbn; congruence|exact I]).

Lemma never_deployed_rollback cfg :
  sound (fun p => status p <> COMPLETED) never_deployed (_execute_rollback cfg).
Proof. sound_auto never_deployed_leaf. Qed.

Lemma never_deployed_prepare :
  sound (fun p => status p <> COMPLETED) never_deployed _prepare_gitops_repo.
Proof. sound_auto never_deployed_leaf. Qed.

Lemma never_deployed_handler cfg e :
  sound (fun p => status p <> COMPLETED) never_deployed
    (set_status FAILED ;;
     set_error_message (str e) ;;
     log (Deployment_error e) ;;
     let* p := get_plan in
     if rollback_on_failure p then _execute_rollback cfg else ret tt).
Proof. pose proof (never_deployed_rollback cfg). sound_auto never_deployed_leaf. Qed.

Lemma never_deployed_canary_handler e :
  sound (fun p => status p <> COMPLETED) never_deployed
    (log (Canary_deployment_failed e) ;; _rollback_canary_deployment ;; ret false).
Proof. sound_auto never_deployed_leaf. Qed.

Lemma canary_fails cfg fuel w st r st' :
  services (plan st) <> [] ->
  status (plan st) <> COMPLETED ->
  write_requires_str w ->
  _execute_canary_deployment cfg fuel w st = (r, st') ->
  (r = Ok false \/ exists e, r = Raised e) /\
  status (plan st') <> COMPLETED /\
  rollback_on_failure (plan st') = rollback_on_failure (plan st) /\
  exists io, trace st' = io ++ trace st /\ Forall never_deployed io.
Proof.
  intros Hsvcs Hst Hw H. unfold _execute_canary_deployment in H. step H.
  unfold try_except in H.
  match type of H with
  | match ?body ?w ?s with _ => _ end = _ => destruct (body w s) as [rb sb] eqn:Hb
  end.
  do 2 step Hb. unfold _deploy_canary_version in Hb at 1. step Hb.
  cbn [services with_progress] in Hb.
  destruct (services (plan st)) as [|s svcs] eqn:Es; [done|].
  rewrite for_each_cons in Hb. unfold bind at 1 in Hb. unfold bind at 1 in Hb.
  unfold bind at 1 in Hb. unfold _apply_kubernetes_manifest at 1 in Hb.
  unfold bind at 1 in Hb. unfold extern at 1 in Hb.
  match type of Hb with
  | context [w ?s0 (apply_kubernetes_manifest ?m)] =>
    destruct (Hw s0 m) as [e He]; [discriminate|]; rewrite He in Hb
  end.
  cbn in Hb. injection Hb as <- <-.
  destruct (sound_run _ _ _ _ _ _ _ (never_deployed_canary_handler e) H)
    as (Hinv & io & Htr & Hio); [by destruct (plan st)|].
  assert (Hquiet : sound (eq (with_progress 10 (plan st))) withdraws
                     (log (Canary_deployment_failed e) ;; _rollback_canary_deployment ;;
                      ret false))
    by (pose proof (withdraws_rollback_canary (with_progress 10 (plan st)));
        sound_auto withdraws_leaf).
  destruct (sound_run _ _ _ _ _ _ _ Hquiet H eq_refl) as (Hp & _).
  cbn in Htr, Hp. split; [|split; [done|split]].
  - assert (Ht : terminates (log (Canary_deployment_failed e) ;; _rollback_canary_deployment ;;
                             ret false)) by terminates_auto.
    specialize (Ht w {| plan := with_progress 10 (plan st);
                        trace := Call (apply_kubernetes_manifest
                                         (PCoroutine "_generate_canary_manifest")) (Raise e)
                                 :: Store (with_progress 10 (plan st))
                                 :: Log Starting_canary_deployment :: trace st |}).
    rewrite H in Ht. cbn in Ht.
    destruct (canary_handler_run _ _ _ _ _ H) as (_ & Hr & _).
    destruct r as [[]|e'|]; [done|by left|right; by exists e'|done].
  - rewrite <- Hp. by destruct (plan st).
  - exists (io ++ [Call (apply_kubernetes_manifest (PCoroutine "_generate_canary_manifest"))
                     (Raise e);
                   Store (with_progress 10 (plan st)); Log Starting_canary_deployment]).
    split; [rewrite Htr; same_trace|]. apply Forall_app_2; [done|].
    repeat constructor.
Qed.

Lemma canary_never_deploys self pid plan0 w fuel :
  active_deployments self !! pid = Some plan0 ->
  strategy plan0 = CANARY ->
  services plan0 <> [] ->
  write_requires_str w ->
  let run := execute_deployment self pid w fuel in
  returns run = Ok false /\ Forall never_deployed (effects run).
Proof.
  intros Hplan Hstrat Hsvcs Hw. cbv zeta. unfold execute_deployment. rewrite Hplan.
  match goal with
  | |- context [let '(r, st) := ?m ?w ?s in _] => destruct (m w s) as [r st] eqn:H
  end.
  do 2 step H.
  assert (Hend : r = Ok tt /\ status (plan st) <> COMPLETED /\
                 exists io, trace st = io ++ [Store (with_status IN_PROGRESS plan0);
                                              Log Starting_deployment] /\
                            Forall never_deployed io).
  { unfold execute_body, try_except in H.
    match type of H with
    | match ?body ?w ?s with _ => _ end = _ => destruct (body w s) as [rb sb] eqn:Hb
    end.
    step Hb.
    match type of Hb with
    | context [_prepare_gitops_repo w ?s] =>
      destruct (_prepare_gitops_repo w s) as [r1 s1] eqn:E1;
      destruct (sound_run _ _ _ _ _ _ _ never_deployed_prepare E1) as (Hinv1 & io1 & Htr1 & Hio1);
      [done|];
      destruct (sound_run _ _ _ _ _ _ _ (quiet_prepare (plan s)) E1 eq_refl) as (Hp1 & _)
    end.
    cbn in Htr1, Hp1.
    destruct r1 as [[]|e|].
    - do 2 step Hb. rewrite <- Hp1 in Hb. cbn [strategy with_status] in Hb.
      rewrite Hstrat in Hb.
      match type of Hb with
      | match ?m ?w ?s with _ => _ end = _ => destruct (m w s) as [r2 s2] eqn:E2
      end.
      destruct (canary_fails _ _ _ _ _ _ ltac:(by rewrite <- Hp1) Hinv1 Hw E2)
        as (Hr2 & Hinv2 & Hrb2 & io2 & Htr2 & Hio2).
      destruct Hr2 as [->|[e ->]].
      + do 3 step Hb. cbn [rollback_on_failure with_status] in Hb.
        destruct (rollback_on_failure (plan s2)) eqn:Hrb.
        * destruct (rollback_run _ _ _ _ _ Hb) as (-> & _).
          destruct (sound_run _ _ _ _ _ _ _ (never_deployed_rollback _) Hb)
            as (Hinv3 & io3 & Htr3 & Hio3); [done|].
          injection H as <- <-. cbn in Htr3. split; [done|]. split; [done|].
          exists (io3 ++ [Log Deployment_failed; Store (with_status FAILED (plan s2))]
                  ++ io2 ++ io1).
          split; [rewrite Htr3, Htr2, Htr1; same_trace|].
          repeat apply Forall_app_2; try done. repeat constructor.
        * injection Hb as <- <-. injection H as <- <-. cbn. split; [done|]. split; [done|].
          exists ([Log Deployment_failed; Store (with_status FAILED (plan s2))] ++ io2 ++ io1).
          split; [rewrite Htr2, Htr1; same_trace|].
          repeat apply Forall_app_2; try done. repeat constructor.
      + injection Hb as <- <-.
        destruct (failure_handler_run _ _ _ _ _ _ H) as (-> & _).
        destruct (sound_run _ _ _ _ _ _ _ (never_deployed_handler _ e) H)
          as (Hinv3 & io3 & Htr3 & Hio3); [done|].
        split; [done|]. split; [done|]. exists (io3 ++ io2 ++ io1).
        split; [rewrite Htr3, Htr2, Htr1; same_trace|].
        by repeat apply Forall_app_2.
    - injection Hb as <- <-.
      destruct (failure_handler_run _ _ _ _ _ _ H) as (-> & _).
      destruct (sound_run _ _ _ _ _ _ _ (never_deployed_handler _ e) H)
        as (Hinv3 & io3 & Htr3 & Hio3); [done|].
      split; [done|]. split; [done|]. exists (io3 ++ io1).
      split; [rewrite Htr3, Htr1; same_trace|]. by apply Forall_app_2.
    - by apply (terminates_run _ _ _ _ terminates_prepare) in E1. }
  destruct Hend as (-> & Hstatus & io & Htr & Hio). cbn. split.
  - f_equal. by destruct (status (plan st)).
  - rewrite Htr. apply Forall_app_2; [done|]. repeat constructor.
Qed.

(** X24: [_deploy_canary_version] hands [_apply_kubernetes_manifest]
    the coroutine of [_generate_canary_manifest] instead of its result.
    Where writing something that is not a string raises, a canary plan
    with at least one service therefore never gets anywhere: no canary
    is deployed, no traffic is sent to one, nothing is promoted, and
    [execute_deployment] returns False, whatever the cluster and the
    metrics answer and whatever the configuration. *)
Theorem canary_with_services_never_deploys self pid plan0 w fuel :
  active_deployments self !! pid = Some plan0 ->
  strategy plan0 = CANARY ->
  services plan0 <> [] ->
  write_requires_str w ->
  let run := execute_deployment self pid w fuel in
  returns run = Ok false /\ Forall never_deployed (effects run).
Proof. apply canary_never_deploys. Qed.

Lemma as_written_requires_str : write_requires_str as_written.
Proof.
  intros st manifest Hm. destruct manifest as [| | |s| |]; try (eexists; reflexivity).
  by destruct (Hm s).
Qed.

Lemma canary_with_services_never_deploys_witness :
  returns (execute_deployment (instance_with two_service_canary)
             (plan_id two_service_canary) as_written 0) = Ok false.
Proof.
  destruct (canary_with_services_never_deploys (instance_with two_service_canary)
              (plan_id two_service_canary) two_service_canary as_written 0) as [H _].
  - reflexivity.
  - reflexivity.
  - discriminate.
  - exact as_written_requires_str.
  - exact H.
Defined.



Lemma never_deployed_increases io : Forall never_deployed io -> increases io = [].
Proof.
  induction 1 as [|e io He Hio IH]; [done|].
  destruct e as [c r|p|l]; cbn; try done. by destruct l.
Qed.

Lemma write_checking_world_requires_str : write_requires_str write_checking_world.
Proof.
  intros st manifest Hm. destruct manifest as [| | |s| |]; try (eexists; reflexivity).
  by destruct (Hm s).
Qed.

(** C5: Scenario A of the specification as the code runs it.  The plan
    is a canary plan for two services with the default configuration
    (initial traffic 10, increment 20).  Where writing something that is
    not a string raises, as [f.write] does, step 1 hands it the
    coroutine of [_generate_canary_manifest] and raises: whatever the
    validations would say and however much fuel there is, no ramp cycle
    runs, [execute_deployment] returns False and the plan is archived as
    ROLLED_BACK, where the specification has five cycles up to 100 and
    COMPLETED. *)
Theorem scenario_A_as_written w fuel :
  write_requires_str w ->
  let run := execute_deployment (instance_with two_service_canary)
               (plan_id two_service_canary) w fuel in
  returns run = Ok false /\
  increases (effects run) = [] /\
  (status <$> deployment_history (after run)) = [ROLLED_BACK].
Proof.
  intros Hw. cbv zeta.
  destruct (canary_never_deploys (instance_with two_service_canary)
              (plan_id two_service_canary) two_service_canary w fuel)
    as [Hret Hnever]; [reflexivity|reflexivity|discriminate|exact Hw|].
  split; [exact Hret|]. split; [by apply never_deployed_increases|].
  destruct (execute_deployment_finished (instance_with two_service_canary)
              (plan_id two_service_canary) two_service_canary w fuel)
    as (final & -> & _ & Hterm & Hret' & _ & Hfailed & _);
    [reflexivity|by rewrite Hret|].
  rewrite Hret in Hret'. injection Hret' as Hnot. cbn.
  destruct (status final) eqn:Hs; cbn in Hterm, Hnot;
    try done; try (by destruct Hterm as [|[|]]).
  by specialize (Hfailed eq_refl).
Qed.

Lemma scenario_A_as_written_witness :
  validations_pass default_config write_checking_world /\
  let run := execute_deployment (instance_with two_service_canary)
               (plan_id two_service_canary) write_checking_world 5 in
  returns run = Ok false /\
  increases (effects run) = [] /\
  (status <$> deployment_history (after run)) = [ROLLED_BACK].
Proof.
  split; [intros st; reflexivity|].
  apply (scenario_A_as_written write_checking_world 5).
  exact write_checking_world_requires_str.
Defined.

(** * Further properties: promotion and withdrawal of a canary *)

Lemma removal_follows_apply_app l1 l2 :
  removal_follows_apply l1 -> removal_follows_apply l2 -> removal_follows_apply (l1 ++ l2).
Proof.
  intros H1 H2. induction l1 as [|e l1 IH]; [done|].
  cbn [app]. destruct e as [c r|p|l]; cbn in H1 |- *; try by apply IH.
  destruct c; try by apply IH.
  destruct H1 as [(manifest & v & rest & ->) H1]. split; [|by apply IH].
  exists manifest, v, (rest ++ l2). reflexivity.
Qed.

Lemma removed_app l1 l2 : removed (l1 ++ l2) = removed l1 ++ removed l2.
Proof. apply omap_app. Qed.

Lemma promote_loop_run (svcs : list string) : forall w st r st',
  for_each svcs (fun service =>
    let* stable_manifest := extern (generate_stable_manifest service) in
    _apply_kubernetes_manifest stable_manifest ;;
    extern (remove_canary_deployment service) ;; ret tt) w st = (r, st') ->
  plan st' = plan st /\
  exists new,
    trace st' = new ++ trace st /\
    removal_follows_apply new /\
    rev (removed new) `prefix_of` svcs /\
    (r = Ok tt <-> rev (removed new) = svcs) /\
    r <> OutOfFuel.
Proof.
  induction svcs as [|s svcs IH]; intros w st r st' H.
  - injection H as <- <-. split; [done|]. exists []. cbn. by repeat split.
  - rewrite for_each_cons in H. unfold bind at 1 in H. unfold bind at 1 in H.
    unfold extern at 1 in H.
    destruct (w st (generate_stable_manifest s)) as [m|e] eqn:Hg.
    2: { injection H as <- <-. split; [done|].
         exists [Call (generate_stable_manifest s) (Raise e)]. cbn.
         split; [done|]. split; [done|]. split; [apply prefix_nil|].
         split; [split; discriminate|discriminate]. }
    unfold bind at 1 in H. unfold _apply_kubernetes_manifest at 1 in H.
    unfold bind at 1 in H. unfold extern at 1 in H. cbn [plan trace] in H.
    match type of H with
    | context [w ?s0 (apply_kubernetes_manifest m)] =>
      destruct (w s0 (apply_kubernetes_manifest m)) as [v|e] eqn:Ha
    end.
    2: { injection H as <- <-. split; [done|].
         exists [Call (apply_kubernetes_manifest m) (Raise e);
                 Call (generate_stable_manifest s) (Return m)]. cbn.
         split; [done|]. split; [done|]. split; [apply prefix_nil|].
         split; [split; discriminate|discriminate]. }
    cbn [ret plan trace] in H. unfold bind at 1 in H. unfold extern at 1 in H.
    cbn [plan trace] in H.
    match type of H with
    | context [w ?s0 (remove_canary_deployment s)] =>
      destruct (w s0 (remove_canary_deployment s)) as [v'|e] eqn:Hrm
    end.
    2: { injection H as <- <-. split; [done|].
         exists [Call (remove_canary_deployment s) (Raise e);
                 Call (apply_kubernetes_manifest m) (Return v);
                 Call (generate_stable_manifest s) (Return m)]. cbn.
         split; [done|]. split; [by split; [exists m, v, []|]|]. split; [apply prefix_nil|].
         split; [split; discriminate|discriminate]. }
    cbn [ret plan trace] in H.
    apply IH in H as (Hp & new & Htr & Hord & Hpre & Hr & Hfuel). cbn in Hp, Htr.
    split; [done|].
    exists (new ++ [Call (remove_canary_deployment s) (Return v');
                    Call (apply_kubernetes_manifest m) (Return v);
                    Call (generate_stable_manifest s) (Return m)]).
    split; [by rewrite Htr, <- app_assoc|].
    split. { apply removal_follows_apply_app; [done|]. cbn. by split; [exists m, v, []|]. }
    rewrite removed_app, rev_app_distr. cbn [removed omap rev app].
    split; [by apply prefix_cons|]. split; [|done].
    rewrite Hr. split; [by intros ->|by intros [= ->]].
Qed.

(** X26: [_promote_canary_to_stable] removes the canary of a service
    only right after the stable manifest of that service has been
    generated and applied, both calls having returned; it goes through
    the services in the order of the plan and stops at the first call
    that raises; it leaves the plan alone, and it returns (and logs the
    promotion) exactly if the canary of every service has been
    removed. *)
Theorem promotion_removes_after_apply w st :
  let run := _promote_canary_to_stable w st in
  plan (snd run) = plan st /\
  exists new,
    trace (snd run) = new ++ trace st /\
    removal_follows_apply new /\
    rev (removed new) `prefix_of` services (plan st) /\
    (fst run = Ok tt <-> rev (removed new) = services (plan st)) /\
    (fst run = Ok tt <-> In (Log Canary_promoted_to_stable) new).
Proof.
  cbv zeta. destruct (_promote_canary_to_stable w st) as [r st'] eqn:H. cbn [fst snd].
  unfold _promote_canary_to_stable in H. step H. unfold bind at 1 in H.
  match type of H with
  | context [for_each ?l ?body w st] =>
    destruct (for_each l body w st) as [r1 s1] eqn:Hloop
  end.
  destruct (promote_loop_run _ _ _ _ _ Hloop) as (Hp & new & Htr & Hord & Hpre & Hr & Hfuel).
  assert (Hnolog : ~ In (Log Canary_promoted_to_stable) new).
  { assert (Hq : sound (eq (plan st)) (fun e => e <> Log Canary_promoted_to_stable)
                   (for_each (services (plan st)) (fun service =>
                      let* stable_manifest := extern (generate_stable_manifest service) in
                      _apply_kubernetes_manifest stable_manifest ;;
                      extern (remove_canary_deployment service) ;; ret tt)))
      by sound_auto ltac:(try discriminate).
    destruct (sound_run _ _ _ _ _ _ _ Hq Hloop eq_refl) as (_ & new' & Htr' & Hall).
    rewrite Htr in Htr'. apply app_inv_tail in Htr' as ->.
    intros Hin. rewrite Forall_forall in Hall. by apply (Hall _ (proj2 (list_elem_of_In _ _) Hin)). }
  destruct r1 as [[]|e|]; [| |done].
  - cbn in H. injection H as <- <-. cbn. split; [done|].
    exists (Log Canary_promoted_to_stable :: new). split; [by rewrite Htr|].
    split; [done|]. split; [done|]. split; [done|]. split; [by left|done].
  - injection H as <- <-. split; [done|]. exists new. split; [done|].
    split; [done|]. split; [done|]. split; [done|]. split; [discriminate|done].
Qed.

Lemma route_loop_returned percentage (svcs : list string) : forall w st st',
  for_each svcs (fun service =>
    let* traffic_manifest := extern (generate_traffic_routing_manifest service percentage) in
    _apply_kubernetes_manifest traffic_manifest) w st = (Ok tt, st') ->
  exists io,
    trace st' = io ++ trace st /\
    forall s, In s svcs ->
      exists manifest v,
        In (Call (generate_traffic_routing_manifest s percentage) (Return manifest)) io /\
        In (Call (apply_kubernetes_manifest manifest) (Return v)) io.
Proof.
  induction svcs as [|s svcs IH]; intros w st st' H.
  - injection H as <-. exists []. split; [done|]. intros s [].
  - rewrite for_each_cons in H. unfold bind at 1 in H. unfold bind at 1 in H.
    unfold extern at 1 in H.
    destruct (w st (generate_traffic_routing_manifest s percentage)) as [m|e] eqn:Hg;
      [|discriminate].
    unfold _apply_kubernetes_manifest at 1 in H. unfold bind at 1 in H.
    unfold extern at 1 in H. cbn [plan trace] in H.
    match type of H with
    | context [w ?s0 (apply_kubernetes_manifest m)] =>
      destruct (w s0 (apply_kubernetes_manifest m)) as [v|e] eqn:Ha; [|discriminate]
    end.
    cbn [ret plan trace] in H.
    apply IH in H as (io & Htr & Hall). cbn in Htr.
    exists (io ++ [Call (apply_kubernetes_manifest m) (Return v);
                   Call (generate_traffic_routing_manifest s percentage) (Return m)]).
    split; [by rewrite Htr, <- app_assoc|].
    intros s' [<-|Hs'].
    + exists m, v. split; apply in_or_app; right; cbn; tauto.
    + destruct (Hall s' Hs') as (m' & v' & H1 & H2).
      exists m', v'. split; apply in_or_app; by left.
Qed.

Lemma removal_after_withdrawal_app svcs later older :
  withdrawn svcs older ->
  removal_after_withdrawal svcs older ->
  removal_after_withdrawal svcs (later ++ older).
Proof.
  intros [Hlog Hall] Holder. induction later as [|e later IH]; [done|].
  assert (Hw : withdrawn svcs (later ++ older)).
  { split; [apply in_or_app; by right|]. intros s Hs.
    destruct (Hall s Hs) as (m & v & H1 & H2). exists m, v.
    split; apply in_or_app; by right. }
  cbn [app]. destruct e as [c r|p|l]; cbn; try done. destruct c; try done.
Qed.

Lemma no_removal_never svcs io : Forall no_removal io -> removal_after_withdrawal svcs io.
Proof.
  induction 1 as [|e io He Hio IH]; [done|].
  destruct e as [c r|p|l]; cbn; try done. destruct c; try done.
Qed.

(** X27: [_rollback_canary_deployment] removes a canary only once the
    canary takes no traffic any more: every call that removes a canary
    comes after the routing with weight 0 has been generated and
    applied for every service of the plan and logged.  If routing the
    traffic back raises, no canary is removed.  The plan is left
    alone. *)
Theorem canary_removed_after_traffic_withdrawn w st :
  let run := _rollback_canary_deployment w st in
  plan (snd run) = plan st /\
  exists new,
    trace (snd run) = new ++ trace st /\
    removal_after_withdrawal (services (plan st)) new.
Proof.
  cbv zeta. destruct (_rollback_canary_deployment w st) as [r st'] eqn:H. cbn [fst snd].
  destruct (sound_run _ _ _ _ _ _ _ (withdraws_rollback_canary (plan st)) H eq_refl)
    as (Hp & _).
  split; [done|].
  unfold _rollback_canary_deployment, _route_traffic_to_canary in H.
  unfold bind at 1 in H. unfold bind at 1 in H. cbn [get_plan] in H.
  unfold bind at 1 in H.
  match type of H with
  | context [for_each ?xs ?body w st] =>
    assert (Hs : sound (eq (plan st)) no_removal (for_each xs body))
      by sound_auto ltac:(try (cbn; tauto); try (intros; subst; cbn; tauto));
    destruct (for_each xs body w st) as [r1 s1] eqn:E1;
    destruct (sound_run _ _ _ _ _ _ _ Hs E1 eq_refl) as (Hp1 & io1 & Htr1 & Hio1)
  end.
  destruct r1 as [[]|e|].
  2,3: injection H as <- <-; exists io1; split; [done|]; by apply no_removal_never.
  destruct (route_loop_returned _ _ _ _ _ E1) as (io1' & Htr1' & Hall).
  rewrite Htr1 in Htr1'. apply app_inv_tail in Htr1' as <-.
  cbn [log emit] in H. step H. rewrite <- Hp1 in H.
  match type of H with
  | ?m w ?s = _ =>
    assert (Hs2 : sound (eq (plan s)) (fun _ => True) m)
      by sound_auto ltac:(try (cbn; tauto); try (intros; subst; cbn; tauto));
    destruct (sound_run _ _ _ _ _ _ _ Hs2 H eq_refl) as (_ & io2 & Htr2 & _)
  end.
  cbn in Htr2. exists (io2 ++ Log (Traffic_routed_to_canary 0) :: io1).
  split; [by rewrite Htr2, Htr1, <- app_assoc|].
  apply removal_after_withdrawal_app.
  - split; [by left|]. intros s Hs'. destruct (Hall s Hs') as (m & v & H1 & H2).
    exists m, v. split; by right.
  - cbn. by apply no_removal_never.
Qed.

(** X28: without [rollback_on_failure], a canary plan whose metrics
    validation fails is left as it is: the failed validation is followed
    by no call at all, so the traffic weight of the last cycle stays
    routed to the canary and no canary is removed; the plan is set to
    FAILED and archived, and [execute_deployment] returns False. *)
Theorem canary_abort_without_rollback self pid plan0 w fuel :
  active_deployments self !! pid = Some plan0 ->
  strategy plan0 = CANARY ->
  rollback_on_failure plan0 = false ->
  In (Log Canary_metrics_validation_failed) (effects (execute_deployment self pid w fuel)) ->
  let run := execute_deployment self pid w fuel in
  exists failed earlier,
    effects run =
      Log Deployment_failed :: Store failed
      :: Log Canary_metrics_validation_failed :: earlier /\
    status failed = FAILED /\
    ~ In (Log Canary_metrics_validation_failed) earlier /\
    returns run = Ok false /\
    deployment_history (after run) = deployment_history self ++ [failed] /\
    active_deployments (after run) !! pid = None.
Proof.
  intros Hplan Hstrat Hrb Hin. cbv zeta.
  destruct (execute_canary_run self pid plan0 w fuel Hplan Hstrat)
    as (before & mid & between & tail & r2 & p2 & final & Heff & Hb & Hbt & Ht & Hmid
        & Hfail & _ & _ & Hs2 & Hv2 & Hr2 & Hend).
  cbv zeta in *. rewrite Heff in Hin |- *.
  assert (Hin' : In (Log Canary_metrics_validation_failed) mid).
  { apply in_app_or in Hin as [Hin|Hin]; [by apply calm_not_failed in Hin|].
    apply in_app_or in Hin as [Hin|Hin]; [by apply calm_not_failed in Hin|].
    apply in_app_or in Hin as [Hin|Hin]; [done|by apply calm_not_failed in Hin]. }
  destruct (Hfail Hin') as [-> ->].
  destruct Hmid as [->|[rr Hrr]]; [destruct Hin'|].
  destruct (ramp_events_failed _ _ _ _ Hrr Hin') as (_ & io & -> & Hio).
  destruct Hend as [(Hfuel & _)|(Hc & Hret & Hafter)]; [discriminate|].
  rewrite Hrb in Hr2.
  inversion Hc as [| Hno | rollback Hyes Hw Hcw | |]; subst; [|congruence].
  exists (with_status FAILED p2), (io ++ before).
  split; [done|]. split; [done|].
  split.
  { intros Hearlier. apply in_app_or in Hearlier as [Hearlier|Hearlier]; [done|].
    by apply (calm_not_failed before). }
  rewrite Hret, Hafter. cbn. split; [done|]. split; [done|]. apply lookup_delete_eq.
Qed.

Lemma canary_abort_without_rollback_witness :
  returns (execute_deployment (instance_with (pending_plan CANARY [] false))
             "deploy_1700000000_demo" unhealthy_on_cycle_2 5) = Ok false.
Proof.
  destruct (canary_abort_without_rollback (instance_with (pending_plan CANARY [] false))
              "deploy_1700000000_demo" (pending_plan CANARY [] false)
              unhealthy_on_cycle_2 5 (lookup_insert_eq _ _ _) eq_refl eq_refl)
    as (failed & earlier & _ & _ & _ & Hret & _).
  - vm_compute. repeat (first [left; reflexivity | right]).
  - exact Hret.
Defined.
